(** * wrapper.c: the timeout supervisor of Attempt This Online

    A shallow embedding of [src/wrapper.c] (the supervisor derived from GNU
    coreutils' timeout) together with the properties its specification
    states about it.

    The program is one process that talks to the kernel and is interrupted by
    signals.  It is embedded as

    - pure functions for the code that only computes ([parse_int], the
      rendering of the output record);
    - state transformers for the functions that act on the process
      ([settimeout], [send_sig], [cleanup], [handle_usr1], [install_cleanup],
      [block_cleanup_and_chld], the classification of the wait status, ...);
    - a transition system for [main], one label per statement, whose steps
      are driven by events: the program executes its next statement (the
      event carries what the kernel answers), the kernel delivers a signal,
      or the child terminates.

    C integers are [Z] with the two's complement wrap-around written out,
    signal sets are bit masks, the constants are those of Linux on x86-64.

    What the model takes from the kernel and not from the source:
    - a statement of [main] and a run of a handler are atomic;
    - the dispositions of SIGKILL and SIGSTOP cannot be changed and the two
      signals cannot be blocked;
    - a blocked signal stays pending, and the environment is free to deliver
      it at any later point where it is not blocked;
    - SIGKILL ends a running child at once, with wait status SIGKILL; what
      any other signal does to the child is left open (the child may
      terminate later, with any status);
    - [waitpid] with WNOHANG answers 0 for a running child, reaps a
      terminated one, and fails when there is nothing to wait for. *)

From Stdlib Require Import ZArith List String Ascii Bool Lia DecimalString.
From Stdlib Require DecimalPos.
Import ListNotations.
Open Scope string_scope.
Open Scope Z_scope.

(** ** Machine integers *)

(** A [w]-bit two's complement integer: the representative of [x] in
    [-2^(w-1), 2^(w-1)). *)
Definition wrap (w x : Z) : Z := (x + 2 ^ (w - 1)) mod 2 ^ w - 2 ^ (w - 1).

(** [int] is 32 bits, [long] and [long long] are 64 bits (LP64). *)
Definition int32 : Z -> Z := wrap 32.
Definition int64 : Z -> Z := wrap 64.

Definition INT_MAX : Z := 2147483647.
Definition INT_MIN : Z := -2147483648.

(** ** Constants of the platform headers (Linux, x86-64) *)

Definition SIGHUP : Z := 1.
Definition SIGINT : Z := 2.
Definition SIGQUIT : Z := 3.
Definition SIGKILL : Z := 9.
Definition SIGUSR1 : Z := 10.
Definition SIGALRM : Z := 14.
Definition SIGTERM : Z := 15.
Definition SIGCHLD : Z := 17.
Definition SIGCONT : Z := 18.
Definition SIGSTOP : Z := 19.
Definition SIGTSTP : Z := 20.
Definition SIGTTIN : Z := 21.
Definition SIGTTOU : Z := 22.
Definition SIGURG : Z := 23.
Definition SIGWINCH : Z := 28.
(** Signals are numbered 1 to [_NSIG - 1]. *)
Definition NSIG : Z := 65.

Definition EBADF : Z := 9.
Definition ENOSYS : Z := 38.

Definition MAX_TIMEOUT_SECS : Z := 60.

(** ** Results of code that may leave through [exit] *)

(** A computation either returns a value or terminates the whole process
    with an exit status ([exit], [_exit], [return] from [main]). *)
Inductive outcome (A : Type) : Type :=
| Return (a : A)
| Exit (code : Z).
Arguments Return {A} a.
Arguments Exit {A} code.

Definition bind {A B : Type} (m : outcome A) (k : A -> outcome B) : outcome B :=
  match m with
  | Return a => k a
  | Exit c => Exit c
  end.

Notation "x <- m ;; k" := (bind m (fun x => k))
  (at level 61, m at next level, right associativity).
Notation "' p <- m ;; k" := (bind m (fun x => let 'p := x in k))
  (at level 61, p pattern, m at next level, right associativity).

(** ** C strings *)

(** The value of a [char]: [char] is signed on this platform. *)
Definition c_char (a : ascii) : Z :=
  let n := Z.of_N (N_of_ascii a) in
  if n <? 128 then n else n - 256.

(** [string[0]]: the first character, or the terminating NUL of the empty
    string. *)
Definition c_head (s : string) : Z :=
  match s with
  | EmptyString => 0
  | String c _ => c_char c
  end.

Definition char_0 : Z := 48.
Definition char_1 : Z := 49.
Definition char_9 : Z := 57.

(** ** [parse_int] *)

(** The loop [for (i = 0; string[i]; i++)] of [parse_int], started with
    [value] on the characters that remain.  The end of the Rocq string and a
    NUL character both stand for the terminator. *)
Fixpoint parse_int_loop (s : string) (value : Z) : outcome Z :=
  match s with
  | EmptyString => Return value
  | String c rest =>
      let ch := c_char c in
      if ch =? 0 then Return value
      else if (ch <? char_0) || (ch >? char_9) then Exit 2
      else
        let value := int32 (value * 10) in
        let value := int32 (value + (ch - char_0)) in
        parse_int_loop rest value
  end.

Definition parse_int (s : string) : outcome Z :=
  if c_head s <? char_1 then Exit 2 else parse_int_loop s 0.

(** The characters of a C string: what precedes the first NUL. *)
Fixpoint c_str (s : string) : list Z :=
  match s with
  | EmptyString => []
  | String c rest => if c_char c =? 0 then [] else c_char c :: c_str rest
  end.

Definition is_digit (ch : Z) : bool := (char_0 <=? ch) && (ch <=? char_9).

(** The strings the specification calls valid: not empty, ASCII digits only,
    the first one at least ['1']. *)
Definition valid_number (cs : list Z) : bool :=
  match cs with
  | [] => false
  | c :: _ => (char_1 <=? c) && forallb is_digit cs
  end.

(** The number a string of digits denotes, without any bound. *)
Definition decimal_value (cs : list Z) : Z :=
  fold_left (fun acc c => acc * 10 + (c - char_0)) cs 0.

(** ** Signal sets *)

(** A [sigset_t] is a bit mask: signal [sig] is bit [sig - 1]. *)
Definition sigset : Type := Z.

Definition valid_signal (sig : Z) : bool := (1 <=? sig) && (sig <? NSIG).

Definition sigbit (sig : Z) : sigset := Z.shiftl 1 (sig - 1).

Definition sigemptyset : sigset := 0.

(** [sigaddset] fails (and leaves the set alone) on an invalid number. *)
Definition sigaddset (set : sigset) (sig : Z) : sigset :=
  if valid_signal sig then Z.lor set (sigbit sig) else set.

Definition sigismember (set : sigset) (sig : Z) : bool :=
  valid_signal sig && Z.testbit set (sig - 1).

(** The kernel never blocks SIGKILL and SIGSTOP, whatever is asked. *)
Definition unblockable : sigset := Z.lor (sigbit SIGKILL) (sigbit SIGSTOP).

Definition mask_block (mask set : sigset) : sigset :=
  Z.ldiff (Z.lor mask set) unblockable.

Definition mask_unblock (mask set : sigset) : sigset := Z.ldiff mask set.

(** ** Wait statuses (the macros of <sys/wait.h>, as glibc defines them) *)

Definition WTERMSIG (status : Z) : Z := Z.land status 127.
Definition WEXITSTATUS (status : Z) : Z := Z.shiftr (Z.land status 65280) 8.
Definition WIFEXITED (status : Z) : bool := WTERMSIG status =? 0.
(** [((signed char) ((status & 0x7f) + 1) >> 1) > 0] *)
Definition WIFSIGNALED (status : Z) : bool :=
  Z.shiftr (wrap 8 (Z.land status 127 + 1)) 1 >? 0.
Definition WCOREDUMP (status : Z) : bool := negb (Z.land status 128 =? 0).

(** What the kernel reports for a child that called [exit (code)], and for
    one that a signal terminated. *)
Definition W_EXITCODE (code : Z) : Z := Z.shiftl (Z.land code 255) 8.
Definition W_SIGNALED (sig : Z) (core : bool) : Z :=
  Z.lor sig (if core then 128 else 0).

(** ** Data *)

Record timespec : Type := { ts_sec : Z; ts_nsec : Z }.
Record timeval : Type := { tv_sec : Z; tv_usec : Z }.

Record rusage : Type := {
  ru_utime : timeval;
  ru_stime : timeval;
  ru_maxrss : Z;
  ru_majflt : Z;
  ru_minflt : Z;
  ru_inblock : Z;
  ru_oublock : Z;
  ru_nvcsw : Z;
  ru_nivcsw : Z
}.

(** [TIMESPEC] and [TIMEVAL]: nanoseconds, computed in [long long]. *)
Definition TIMESPEC (ts : timespec) : Z :=
  int64 (int64 (ts_sec ts * 1000000000) + ts_nsec ts).
Definition TIMEVAL (tv : timeval) : Z :=
  int64 (int64 (tv_sec tv * 1000000000) + int64 (tv_usec tv * 1000)).

(** The signal handlers of the program. *)
Inductive handler : Type := Hcleanup | Hchld | Husr1.

Inductive disposition : Type :=
| SIG_DFL
| SIG_IGN
| SigHandler (h : handler).

(** The forked child as the kernel sees it from the parent. *)
Inductive child_state : Type :=
| NoChild
| Running
| Zombie (wstatus : Z)
| Reaped.

(** What the process does to the outside, in the order it does it.  A [kill]
    records the state its target was in. *)
Inductive effect : Type :=
| SysPerror (msg : string)
| SysSetpgid (pid pgid : Z)
| SysFork (ret : Z)
| SysClose (fd : Z)
| SysExec (path : string)
| SysKill (pid sig : Z) (target : child_state)
| SysTimerCreate
| SysTimerSettime (secs : Z)
| SysTimerDelete
| SysAlarm (secs : Z)
| SysWaitpid (pid ret : Z).

(** The statements of [main], by the line they start on, and the ways the
    process ends. *)
Inductive label : Type :=
| L250 (* argc, parse_int twice, the range check *)
| L260 (* errno = 0; fcntl (fd, F_GETFD) *)
| L267 (* preserve_status = true; setpgid (0, 0) *)
| L278 (* install_cleanup (term_signal) *)
| L279 (* signal (SIGTTIN, SIG_IGN) *)
| L280 (* signal (SIGTTOU, SIG_IGN) *)
| L281 (* install_sigchld () *)
| L284 (* clock_gettime (CLOCK_MONOTONIC, &start_time) *)
| L290 (* monitored_pid = fork () *)
| L296 (* child: signal (SIGTTIN, SIG_DFL) *)
| L297 (* child: signal (SIGTTOU, SIG_DFL) *)
| L299 (* child: close (fd) *)
| L300 (* child: execlp *)
| L301 (* child: perror; return 1 *)
| L311 (* unblock_signal (SIGALRM) *)
| L318 (* sigaction (SIGUSR1, handle_usr1) *)
| L323 (* settimeout (true) *)
| L328 (* block_cleanup_and_chld (term_signal, &cleanup_set) *)
| L330 (* waitpid (monitored_pid, &status, WNOHANG) *)
| L331 (* inside sigsuspend (&cleanup_set) *)
| L334 (* clock_gettime (CLOCK_MONOTONIC, &end_time) *)
| L336 (* the classification of the wait status *)
| L355 (* getrusage (RUSAGE_CHILDREN, &rusage) *)
| L361 (n : nat) (* the DPRINTF number n, from 0 *)
| Exited (code : Z) (* exit, _exit or return from main *)
| Killed (sig : Z) (* terminated by a signal *)
| Execed. (* the child became /ATO/runner *)

(** The static variables of the program. *)
Record globals : Type := {
  timed_out : Z;
  term_signal : Z;
  timeout_secs : Z;
  monitored_pid : Z;
  foreground : bool;
  preserve_status : bool
}.

(** The local variables of [main]. *)
Record locals : Type := {
  argv : list string;
  fd : Z;
  start_time : timespec;
  end_time : timespec;
  wait_result : Z;
  status : Z;
  status_type : string;
  ru : rusage;
  cleanup_set : sigset
}.

(** The part of the kernel's state that concerns the process. *)
Record kernel : Type := {
  k_disp : Z -> disposition;
  k_mask : sigset;
  k_saved : sigset; (* the mask sigsuspend restores *)
  k_child : child_state;
  k_child_pid : Z;
  k_open : Z -> bool (* the descriptor table *)
}.

Record state : Type := {
  pc : label;
  g : globals;
  l : locals;
  k : kernel;
  out : string; (* the bytes written to descriptor fd *)
  log : list effect
}.

(** ** Assignments *)

Definition set_timed_out (v : Z) (x : globals) : globals :=
  {| timed_out := v; term_signal := term_signal x;
     timeout_secs := timeout_secs x; monitored_pid := monitored_pid x;
     foreground := foreground x; preserve_status := preserve_status x |}.
Definition set_timeout_secs (v : Z) (x : globals) : globals :=
  {| timed_out := timed_out x; term_signal := term_signal x;
     timeout_secs := v; monitored_pid := monitored_pid x;
     foreground := foreground x; preserve_status := preserve_status x |}.
Definition set_monitored_pid (v : Z) (x : globals) : globals :=
  {| timed_out := timed_out x; term_signal := term_signal x;
     timeout_secs := timeout_secs x; monitored_pid := v;
     foreground := foreground x; preserve_status := preserve_status x |}.
Definition set_preserve_status (v : bool) (x : globals) : globals :=
  {| timed_out := timed_out x; term_signal := term_signal x;
     timeout_secs := timeout_secs x; monitored_pid := monitored_pid x;
     foreground := foreground x; preserve_status := v |}.

Definition set_fd (v : Z) (x : locals) : locals :=
  {| argv := argv x; fd := v; start_time := start_time x;
     end_time := end_time x; wait_result := wait_result x;
     status := status x; status_type := status_type x; ru := ru x;
     cleanup_set := cleanup_set x |}.
Definition set_start_time (v : timespec) (x : locals) : locals :=
  {| argv := argv x; fd := fd x; start_time := v;
     end_time := end_time x; wait_result := wait_result x;
     status := status x; status_type := status_type x; ru := ru x;
     cleanup_set := cleanup_set x |}.
Definition set_end_time (v : timespec) (x : locals) : locals :=
  {| argv := argv x; fd := fd x; start_time := start_time x;
     end_time := v; wait_result := wait_result x;
     status := status x; status_type := status_type x; ru := ru x;
     cleanup_set := cleanup_set x |}.
Definition set_wait_result (v : Z) (x : locals) : locals :=
  {| argv := argv x; fd := fd x; start_time := start_time x;
     end_time := end_time x; wait_result := v;
     status := status x; status_type := status_type x; ru := ru x;
     cleanup_set := cleanup_set x |}.
Definition set_status (v : Z) (x : locals) : locals :=
  {| argv := argv x; fd := fd x; start_time := start_time x;
     end_time := end_time x; wait_result := wait_result x;
     status := v; status_type := status_type x; ru := ru x;
     cleanup_set := cleanup_set x |}.
Definition set_status_type (v : string) (x : locals) : locals :=
  {| argv := argv x; fd := fd x; start_time := start_time x;
     end_time := end_time x; wait_result := wait_result x;
     status := status x; status_type := v; ru := ru x;
     cleanup_set := cleanup_set x |}.
Definition set_ru (v : rusage) (x : locals) : locals :=
  {| argv := argv x; fd := fd x; start_time := start_time x;
     end_time := end_time x; wait_result := wait_result x;
     status := status x; status_type := status_type x; ru := v;
     cleanup_set := cleanup_set x |}.
Definition set_cleanup_set (v : sigset) (x : locals) : locals :=
  {| argv := argv x; fd := fd x; start_time := start_time x;
     end_time := end_time x; wait_result := wait_result x;
     status := status x; status_type := status_type x; ru := ru x;
     cleanup_set := v |}.

Definition set_disp (v : Z -> disposition) (x : kernel) : kernel :=
  {| k_disp := v; k_mask := k_mask x; k_saved := k_saved x;
     k_child := k_child x; k_child_pid := k_child_pid x; k_open := k_open x |}.
Definition set_mask (v : sigset) (x : kernel) : kernel :=
  {| k_disp := k_disp x; k_mask := v; k_saved := k_saved x;
     k_child := k_child x; k_child_pid := k_child_pid x; k_open := k_open x |}.
Definition set_saved (v : sigset) (x : kernel) : kernel :=
  {| k_disp := k_disp x; k_mask := k_mask x; k_saved := v;
     k_child := k_child x; k_child_pid := k_child_pid x; k_open := k_open x |}.
Definition set_child (v : child_state) (x : kernel) : kernel :=
  {| k_disp := k_disp x; k_mask := k_mask x; k_saved := k_saved x;
     k_child := v; k_child_pid := k_child_pid x; k_open := k_open x |}.
Definition set_child_pid (v : Z) (x : kernel) : kernel :=
  {| k_disp := k_disp x; k_mask := k_mask x; k_saved := k_saved x;
     k_child := k_child x; k_child_pid := v; k_open := k_open x |}.
Definition set_open (v : Z -> bool) (x : kernel) : kernel :=
  {| k_disp := k_disp x; k_mask := k_mask x; k_saved := k_saved x;
     k_child := k_child x; k_child_pid := k_child_pid x; k_open := v |}.

Definition goto (v : label) (s : state) : state :=
  {| pc := v; g := g s; l := l s; k := k s; out := out s; log := log s |}.
Definition on_g (f : globals -> globals) (s : state) : state :=
  {| pc := pc s; g := f (g s); l := l s; k := k s; out := out s;
     log := log s |}.
Definition on_l (f : locals -> locals) (s : state) : state :=
  {| pc := pc s; g := g s; l := f (l s); k := k s; out := out s;
     log := log s |}.
Definition on_k (f : kernel -> kernel) (s : state) : state :=
  {| pc := pc s; g := g s; l := l s; k := f (k s); out := out s;
     log := log s |}.
Definition write_out (bytes : string) (s : state) : state :=
  {| pc := pc s; g := g s; l := l s; k := k s; out := out s ++ bytes;
     log := log s |}.
Definition emit (e : effect) (s : state) : state :=
  {| pc := pc s; g := g s; l := l s; k := k s; out := out s;
     log := (log s ++ [e])%list |}.

Definition update {A : Type} (f : Z -> A) (x : Z) (v : A) : Z -> A :=
  fun y => if y =? x then v else f y.

(** ** System calls *)

Definition perror (msg : string) : state -> state := emit (SysPerror msg).

(** [exit], [_exit] and [return] from [main]: the process is over. *)
Definition c_exit (code : Z) : state -> state := goto (Exited code).

(** [signal] and [sigaction]: the disposition of SIGKILL and SIGSTOP cannot
    be changed, nor that of a number that is no signal (EINVAL). *)
Definition sys_sigaction (sig : Z) (d : disposition) (s : state) : Z * state :=
  if valid_signal sig && negb (sig =? SIGKILL) && negb (sig =? SIGSTOP)
  then (0, on_k (set_disp (update (k_disp (k s)) sig d)) s)
  else (-1, s).

Definition sys_signal (sig : Z) (d : disposition) (s : state) : state :=
  snd (sys_sigaction sig d s).

(** [sigprocmask (SIG_BLOCK, set, NULL)] and [SIG_UNBLOCK]: they do not fail. *)
Definition sys_sigprocmask_block (set : sigset) (s : state) : Z * state :=
  (0, on_k (set_mask (mask_block (k_mask (k s)) set)) s).
Definition sys_sigprocmask_unblock (set : sigset) (s : state) : Z * state :=
  (0, on_k (set_mask (mask_unblock (k_mask (k s)) set)) s).

(** [kill (pid, sig)].  The one effect the model knows is that SIGKILL ends
    a running child at once, with wait status SIGKILL; what another signal
    does to the child is the child's business (it shows as a later
    termination, if any).  A zombie is not affected, and a reaped child is
    not there any more: its number may name another process. *)
Definition sys_kill (pid sig : Z) (s : state) : state :=
  let s := emit (SysKill pid sig (k_child (k s))) s in
  if pid =? k_child_pid (k s) then
    match k_child (k s) with
    | Running =>
        if sig =? SIGKILL
        then on_k (set_child (Zombie (W_SIGNALED SIGKILL false))) s
        else s
    | _ => s
    end
  else s.

(** What the kernel answers when the program runs a statement; each statement
    reads the fields its system calls need. *)
Record os_result : Type := {
  ret : Z; (* the return value *)
  err : Z; (* errno after a failure *)
  ret2 : Z; (* the same for a second call of the statement *)
  err2 : Z;
  ts : timespec; (* the time clock_gettime stores *)
  usage : rusage (* what getrusage stores *)
}.

(** ** The functions of the program *)

(** [settimeout]: [r] answers timer_create ([ret], [err]) and timer_settime
    ([ret2], [err2]). *)
Definition settimeout (warn : bool) (r : os_result) (s : state) : state :=
  let s := emit SysTimerCreate s in
  if ret r =? 0 then
    let s := emit (SysTimerSettime (timeout_secs (g s))) s in
    if ret2 r =? 0 then s
    else
      let s := if warn then perror "warning: timer_settime" s else s in
      let s := emit SysTimerDelete s in
      emit (SysAlarm (timeout_secs (g s))) s
  else
    let s :=
      if warn && negb (err r =? ENOSYS)
      then perror "warning: timer_create" s else s in
    emit (SysAlarm (timeout_secs (g s))) s.

Definition send_sig (where_ sig : Z) (s : state) : state :=
  let s := if where_ =? 0 then sys_signal sig SIG_IGN s else s in
  sys_kill where_ sig s.

Definition chld (sig : Z) (s : state) : state := s.

Definition cleanup (sig : Z) (s : state) : state :=
  let '(sig, s) :=
    if sig =? SIGALRM
    then (term_signal (g s), on_g (set_timed_out 1) s)
    else (sig, s) in
  if negb (monitored_pid (g s) =? 0)
  then send_sig (monitored_pid (g s)) sig s
  else c_exit (128 + sig) s.

Definition unblock_signal (sig : Z) (s : state) : state :=
  let unblock_set := sigemptyset in
  let unblock_set := sigaddset unblock_set sig in
  let '(rc, s) := sys_sigprocmask_unblock unblock_set s in
  if negb (rc =? 0) then perror "warning: sigprocmask" s else s.

Definition install_sigchld (s : state) : state :=
  let s := snd (sys_sigaction SIGCHLD (SigHandler Hchld) s) in
  unblock_signal SIGCHLD s.

(** [handle_usr1]: a failed [assert] aborts the process (SIGABRT is 6). *)
Definition handle_usr1 (sig sival_int : Z) (s : state) : state :=
  if negb (sig =? SIGUSR1) then goto (Killed 6) s
  else
    let signal := sival_int in
    sys_kill (monitored_pid (g s)) signal s.

Definition install_cleanup (sigterm : Z) (s : state) : state :=
  let sa := SigHandler Hcleanup in
  let s := snd (sys_sigaction SIGALRM sa s) in
  let s := snd (sys_sigaction SIGINT sa s) in
  let s := snd (sys_sigaction SIGQUIT sa s) in
  let s := snd (sys_sigaction SIGHUP sa s) in
  let s := snd (sys_sigaction SIGTERM sa s) in
  snd (sys_sigaction sigterm sa s).

(** The set [block_cleanup_and_chld] builds. *)
Definition block_set (sigterm : Z) : sigset :=
  let block_set := sigemptyset in
  let block_set := sigaddset block_set SIGALRM in
  let block_set := sigaddset block_set SIGINT in
  let block_set := sigaddset block_set SIGQUIT in
  let block_set := sigaddset block_set SIGHUP in
  let block_set := sigaddset block_set SIGTERM in
  let block_set := sigaddset block_set sigterm in
  sigaddset block_set SIGCHLD.

(** [block_cleanup_and_chld (sigterm, &cleanup_set)]: the old mask goes to
    the local [cleanup_set] of [main]. *)
Definition block_cleanup_and_chld (sigterm : Z) (s : state) : state :=
  let old_set := k_mask (k s) in
  let '(rc, s) := sys_sigprocmask_block (block_set sigterm) s in
  let s := on_l (set_cleanup_set old_set) s in
  if negb (rc =? 0) then perror "warning: sigprocmask" s else s.

(** Lines 250 to 255 of [main]: the count of the arguments and the two
    calls of [parse_int].  [argc] is the length of [argv], and [argv[0]] is
    the program's name. *)
Definition main_parse (argv : list string) : outcome (Z * Z) :=
  if negb (Z.of_nat (List.length argv) =? 3) then Exit 2
  else
    fd <- parse_int (nth 1 argv EmptyString) ;;
    timeout_secs <- parse_int (nth 2 argv EmptyString) ;;
    Return (fd, timeout_secs).

(** Lines 250 to 258: the same with the check of the range. *)
Definition main_args (argv : list string) : outcome (Z * Z) :=
  '(fd, timeout_secs) <- main_parse argv ;;
  if (timeout_secs <? 1) || (timeout_secs >? MAX_TIMEOUT_SECS)
  then Exit 2
  else Return (fd, timeout_secs).

(** Lines 336 to 353 of [main]: the classification of the wait status. *)
Definition classify (s : state) : state :=
  if wait_result (l s) <? 0 then
    let s := perror "error waiting for command" s in
    on_l (set_status (-1)) s
  else if WIFEXITED (status (l s)) then
    let s := on_l (set_status_type "exited") s in
    on_l (set_status (WEXITSTATUS (status (l s)))) s
  else if WIFSIGNALED (status (l s)) then
    let s := on_l (set_status_type "killed") s in
    let s :=
      if WCOREDUMP (status (l s))
      then on_l (set_status_type "core_dump") s else s in
    on_l (set_status (WTERMSIG (status (l s)))) s
  else on_l (set_status (-1)) s.

(** ** The output record *)

Definition dquote : string := String "034"%char EmptyString.
Definition newline : string := String "010"%char EmptyString.

(** [%d], [%ld] and [%lld]. *)
Definition fmt_d (n : Z) : string := NilZero.string_of_int (Z.to_int n).

(** The text ["name":value] of one field. *)
Definition field (name value : string) : string :=
  dquote ++ name ++ dquote ++ ":" ++ value.

(** The fields of the record, in the order they are printed, and their
    values: the arguments of the calls of [DPRINTF], which read the static
    [timed_out] and the locals of [main]. *)
Definition record_fields (x : globals) (y : locals) : list (string * string) :=
  [ ("timed_out", if negb (timed_out x =? 0) then "true" else "false");
    ("status_type", dquote ++ status_type y ++ dquote);
    ("status_value", fmt_d (status y));
    ("user", fmt_d (TIMEVAL (ru_utime (ru y))));
    ("kernel", fmt_d (TIMEVAL (ru_stime (ru y))));
    ("real", fmt_d (int64 (TIMESPEC (end_time y) - TIMESPEC (start_time y))));
    ("max_mem", fmt_d (ru_maxrss (ru y)));
    ("major_page_faults", fmt_d (ru_majflt (ru y)));
    ("minor_page_faults", fmt_d (ru_minflt (ru y)));
    ("input_ops", fmt_d (ru_inblock (ru y)));
    ("output_ops", fmt_d (ru_oublock (ru y)));
    ("waits", fmt_d (ru_nvcsw (ru y)));
    ("preemptions", fmt_d (ru_nivcsw (ru y))) ].

(** What the calls of [DPRINTF] of lines 361 to 375 print, one string per
    call: every field but the last is followed by a comma. *)
Fixpoint field_pieces (fs : list (string * string)) : list string :=
  match fs with
  | [] => []
  | [(name, value)] => [field name value]
  | (name, value) :: fs => (field name value ++ ",") :: field_pieces fs
  end.

Definition record_close : string := "}" ++ newline.

Definition record_pieces (x : globals) (y : locals) : list string :=
  (["{"] ++ field_pieces (record_fields x y) ++ [record_close])%list.

(** [DPRINTF (fd, ...)]: a negative result of [dprintf] ends [main] with
    status 1. *)
Definition DPRINTF (text : string) (r : os_result) (next : label) (s : state)
  : state :=
  if ret r <? 0 then c_exit 1 (perror "dprintf" s)
  else goto next (write_out text s).

(** ** [main] as a transition system *)

(** [waitpid (pid, &status, WNOHANG)]: 0 while the child runs; a terminated
    child is reaped and its status stored; there is nothing to wait for
    otherwise. *)
Definition sys_waitpid (pid : Z) (s : state) : Z * state :=
  let '(res, s) :=
    if pid =? k_child_pid (k s) then
      match k_child (k s) with
      | Running => (0, s)
      | Zombie wstatus =>
          (pid, on_l (set_status wstatus) (on_k (set_child Reaped) s))
      | NoChild | Reaped => (-1, s)
      end
    else (-1, s) in
  (res, emit (SysWaitpid pid res) s).

(** The program executes the statement at its label; [r] is what the kernel
    answers. *)
Definition main_step (r : os_result) (s : state) : state :=
  match pc s with
  | L250 =>
      match main_parse (argv (l s)) with
      | Exit code => c_exit code s
      | Return (fd, parsed) =>
          let s := on_l (set_fd fd) s in
          let s := on_g (set_timeout_secs parsed) s in
          if (timeout_secs (g s) <? 1)
             || (timeout_secs (g s) >? MAX_TIMEOUT_SECS)
          then c_exit 2 s
          else goto L260 s
      end
  | L260 =>
      let errno := 0 in
      let errno := if k_open (k s) (fd (l s)) then errno else EBADF in
      if negb (errno =? 0) then c_exit errno (perror "wrapper" s)
      else goto L267 s
  | L267 =>
      let s := on_g (set_preserve_status true) s in
      let s := if negb (foreground (g s)) then emit (SysSetpgid 0 0) s else s in
      goto L278 s
  | L278 => goto L279 (install_cleanup (term_signal (g s)) s)
  | L279 => goto L280 (sys_signal SIGTTIN SIG_IGN s)
  | L280 => goto L281 (sys_signal SIGTTOU SIG_IGN s)
  | L281 => goto L284 (install_sigchld s)
  | L284 =>
      if ret r =? -1 then c_exit 1 (perror "clock_gettime" s)
      else goto L290 (on_l (set_start_time (ts r)) s)
  | L290 =>
      (* fork answers -1, 0 or the number of the child, never less *)
      if ret r <? -1 then s else
      let s := emit (SysFork (ret r)) s in
      let s := on_g (set_monitored_pid (ret r)) s in
      if monitored_pid (g s) =? -1
      then c_exit 2 (perror "fork system call failed" s)
      else if monitored_pid (g s) =? 0 then goto L296 s
      else
        let s :=
          on_k (fun x => set_child Running (set_child_pid (ret r) x)) s in
        goto L311 (on_l (set_status_type "unknown") s)
  | L296 => goto L297 (sys_signal SIGTTIN SIG_DFL s)
  | L297 => goto L299 (sys_signal SIGTTOU SIG_DFL s)
  | L299 =>
      let s := emit (SysClose (fd (l s))) s in
      goto L300 (on_k (fun x => set_open (update (k_open x) (fd (l s)) false) x) s)
  | L300 =>
      let s := emit (SysExec "/ATO/runner") s in
      if ret r =? -1 then goto L301 s else goto Execed s
  | L301 => c_exit 1 (perror "execlp" s)
  | L311 => goto L318 (unblock_signal SIGALRM s)
  | L318 =>
      let '(err, s) := sys_sigaction SIGUSR1 (SigHandler Husr1) s in
      let s := if err <? 0 then perror "sigaction" s else s in
      goto L323 s
  | L323 => goto L328 (settimeout true r s)
  | L328 => goto L330 (block_cleanup_and_chld (term_signal (g s)) s)
  | L330 =>
      let '(res, s) := sys_waitpid (monitored_pid (g s)) s in
      let s := on_l (set_wait_result res) s in
      if wait_result (l s) =? 0 then
        (* sigsuspend (&cleanup_set) *)
        let temp := Z.ldiff (cleanup_set (l s)) unblockable in
        goto L331 (on_k (fun x => set_mask temp (set_saved (k_mask x) x)) s)
      else goto L334 s
  | L331 => s
  | L334 => goto L336 (on_l (set_end_time (ts r)) s)
  | L336 => goto L355 (classify s)
  | L355 =>
      if ret r =? -1 then c_exit 1 (perror "getrusage" s)
      else goto (L361 0) (on_l (set_ru (usage r)) s)
  | L361 n =>
      match nth_error (record_pieces (g s) (l s)) n with
      | Some text =>
          DPRINTF text r
            (if Nat.eqb (S n) (List.length (record_pieces (g s) (l s)))
             then Exited 0 else L361 (S n)) s
      | None => s
      end
  | Exited _ | Killed _ | Execed => s
  end.

Definition live (p : label) : bool :=
  match p with
  | Exited _ | Killed _ | Execed => false
  | _ => true
  end.

(** The signals whose default action does not terminate the process. *)
Definition default_terminates (sig : Z) : bool :=
  negb (existsb (Z.eqb sig)
          [SIGCHLD; SIGCONT; SIGSTOP; SIGTSTP; SIGTTIN; SIGTTOU; SIGURG;
           SIGWINCH]).

Definition run_handler (h : handler) (sig sival_int : Z) (s : state) : state :=
  match h with
  | Hcleanup => cleanup sig s
  | Hchld => chld sig s
  | Husr1 => handle_usr1 sig sival_int s
  end.

(** A signal can be delivered: the process is there, the number is a
    signal's, and the signal is not blocked. *)
Definition deliverable (s : state) (sig : Z) : bool :=
  live (pc s) && valid_signal sig && negb (sigismember (k_mask (k s)) sig).

(** The kernel delivers signal [sig] with the value [sival_int] attached.  A
    blocked signal stays pending (nothing happens yet).  A handler runs to
    its end; when it interrupted sigsuspend, sigsuspend returns: the mask is
    restored and the loop of line 330 goes on. *)
Definition deliver (sig sival_int : Z) (s : state) : state :=
  if negb (deliverable s sig) then s
  else
    match k_disp (k s) sig with
    | SIG_IGN => s
    | SIG_DFL => if default_terminates sig then goto (Killed sig) s else s
    | SigHandler h =>
        let s' := run_handler h sig sival_int s in
        match pc s' with
        | L331 => goto L330 (on_k (fun x => set_mask (k_saved x) x) s')
        | _ => s'
        end
    end.

(** The child terminates by itself or by somebody else's signal. *)
Definition child_terminates (wstatus : Z) (s : state) : state :=
  match k_child (k s) with
  | Running => on_k (set_child (Zombie wstatus)) s
  | _ => s
  end.

Inductive event : Type :=
| Tick (r : os_result)
| Deliver (sig sival_int : Z)
| ChildExit (code : Z)
| ChildSignaled (sig : Z) (core : bool).

Definition step (e : event) (s : state) : state :=
  match e with
  | Tick r => main_step r s
  | Deliver sig sival_int => deliver sig sival_int s
  | ChildExit code => child_terminates (W_EXITCODE code) s
  | ChildSignaled sig core =>
      if valid_signal sig then child_terminates (W_SIGNALED sig core) s else s
  end.

Fixpoint run (es : list event) (s : state) : state :=
  match es with
  | [] => s
  | e :: es => run es (step e s)
  end.

(** What the process inherits from its caller. *)
Record environ : Type := {
  inherited_ignore : Z -> bool;
  inherited_mask : sigset;
  open_fds : Z -> bool
}.

Definition zero_time : timespec := {| ts_sec := 0; ts_nsec := 0 |}.
Definition zero_usage : rusage :=
  {| ru_utime := {| tv_sec := 0; tv_usec := 0 |};
     ru_stime := {| tv_sec := 0; tv_usec := 0 |};
     ru_maxrss := 0; ru_majflt := 0; ru_minflt := 0; ru_inblock := 0;
     ru_oublock := 0; ru_nvcsw := 0; ru_nivcsw := 0 |}.

(** The process at the entry of [main]: the static variables have their
    initialisers, the locals are not set yet. *)
Definition init (e : environ) (args : list string) : state :=
  {| pc := L250;
     g := {| timed_out := 0; term_signal := SIGKILL;
             timeout_secs := MAX_TIMEOUT_SECS; monitored_pid := 0;
             foreground := false; preserve_status := false |};
     l := {| argv := args; fd := 0; start_time := zero_time;
             end_time := zero_time; wait_result := 0; status := 0;
             status_type := EmptyString; ru := zero_usage; cleanup_set := 0 |};
     k := {| k_disp := fun sig =>
                         if inherited_ignore e sig && negb (sig =? SIGKILL)
                            && negb (sig =? SIGSTOP)
                         then SIG_IGN else SIG_DFL;
             k_mask := Z.ldiff (inherited_mask e) unblockable;
             k_saved := 0;
             k_child := NoChild;
             k_child_pid := 0;
             k_open := open_fds e |};
     out := EmptyString;
     log := [] |}.

(** The states the process can be in. *)
Definition reachable (e : environ) (args : list string) (s : state) : Prop :=
  exists es, s = run es (init e args).

(** * The vocabulary of the properties *)

(** ** The functions of the program in closed form *)

(** The value the loop of [parse_int] computes on digits [cs] from [value]:
    every multiplication and addition wraps. *)
Definition wrapped_value (cs : list Z) (value : Z) : Z :=
  fold_left (fun acc c => int32 (int32 (acc * 10) + (c - char_0))) cs value.

(** The table of dispositions after a call of [sigaction]. *)
Definition set_handler (sig : Z) (d : disposition) (disp : Z -> disposition)
  : Z -> disposition :=
  if valid_signal sig && negb (sig =? SIGKILL) && negb (sig =? SIGSTOP)
  then update disp sig d else disp.

Definition cleanup_disp (sigterm : Z) (disp : Z -> disposition)
  : Z -> disposition :=
  let sa := SigHandler Hcleanup in
  set_handler sigterm sa
    (set_handler SIGTERM sa
       (set_handler SIGHUP sa
          (set_handler SIGQUIT sa
             (set_handler SIGINT sa (set_handler SIGALRM sa disp))))).

(** What [kill (pid, sig)] makes of the child. *)
Definition kill_child (pid sig : Z) (x : kernel) : child_state :=
  if pid =? k_child_pid x then
    match k_child x with
    | Running =>
        if sig =? SIGKILL then Zombie (W_SIGNALED SIGKILL false) else Running
    | c => c
    end
  else k_child x.

(** The signal [cleanup] sends, and what it does to the static variables. *)
Definition resolved (sig : Z) (x : globals) : Z :=
  if sig =? SIGALRM then term_signal x else sig.
Definition note_timeout (sig : Z) (x : globals) : globals :=
  if sig =? SIGALRM then set_timed_out 1 x else x.

(** [sigsuspend] returns once a handler has run: the mask is restored and
    the loop goes on. *)
Definition wake (s : state) : state :=
  match pc s with
  | L331 => goto L330 (on_k (fun x => set_mask (k_saved x) x) s)
  | _ => s
  end.

(** The state after [kill (pid, sig)]. *)
Definition killed (pid sig : Z) (s : state) : state :=
  on_k (fun x => set_child (kill_child pid sig x) x)
    (emit (SysKill pid sig (k_child (k s))) s).

(** All that the delivery of a signal can do. *)
Inductive delivery (sig sival_int : Z) (s : state) : state -> Prop :=
| DeliverNothing : delivery sig sival_int s s
| DeliverDefault :
    deliverable s sig = true -> k_disp (k s) sig = SIG_DFL ->
    delivery sig sival_int s (goto (Killed sig) s)
| DeliverChld :
    deliverable s sig = true -> k_disp (k s) sig = SigHandler Hchld ->
    delivery sig sival_int s (wake s)
| DeliverCleanupExit :
    deliverable s sig = true -> k_disp (k s) sig = SigHandler Hcleanup ->
    monitored_pid (g s) = 0 ->
    delivery sig sival_int s
      (c_exit (128 + resolved sig (g s)) (on_g (note_timeout sig) s))
| DeliverCleanupKill :
    deliverable s sig = true -> k_disp (k s) sig = SigHandler Hcleanup ->
    monitored_pid (g s) <> 0 ->
    delivery sig sival_int s
      (wake (killed (monitored_pid (g s)) (resolved sig (g s))
               (on_g (note_timeout sig) s)))
| DeliverUsr1Abort :
    deliverable s sig = true -> k_disp (k s) sig = SigHandler Husr1 ->
    sig <> SIGUSR1 ->
    delivery sig sival_int s (goto (Killed 6) s)
| DeliverUsr1 :
    deliverable s sig = true -> k_disp (k s) sig = SigHandler Husr1 ->
    sig = SIGUSR1 ->
    delivery sig sival_int s (wake (killed (monitored_pid (g s)) sival_int s)).

(** The signals whose disposition a process can change. *)
Definition catchable (sig : Z) : bool :=
  valid_signal sig && negb (sig =? SIGKILL) && negb (sig =? SIGSTOP).

(** Where [main] goes from a label when the kernel answers [answer 0] and
    the child has been killed. *)
Definition next_label (p : label) : label :=
  match p with
  | L311 => L318
  | L318 => L323
  | L323 => L328
  | L328 => L330
  | L330 => L334
  | L334 => L336
  | L336 => L355
  | L355 => L361 0
  | L361 n => if Nat.eqb (S n) 15 then Exited 0 else L361 (S n)
  | p => p
  end.

(** ** The output record, as the specification describes it *)

Definition status_types : list string := ["unknown"; "exited"; "killed"; "core_dump"].

(** The text printed by the first [n] calls of [DPRINTF]. *)
Definition printed (n : nat) (x : globals) (y : locals) : string :=
  fold_right append EmptyString (firstn n (record_pieces x y)).

(** The whole record as it is printed. *)
Definition record_text (x : globals) (y : locals) : string :=
  fold_right append EmptyString (record_pieces x y).

(** The record as the specification describes it: one line, an opening
    brace, the fields as ["name":value] separated by commas, a closing
    brace, a newline. *)
Fixpoint join_fields (fs : list (string * string)) : string :=
  match fs with
  | [] => EmptyString
  | [(name, value)] => field name value
  | (name, value) :: fs => field name value ++ "," ++ join_fields fs
  end.

Definition json_line (fs : list (string * string)) : string :=
  "{" ++ join_fields fs ++ "}" ++ newline.

(** The names of the fields, in order. *)
Definition field_names : list string :=
  ["timed_out"; "status_type"; "status_value"; "user"; "kernel"; "real";
   "max_mem"; "major_page_faults"; "minor_page_faults"; "input_ops";
   "output_ops"; "waits"; "preemptions"].

(** Nanoseconds, as mathematical integers. *)
Definition timeval_ns (tv : timeval) : Z :=
  tv_sec tv * 1000000000 + tv_usec tv * 1000.
Definition timespec_ns (t : timespec) : Z :=
  ts_sec t * 1000000000 + ts_nsec t.

(** Times as the kernel reports them: seconds that fit 32 bits and a
    fraction of a second. *)
Definition timeval_ok (tv : timeval) : Prop :=
  0 <= tv_sec tv < 4294967296 /\ 0 <= tv_usec tv < 1000000.
Definition timespec_ok (t : timespec) : Prop :=
  0 <= ts_sec t < 4294967296 /\ 0 <= ts_nsec t < 1000000000.

Fixpoint count_char (c : ascii) (s : string) : nat :=
  match s with
  | EmptyString => 0
  | String a rest => (if Ascii.eqb a c then 1 else 0) + count_char c rest
  end.

Definition lines (s : string) : nat := count_char "010"%char s.

(** The value printed for a field. *)
Definition field_value (name : string) (fs : list (string * string)) : string :=
  match find (fun p => String.eqb (fst p) name) fs with
  | Some p => snd p
  | None => EmptyString
  end.

(** ** Invariants of the process *)

Definition cleanup_signals : list Z := [SIGALRM; SIGINT; SIGQUIT; SIGHUP; SIGTERM].

(** Every signal of [cleanup_signals] is in the set. *)
Definition blocked (m : sigset) : Prop :=
  forall sig, In sig cleanup_signals -> sigismember m sig = true.

Definition parent_facts (s : state) : Prop :=
  0 < monitored_pid (g s) /\
  k_child_pid (k s) = monitored_pid (g s) /\
  In (SysFork (monitored_pid (g s))) (log s).

Definition awaiting (s : state) : Prop :=
  k_child (k s) = Running \/ exists w, k_child (k s) = Zombie w.

Definition inv_static (s : state) : Prop :=
  term_signal (g s) = SIGKILL /\ foreground (g s) = false.

Definition inv_disp (s : state) : Prop :=
  forall sig h,
    k_disp (k s) sig = SigHandler h ->
    match h with
    | Hcleanup => In sig cleanup_signals
    | Hchld => sig = SIGCHLD
    | Husr1 => sig = SIGUSR1 /\ parent_facts s
    end.

Definition no_fork_yet (s : state) : Prop :=
  monitored_pid (g s) = 0 /\ k_child (k s) = NoChild /\ out s = EmptyString /\
  (forall sig, k_disp (k s) sig <> SigHandler Husr1) /\
  (forall r, ~ In (SysFork r) (log s)).

Definition inv_pc (s : state) : Prop :=
  match pc s with
  | L250 | L260 | L267 | L278 | L279 | L280 | L281 | L284 | L290 =>
      no_fork_yet s
  | L296 | L297 | L299 | L300 | L301 =>
      monitored_pid (g s) = 0 /\ out s = EmptyString /\ k_child (k s) = NoChild
  | L311 | L318 | L323 | L328 =>
      parent_facts s /\ out s = EmptyString /\ status_type (l s) = "unknown" /\
      awaiting s
  | L330 =>
      parent_facts s /\ out s = EmptyString /\ status_type (l s) = "unknown" /\
      awaiting s /\ blocked (k_mask (k s))
  | L331 =>
      parent_facts s /\ out s = EmptyString /\ status_type (l s) = "unknown" /\
      awaiting s /\ blocked (k_saved (k s))
  | L334 | L336 =>
      parent_facts s /\ out s = EmptyString /\ status_type (l s) = "unknown" /\
      k_child (k s) = Reaped /\ blocked (k_mask (k s)) /\
      0 < wait_result (l s)
  | L355 =>
      parent_facts s /\ out s = EmptyString /\ In (status_type (l s)) status_types /\
      k_child (k s) = Reaped /\ blocked (k_mask (k s))
  | L361 n =>
      parent_facts s /\ In (status_type (l s)) status_types /\
      k_child (k s) = Reaped /\ blocked (k_mask (k s)) /\
      (n < 15)%nat /\ out s = printed n (g s) (l s)
  | Exited code =>
      if code =? 0 then out s = printed 15 (g s) (l s) /\ In (status_type (l s)) status_types
      else exists n, out s = printed n (g s) (l s)
  | Killed _ | Execed => exists n, out s = printed n (g s) (l s)
  end.

Definition inv (s : state) : Prop := inv_static s /\ inv_disp s /\ inv_pc s.

(** [install_cleanup] registered [cleanup] for its five fixed signals, and
    nothing takes it away from them. *)
Definition installed (disp : Z -> disposition) : Prop :=
  forall sig, In sig cleanup_signals -> disp sig = SigHandler Hcleanup.

Definition inv_inst (s : state) : Prop :=
  match pc s with
  | L250 | L260 | L267 | L278 | Exited _ | Killed _ | Execed => True
  | _ => installed (k_disp (k s))
  end.

(** The warnings among the effects. *)
Definition warning (e : effect) : bool :=
  match e with
  | SysPerror _ => true
  | _ => false
  end.

(** The kernel answers without an error. *)
Definition succeeds (r : os_result) : Prop := 0 <= ret r.

(** What [classify] leaves in [status_type] and [status]. *)
Definition classified (s : state) (type : string) (value : Z) : Prop :=
  status_type (l (classify s)) = type /\ status (l (classify s)) = value.

(** Once the arguments are accepted the timeout is in its range. *)
Definition inv_timeout (s : state) : Prop :=
  match pc s with
  | L250 | Exited _ | Killed _ | Execed => True
  | _ => 1 <= timeout_secs (g s) <= MAX_TIMEOUT_SECS
  end.

(** After the timeout has killed the child: [timed_out] is set, and the
    wait status of the child, wherever it is by now, says SIGKILL. *)
Definition timed_out_inv (s : state) : Prop :=
  timed_out (g s) = 1 /\
  match pc s with
  | L311 | L318 | L323 | L328 | L330 | L331 =>
      k_child (k s) = Zombie (W_SIGNALED SIGKILL false)
  | L334 | L336 => status (l s) = W_SIGNALED SIGKILL false
  | L355 | L361 _ => status_type (l s) = "killed" /\ status (l s) = SIGKILL
  | Exited code =>
      code = 0 -> status_type (l s) = "killed" /\ status (l s) = SIGKILL
  | Killed _ | Execed => True
  | _ => False
  end.

(** SIGALRM is not in the set. *)
Definition alarm_open (m : sigset) : Prop := sigismember m SIGALRM = false.

(** From [unblock_signal (SIGALRM)] on, SIGALRM is blocked only by
    [block_cleanup_and_chld]: it is open in the mask saved in [cleanup_set],
    which is the mask inside [sigsuspend]. *)
Definition inv_alarm (s : state) : Prop :=
  match pc s with
  | L318 | L323 | L328 => alarm_open (k_mask (k s))
  | L330 => alarm_open (cleanup_set (l s))
  | L331 => alarm_open (k_mask (k s)) /\ alarm_open (cleanup_set (l s))
  | _ => True
  end.

(** ** Example environments, kernel answers and runs *)

Definition plain_environ : environ :=
  {| inherited_ignore := fun _ => false;
     inherited_mask := 0;
     open_fds := fun d => (0 <=? d) && (d <? 6) |}.

(** A kernel answer that reports success and returns [n]. *)
Definition answer (n : Z) : os_result :=
  {| ret := n; err := 0; ret2 := 0; err2 := 0;
     ts := {| ts_sec := 100; ts_nsec := 500 |}; usage := zero_usage |}.

(** timer_create succeeds, timer_settime fails with ENOSYS. *)
Definition arming_unsupported : os_result :=
  {| ret := 0; err := 0; ret2 := -1; err2 := ENOSYS;
     ts := zero_time; usage := zero_usage |}.

Definition ticks (n : nat) : list event := repeat (Tick (answer 0)) n.

(** The start of a run with descriptor 5 and a timeout of 10 seconds: the
    arguments and the descriptor are accepted, the handlers installed,
    [fork] answers 1234. *)
Definition until_fork : list event := (ticks 8 ++ [Tick (answer 1234)])%list.

(** ... and the parent goes on until it waits in [sigsuspend]. *)
Definition until_suspended : list event := (until_fork ++ ticks 5)%list.

Definition example_args : list string := ["wrapper"; "5"; "10"].

Definition suspended : state := run until_suspended (init plain_environ example_args).

Definition reaped_exit3 : state :=
  run (until_suspended ++ [ChildExit 3; Deliver SIGCHLD 0] ++ ticks 2)
    (init plain_environ example_args).

(** The run of the child when [execlp] fails. *)
Definition exec_fails : list event :=
  (ticks 8 ++ [Tick (answer 0)] ++ ticks 3 ++ [Tick (answer (-1)); Tick (answer 0)])%list.

(** The run of the parent when the child ends with exit status 1. *)
Definition child_exits_1 : list event :=
  (until_suspended ++ [ChildExit 1; Deliver SIGCHLD 0] ++ ticks 19)%list.

(** The child ends, the loop reaps it, and then SIGUSR1 arrives with
    SIGTERM attached. *)
Definition usr1_after_reap : list event :=
  (until_suspended ++ [ChildExit 0; Deliver SIGCHLD 0; Tick (answer 0)]
   ++ [Deliver SIGUSR1 SIGTERM])%list.

Definition normal_exit : state := run child_exits_1 (init plain_environ example_args).

Definition alarm_arg : Z := 0.

(** ** Decimal numerals *)

(** The characters of the digits of a decimal numeral. *)
Fixpoint digits (d : Decimal.uint) : list Z :=
  match d with
  | Decimal.Nil => []
  | Decimal.D0 d => 48 :: digits d
  | Decimal.D1 d => 49 :: digits d
  | Decimal.D2 d => 50 :: digits d
  | Decimal.D3 d => 51 :: digits d
  | Decimal.D4 d => 52 :: digits d
  | Decimal.D5 d => 53 :: digits d
  | Decimal.D6 d => 54 :: digits d
  | Decimal.D7 d => 55 :: digits d
  | Decimal.D8 d => 56 :: digits d
  | Decimal.D9 d => 57 :: digits d
  end.

(** ** The arguments [main] accepts *)

(** Three arguments, the last two valid numbers, and the timeout, as the
    [int] that [parse_int] makes of it, between 1 and [MAX_TIMEOUT_SECS]. *)
Definition accepted (args : list string) : bool :=
  Nat.eqb (List.length args) 3
  && valid_number (c_str (nth 1 args EmptyString))
  && valid_number (c_str (nth 2 args EmptyString))
  && (1 <=? int32 (decimal_value (c_str (nth 2 args EmptyString))))
  && (int32 (decimal_value (c_str (nth 2 args EmptyString)))
      <=? MAX_TIMEOUT_SECS).

(** No handler is installed. *)
Definition no_handlers (disp : Z -> disposition) : Prop :=
  forall sig h, disp sig <> SigHandler h.

(** The statuses [main] and [cleanup] end the process with. *)
Definition exit_statuses : list Z := [0; 1; 2; EBADF].
Definition cleanup_statuses : list Z :=
  map (fun sig => 128 + sig) [SIGHUP; SIGINT; SIGQUIT; SIGKILL; SIGTERM].

(** ** Further invariants of the process *)

(** SIGCHLD is not in the set. *)
Definition chld_open (m : sigset) : Prop := sigismember m SIGCHLD = false.

(** [install_sigchld] made [chld] the handler of SIGCHLD and unblocked the
    signal.  From then on SIGCHLD is blocked only by
    [block_cleanup_and_chld]: inside [sigsuspend] it is open, and the mask
    that [sigsuspend] restores blocks it again. *)
Definition inv_chld (s : state) : Prop :=
  match pc s with
  | L284 | L290 | L311 | L318 | L323 | L328 =>
      k_disp (k s) SIGCHLD = SigHandler Hchld /\ chld_open (k_mask (k s))
  | L330 =>
      k_disp (k s) SIGCHLD = SigHandler Hchld /\
      sigismember (k_mask (k s)) SIGCHLD = true /\
      chld_open (cleanup_set (l s))
  | L331 =>
      k_disp (k s) SIGCHLD = SigHandler Hchld /\
      chld_open (k_mask (k s)) /\ chld_open (cleanup_set (l s)) /\
      sigismember (k_saved (k s)) SIGCHLD = true
  | _ => True
  end.

(** The calls of [waitpid] that reaped a child. *)
Definition is_reap (x : effect) : bool :=
  match x with
  | SysWaitpid _ r => 0 <? r
  | _ => false
  end.

(** How many there were. *)
Definition reaps (lg : list effect) : nat := List.length (filter is_reap lg).

Definition is_reaped (c : child_state) : bool :=
  match c with
  | Reaped => true
  | _ => false
  end.

(** The child is reaped by one call of [waitpid], and the record is written
    after it. *)
Definition inv_reap (s : state) : Prop :=
  reaps (log s) = (if is_reaped (k_child (k s)) then 1 else 0)%nat /\
  (out s = EmptyString \/ k_child (k s) = Reaped).

(** What the record says of a wait status: the outcome of lines 336 to
    353 on a status that [waitpid] stored. *)
Definition reported (w : Z) : string * Z :=
  if WIFEXITED w then ("exited", WEXITSTATUS w)
  else if WIFSIGNALED w
       then (if WCOREDUMP w then "core_dump" else "killed", WTERMSIG w)
       else ("unknown", -1).

(** After the child has terminated with wait status [w]: the status is with
    the zombie, then in [status], then classified. *)
Definition status_inv (w : Z) (s : state) : Prop :=
  match pc s with
  | L311 | L318 | L323 | L328 | L330 | L331 => k_child (k s) = Zombie w
  | L334 | L336 => status (l s) = w
  | L355 | L361 _ => (status_type (l s), status (l s)) = reported w
  | Exited code =>
      code = 0 -> (status_type (l s), status (l s)) = reported w
  | Killed _ | Execed => True
  | _ => False
  end.

(** [timed_out] is set by the timeout only: the process left through
    [cleanup], or it sent the termination signal to its child. *)
Definition inv_timed_out (s : state) : Prop :=
  timed_out (g s) = 0 \/
  (timed_out (g s) = 1 /\
   (pc s = Exited (128 + SIGKILL) \/
    (0 < monitored_pid (g s) /\
     exists target,
       In (SysKill (monitored_pid (g s)) SIGKILL target) (log s)))).

(** The child on its way to [execlp]: the two terminal signals are back
    at their default, then the descriptor of the record is closed. *)
Definition inv_child_side (s : state) : Prop :=
  match pc s with
  | L297 => k_disp (k s) SIGTTIN = SIG_DFL
  | L299 =>
      k_disp (k s) SIGTTIN = SIG_DFL /\ k_disp (k s) SIGTTOU = SIG_DFL
  | L300 =>
      k_disp (k s) SIGTTIN = SIG_DFL /\ k_disp (k s) SIGTTOU = SIG_DFL /\
      k_open (k s) (fd (l s)) = false
  | Execed =>
      k_disp (k s) SIGTTIN = SIG_DFL /\ k_disp (k s) SIGTTOU = SIG_DFL /\
      k_open (k s) (fd (l s)) = false /\
      out s = EmptyString /\ monitored_pid (g s) = 0 /\
      In (SysExec "/ATO/runner") (log s)
  | _ => True
  end.

(** A call of [settimeout] starts with [timer_create]. *)
Definition is_timer_create (x : effect) : bool :=
  match x with
  | SysTimerCreate => true
  | _ => false
  end.

(** How many calls of [settimeout] there were. *)
Definition settimeout_calls (lg : list effect) : nat :=
  List.length (filter is_timer_create lg).

(** The seconds an effect asks the kernel to wait before SIGALRM, if it
    does. *)
Definition deadline (x : effect) : option Z :=
  match x with
  | SysTimerSettime n | SysAlarm n => Some n
  | _ => None
  end.

(** The labels of [main] before the call of [settimeout]. *)
Definition before_settimeout (p : label) : bool :=
  match p with
  | L250 | L260 | L267 | L278 | L279 | L280 | L281 | L284 | L290
  | L296 | L297 | L299 | L300 | L301 | L311 | L318 | L323 => true
  | _ => false
  end.

(** [settimeout] is called once at most, by the parent and with the
    timeout of the command line; nothing else sets a deadline. *)
Definition inv_deadline (s : state) : Prop :=
  (settimeout_calls (log s) <= 1)%nat /\
  (before_settimeout (pc s) = true -> settimeout_calls (log s) = 0%nat) /\
  (settimeout_calls (log s) = 0%nat ->
   forall x, In x (log s) -> deadline x = None) /\
  (settimeout_calls (log s) = 1%nat ->
   0 < monitored_pid (g s) /\
   In (SysFork (monitored_pid (g s))) (log s) /\
   1 <= timeout_secs (g s) <= MAX_TIMEOUT_SECS /\
   forall x n, In x (log s) -> deadline x = Some n -> n = timeout_secs (g s)).

(** Every [kill] so far went to the child that [fork] returned. *)
Definition inv_kill (s : state) : Prop :=
  forall pid sig target,
    In (SysKill pid sig target) (log s) ->
    pid = monitored_pid (g s) /\ 0 < pid /\ In (SysFork pid) (log s).

(** The signals [block_cleanup_and_chld] asks the kernel to block. *)
Definition block_list (sigterm : Z) : list Z :=
  [SIGALRM; SIGINT; SIGQUIT; SIGHUP; SIGTERM; sigterm; SIGCHLD].

(** The parent ignores the two terminal signals from lines 279 and 280 on,
    and handles SIGCHLD from line 281 on. *)
Definition inv_tty (s : state) : Prop :=
  match pc s with
  | L280 => k_disp (k s) SIGTTIN = SIG_IGN
  | L281 =>
      k_disp (k s) SIGTTIN = SIG_IGN /\ k_disp (k s) SIGTTOU = SIG_IGN
  | L284 | L290 | L311 | L318 | L323 | L328 | L330 | L331 | L334 | L336
  | L355 | L361 _ =>
      k_disp (k s) SIGTTIN = SIG_IGN /\ k_disp (k s) SIGTTOU = SIG_IGN /\
      k_disp (k s) SIGCHLD = SigHandler Hchld
  | _ => True
  end.

(** The signals a supervisor with a child outlives. *)
Definition outlived_signals : list Z :=
  (cleanup_signals ++ [SIGCHLD; SIGTTIN; SIGTTOU])%list.

(** [main] has returned 0. *)
Definition returned_0 (p : label) : bool :=
  match p with
  | Exited code => code =? 0
  | _ => false
  end.

(** The message [main] gives [perror] before it returns a status that says
    failure. *)
Definition diagnostics : list (Z * string) :=
  [ (EBADF, "wrapper"); (1, "clock_gettime"); (2, "fork system call failed");
    (1, "execlp"); (1, "getrusage"); (1, "dprintf") ].

(** Nothing has happened before the arguments are read, and a status that
    says failure comes with its message, but for the status 2 of the
    arguments. *)
Definition inv_diagnostic (s : state) : Prop :=
  (pc s = L250 -> log s = []) /\
  forall code,
    pc s = Exited code ->
    code = 0 \/ In code cleanup_statuses \/ (code = 2 /\ log s = []) \/
    exists lg msg,
      log s = (lg ++ [SysPerror msg])%list /\ In (code, msg) diagnostics.

(** Effect [a] comes before effect [b] in the log. *)
Definition precedes (a b : effect) (lg : list effect) : Prop :=
  exists l1 l2, lg = (l1 ++ a :: l2)%list /\ In b l2.

(** Every [fork] comes after the [setpgid]. *)
Definition in_own_group (lg : list effect) : Prop :=
  forall r, In (SysFork r) lg -> precedes (SysSetpgid 0 0) (SysFork r) lg.

(** The process is in its own group before it forks. *)
Definition inv_group (s : state) : Prop :=
  match pc s with
  | L250 | L260 | L267 => forall r, ~ In (SysFork r) (log s)
  | L278 | L279 | L280 | L281 | L284 | L290 =>
      In (SysSetpgid 0 0) (log s) /\ forall r, ~ In (SysFork r) (log s)
  | _ => in_own_group (log s)
  end.

(** ** The way from the start to [sigsuspend] *)

(** The supervisor at label [p] before [fork], with the arguments read and
    the descriptor open, and [lg] its effects so far. *)
Definition before_fork (d t : Z) (p : label) (lg : list effect) (s : state)
  : Prop :=
  pc s = p /\ fd (l s) = d /\ timeout_secs (g s) = t /\
  foreground (g s) = false /\ term_signal (g s) = SIGKILL /\
  k_open (k s) d = true /\ out s = EmptyString /\ log s = lg.

(** The parent at label [p] after [fork] has returned [pid], while the
    child runs. *)
Definition after_fork (d t pid : Z) (p : label) (lg : list effect)
           (s : state) : Prop :=
  pc s = p /\ fd (l s) = d /\ timeout_secs (g s) = t /\
  term_signal (g s) = SIGKILL /\ monitored_pid (g s) = pid /\
  k_child (k s) = Running /\ k_child_pid (k s) = pid /\
  out s = EmptyString /\ log s = lg.

(** The statements before [fork] and after it, with the label that follows
    and the effects of the statement when the kernel answers [answer 0]. *)
Definition path_before_fork : list (label * label * list effect) :=
  [ (L260, L267, []); (L267, L278, [SysSetpgid 0 0]); (L278, L279, []);
    (L279, L280, []); (L280, L281, []); (L281, L284, []); (L284, L290, []) ].

Definition path_after_fork (t pid : Z) : list (label * label * list effect) :=
  [ (L311, L318, []); (L318, L323, []);
    (L323, L328, [SysTimerCreate; SysTimerSettime t]); (L328, L330, []);
    (L330, L331, [SysWaitpid pid 0]) ].

(** * Properties *)

(** ** Machine integers *)

Lemma int32_small (x : Z) : INT_MIN <= x <= INT_MAX -> int32 x = x.
Proof.
  intros H. unfold int32, wrap, INT_MIN, INT_MAX in *.
  change (2 ^ (32 - 1)) with 2147483648. change (2 ^ 32) with 4294967296.
  rewrite Z.mod_small; lia.
Qed.

Lemma int64_small (x : Z) :
  - 9223372036854775808 <= x <= 9223372036854775807 -> int64 x = x.
Proof.
  intros H. unfold int64, wrap.
  change (2 ^ (64 - 1)) with 9223372036854775808.
  change (2 ^ 64) with 18446744073709551616.
  rewrite Z.mod_small; lia.
Qed.

(** ** [parse_int] *)

Lemma is_digit_test (ch : Z) :
  (ch <? char_0) || (ch >? char_9) = negb (is_digit ch).
Proof. unfold is_digit, char_0, char_9. lia. Qed.

Lemma parse_int_loop_spec (s : string) :
  forall value,
    parse_int_loop s value =
    if forallb is_digit (c_str s)
    then Return (wrapped_value (c_str s) value) else Exit 2.
Proof.
  induction s as [|c rest IH]; intros value; simpl.
  - reflexivity.
  - destruct (c_char c =? 0) eqn:Hnul; simpl.
    + reflexivity.
    + rewrite is_digit_test. destruct (is_digit (c_char c)); simpl.
      * apply IH.
      * reflexivity.
Qed.

Lemma c_head_c_str (s : string) : c_head s = hd 0 (c_str s).
Proof.
  destruct s as [|c rest]; simpl; [reflexivity|].
  destruct (c_char c =? 0) eqn:E; simpl; lia.
Qed.

(** [parse_int] accepts exactly the valid strings, and answers every other
    one with [exit (2)]. *)
Lemma parse_int_spec (s : string) :
  parse_int s =
  if valid_number (c_str s)
  then Return (wrapped_value (c_str s) 0) else Exit 2.
Proof.
  unfold parse_int. rewrite c_head_c_str, parse_int_loop_spec.
  unfold valid_number. destruct (c_str s) as [|c cs] eqn:E.
  - reflexivity.
  - cbn [hd]. destruct (c <? char_1) eqn:H1.
    + replace (char_1 <=? c) with false by lia. reflexivity.
    + replace (char_1 <=? c) with true by lia. reflexivity.
Qed.

Lemma decimal_value_snoc (cs : list Z) (c : Z) :
  decimal_value (cs ++ [c]) = decimal_value cs * 10 + (c - char_0).
Proof. unfold decimal_value. rewrite fold_left_app. reflexivity. Qed.

Lemma wrapped_value_snoc (cs : list Z) (c v : Z) :
  wrapped_value (cs ++ [c]) v =
  int32 (int32 (wrapped_value cs v * 10) + (c - char_0)).
Proof. unfold wrapped_value. rewrite fold_left_app. reflexivity. Qed.

Lemma decimal_value_nonneg (cs : list Z) :
  forallb is_digit cs = true -> 0 <= decimal_value cs.
Proof.
  induction cs as [|c cs IH] using rev_ind; intros H.
  - unfold decimal_value; simpl; lia.
  - rewrite forallb_app in H. apply andb_prop in H as [Hcs Hc].
    simpl in Hc. rewrite andb_true_r in Hc.
    rewrite decimal_value_snoc. specialize (IH Hcs).
    unfold is_digit, char_0, char_9 in *. lia.
Qed.

(** Without overflow the loop computes the number the digits denote. *)
Lemma wrapped_value_exact (cs : list Z) :
  forallb is_digit cs = true ->
  decimal_value cs <= INT_MAX ->
  wrapped_value cs 0 = decimal_value cs.
Proof.
  induction cs as [|c cs IH] using rev_ind; intros Hd Hmax.
  - reflexivity.
  - rewrite forallb_app in Hd. apply andb_prop in Hd as [Hcs Hc].
    simpl in Hc. rewrite andb_true_r in Hc.
    rewrite decimal_value_snoc in *. rewrite wrapped_value_snoc.
    pose proof (decimal_value_nonneg cs Hcs) as Hpos.
    assert (0 <= c - char_0 <= 9)
      by (unfold is_digit, char_0, char_9 in *; lia).
    rewrite IH by (assumption || lia).
    unfold INT_MAX in *.
    rewrite (int32_small (decimal_value cs * 10))
      by (unfold INT_MIN, INT_MAX; lia).
    apply int32_small. unfold INT_MIN, INT_MAX. lia.
Qed.

Lemma decimal_value_from (cs : list Z) :
  forall acc,
    forallb is_digit cs = true -> 1 <= acc ->
    1 <= fold_left (fun acc c => acc * 10 + (c - char_0)) cs acc.
Proof.
  induction cs as [|c cs IH]; intros acc Hd Hacc; simpl in *.
  - assumption.
  - apply andb_prop in Hd as [Hc Hcs]. apply IH; [assumption|].
    unfold is_digit, char_0, char_9 in Hc. unfold char_0. lia.
Qed.

(** A valid string denotes a number that is at least 1. *)
Lemma valid_number_positive (cs : list Z) :
  valid_number cs = true -> 1 <= decimal_value cs.
Proof.
  destruct cs as [|c cs]; simpl; [discriminate|].
  intros H. apply andb_prop in H as [H1 H]. apply andb_prop in H as [Hc Hcs].
  unfold decimal_value. simpl. apply decimal_value_from; [assumption|].
  unfold char_1, char_0 in *. lia.
Qed.

(** On a string whose number fits an [int], [parse_int] returns that number,
    which is at least 1. *)
Lemma parse_int_exact (s : string) :
  valid_number (c_str s) = true ->
  decimal_value (c_str s) <= INT_MAX ->
  parse_int s = Return (decimal_value (c_str s)) /\
  1 <= decimal_value (c_str s).
Proof.
  intros Hv Hmax. rewrite parse_int_spec, Hv. split.
  - f_equal. apply wrapped_value_exact; [|assumption].
    destruct (c_str s); [discriminate|].
    simpl in Hv. apply andb_prop in Hv as [_ Hv]. exact Hv.
  - apply valid_number_positive. assumption.
Qed.

(** ** Signal sets *)

Lemma blocked_after_block (m : sigset) :
  blocked (mask_block m (block_set SIGKILL)).
Proof.
  intros sig Hsig. unfold sigismember, mask_block.
  rewrite Z.ldiff_spec, Z.lor_spec.
  simpl in Hsig.
  repeat (destruct Hsig as [<-|Hsig];
          [vm_compute valid_signal; cbn [andb];
           match goal with
           | |- context [Z.testbit (block_set _) ?n] =>
               replace (Z.testbit (block_set SIGKILL) n) with true
                 by (vm_compute; reflexivity)
           end;
           rewrite orb_true_r; vm_compute; reflexivity|]).
  contradiction.
Qed.

Lemma inv_init (e : environ) (args : list string) : inv (init e args).
Proof.
  split; [|split].
  - split; reflexivity.
  - intros sig h H. simpl in H.
    destruct (inherited_ignore e sig && negb (sig =? SIGKILL) && negb (sig =? SIGSTOP));
      discriminate.
  - repeat split; simpl; try tauto.
    intros sig H.
    destruct (inherited_ignore e sig && negb (sig =? SIGKILL) && negb (sig =? SIGSTOP));
      discriminate.
Qed.

Arguments record_pieces : simpl never.
Arguments printed : simpl never.
Arguments sigismember : simpl never.
Arguments mask_block : simpl never.
Arguments mask_unblock : simpl never.
Arguments block_set : simpl never.
Arguments sigaddset : simpl never.
Arguments valid_signal : simpl never.
Arguments Z.ldiff : simpl never.
Arguments Z.eqb : simpl never.
Arguments Z.ltb : simpl never.
Arguments default_terminates : simpl never.
Arguments main_args : simpl never.
Arguments main_parse : simpl never.
Arguments WIFEXITED : simpl never.
Arguments WIFSIGNALED : simpl never.
Arguments WCOREDUMP : simpl never.
Arguments WEXITSTATUS : simpl never.
Arguments WTERMSIG : simpl never.
Arguments W_SIGNALED : simpl never.
Arguments W_EXITCODE : simpl never.

(** ** The functions that configure signals, in closed form *)

Lemma on_k_id (s : state) (f : kernel -> kernel) :
  f (k s) = k s -> on_k f s = s.
Proof. destruct s as [p gs ls ks o lg]. unfold on_k. simpl. intros ->. reflexivity. Qed.

Lemma set_disp_id (x : kernel) : set_disp (k_disp x) x = x.
Proof. destruct x. reflexivity. Qed.

Lemma sys_sigaction_eq (sig : Z) (d : disposition) (s : state) :
  snd (sys_sigaction sig d s) =
  on_k (fun x => set_disp (set_handler sig d (k_disp x)) x) s.
Proof.
  unfold sys_sigaction, set_handler.
  destruct (valid_signal sig && negb (sig =? SIGKILL) && negb (sig =? SIGSTOP)).
  - reflexivity.
  - simpl. symmetry. apply on_k_id, set_disp_id.
Qed.

Lemma sys_signal_eq (sig : Z) (d : disposition) (s : state) :
  sys_signal sig d s =
  on_k (fun x => set_disp (set_handler sig d (k_disp x)) x) s.
Proof. apply sys_sigaction_eq. Qed.

Lemma install_cleanup_eq (sigterm : Z) (s : state) :
  install_cleanup sigterm s =
  on_k (fun x => set_disp (cleanup_disp sigterm (k_disp x)) x) s.
Proof.
  unfold install_cleanup. cbv zeta. rewrite !sys_sigaction_eq. reflexivity.
Qed.

Lemma unblock_signal_eq (sig : Z) (s : state) :
  unblock_signal sig s =
  on_k (fun x => set_mask (mask_unblock (k_mask x) (sigaddset sigemptyset sig)) x) s.
Proof. reflexivity. Qed.

Lemma install_sigchld_eq (s : state) :
  install_sigchld s =
  on_k (fun x =>
          set_mask (mask_unblock (k_mask x) (sigaddset sigemptyset SIGCHLD))
            (set_disp (set_handler SIGCHLD (SigHandler Hchld) (k_disp x)) x)) s.
Proof.
  unfold install_sigchld. rewrite sys_sigaction_eq, unblock_signal_eq.
  reflexivity.
Qed.

Lemma block_cleanup_and_chld_eq (sigterm : Z) (s : state) :
  block_cleanup_and_chld sigterm s =
  on_l (set_cleanup_set (k_mask (k s)))
    (on_k (set_mask (mask_block (k_mask (k s)) (block_set sigterm))) s).
Proof. reflexivity. Qed.

(** A handler in the new table is the one just installed, or was there. *)
Lemma set_handler_cases (sig : Z) (d : disposition) (disp : Z -> disposition)
      (x : Z) :
  set_handler sig d disp x = disp x \/
  (x = sig /\ set_handler sig d disp x = d /\ sig <> SIGKILL).
Proof.
  unfold set_handler, update.
  destruct (valid_signal sig && negb (sig =? SIGKILL) && negb (sig =? SIGSTOP)) eqn:E;
    [|left; reflexivity].
  destruct (x =? sig) eqn:Ex.
  - right. repeat split; [lia|]. intros ->. vm_compute in E. discriminate.
  - left. reflexivity.
Qed.

Lemma cleanup_disp_cases (disp : Z -> disposition) (x : Z) :
  cleanup_disp SIGKILL disp x = disp x \/
  (In x cleanup_signals /\ cleanup_disp SIGKILL disp x = SigHandler Hcleanup).
Proof.
  unfold cleanup_disp. cbv zeta.
  change (set_handler SIGKILL (SigHandler Hcleanup) ?f) with f.
  destruct (set_handler_cases SIGTERM (SigHandler Hcleanup)
    (set_handler SIGHUP (SigHandler Hcleanup)
       (set_handler SIGQUIT (SigHandler Hcleanup)
          (set_handler SIGINT (SigHandler Hcleanup)
             (set_handler SIGALRM (SigHandler Hcleanup) disp)))) x)
    as [->|(-> & Hd & _)]; [|right; split; [simpl; tauto|exact Hd]].
  destruct (set_handler_cases SIGHUP (SigHandler Hcleanup)
       (set_handler SIGQUIT (SigHandler Hcleanup)
          (set_handler SIGINT (SigHandler Hcleanup)
             (set_handler SIGALRM (SigHandler Hcleanup) disp))) x)
    as [->|(-> & Hd & _)]; [|right; split; [simpl; tauto|exact Hd]].
  destruct (set_handler_cases SIGQUIT (SigHandler Hcleanup)
          (set_handler SIGINT (SigHandler Hcleanup)
             (set_handler SIGALRM (SigHandler Hcleanup) disp)) x)
    as [->|(-> & Hd & _)]; [|right; split; [simpl; tauto|exact Hd]].
  destruct (set_handler_cases SIGINT (SigHandler Hcleanup)
             (set_handler SIGALRM (SigHandler Hcleanup) disp) x)
    as [->|(-> & Hd & _)]; [|right; split; [simpl; tauto|exact Hd]].
  destruct (set_handler_cases SIGALRM (SigHandler Hcleanup) disp x)
    as [->|(-> & Hd & _)]; [|right; split; [simpl; tauto|exact Hd]].
  left. reflexivity.
Qed.

Lemma on_g_id (s : state) (f : globals -> globals) :
  f (g s) = g s -> on_g f s = s.
Proof. destruct s. unfold on_g. simpl. intros ->. reflexivity. Qed.

Lemma set_child_id (x : kernel) : set_child (k_child x) x = x.
Proof. destruct x. reflexivity. Qed.

Lemma sys_kill_eq (pid sig : Z) (s : state) :
  sys_kill pid sig s =
  on_k (fun x => set_child (kill_child pid sig x) x)
    (emit (SysKill pid sig (k_child (k s))) s).
Proof.
  destruct s as [p gs ls [d m sv c cp o] ot lg].
  unfold sys_kill, kill_child, on_k, emit, set_child. cbn.
  destruct (pid =? cp); [|reflexivity].
  destruct c; try reflexivity. destruct (sig =? SIGKILL); reflexivity.
Qed.

(** [cleanup] never takes the branch of [send_sig] that ignores the signal:
    it sends to [monitored_pid], which is not 0 there. *)
Lemma cleanup_eq (sig : Z) (s : state) :
  cleanup sig s =
  if monitored_pid (g s) =? 0
  then c_exit (128 + resolved sig (g s)) (on_g (note_timeout sig) s)
  else sys_kill (monitored_pid (g s)) (resolved sig (g s))
         (on_g (note_timeout sig) s).
Proof.
  unfold cleanup, resolved, note_timeout, send_sig.
  destruct (sig =? SIGALRM); cbn;
    destruct (monitored_pid (g s) =? 0) eqn:E; cbn;
    try rewrite (on_g_id s (fun x => x)) by reflexivity; reflexivity.
Qed.

Lemma note_timeout_frame (sig : Z) (x : globals) :
  term_signal (note_timeout sig x) = term_signal x /\
  timeout_secs (note_timeout sig x) = timeout_secs x /\
  monitored_pid (note_timeout sig x) = monitored_pid x /\
  foreground (note_timeout sig x) = foreground x /\
  preserve_status (note_timeout sig x) = preserve_status x.
Proof. unfold note_timeout. destruct (sig =? SIGALRM); repeat split. Qed.

Lemma note_timeout_pid (sig : Z) (x : globals) :
  monitored_pid (note_timeout sig x) = monitored_pid x.
Proof. apply note_timeout_frame. Qed.
Lemma note_timeout_term (sig : Z) (x : globals) :
  term_signal (note_timeout sig x) = term_signal x.
Proof. apply note_timeout_frame. Qed.
Lemma note_timeout_fg (sig : Z) (x : globals) :
  foreground (note_timeout sig x) = foreground x.
Proof. apply note_timeout_frame. Qed.

Lemma sys_sigaction_pair (sig : Z) (d : disposition) (s : state) :
  sys_sigaction sig d s =
  (fst (sys_sigaction sig d s),
   on_k (fun x => set_disp (set_handler sig d (k_disp x)) x) s).
Proof. rewrite <- sys_sigaction_eq. destruct (sys_sigaction sig d s); reflexivity. Qed.

Ltac break_match :=
  match goal with
  | |- context [match ?x with _ => _ end] =>
      lazymatch x with
      | context [match _ with _ => _ end] => fail
      | _ => destruct x eqn:?
      end
  end.

Lemma deliver_cases (sig sival_int : Z) (s : state) :
  delivery sig sival_int s (deliver sig sival_int s).
Proof.
  unfold deliver.
  destruct (deliverable s sig) eqn:Hd; cbn [negb]; [|constructor].
  destruct (k_disp (k s) sig) as [| |[| |]] eqn:Hk.
  - destruct (default_terminates sig); [|constructor].
    apply DeliverDefault; assumption.
  - constructor.
  - cbn [run_handler]. rewrite cleanup_eq.
    destruct (monitored_pid (g s) =? 0) eqn:Hp.
    + cbn. apply DeliverCleanupExit; auto. lia.
    + rewrite sys_kill_eq. apply DeliverCleanupKill; auto. lia.
  - cbn [run_handler]. unfold chld. apply DeliverChld; assumption.
  - cbn [run_handler]. unfold handle_usr1.
    destruct (sig =? SIGUSR1) eqn:Hs; cbn [negb].
    + rewrite sys_kill_eq. apply DeliverUsr1; auto. lia.
    + cbn. apply DeliverUsr1Abort; auto. lia.
Qed.

Lemma wake_g (s : state) : g (wake s) = g s.
Proof. unfold wake. destruct (pc s); reflexivity. Qed.
Lemma wake_l (s : state) : l (wake s) = l s.
Proof. unfold wake. destruct (pc s); reflexivity. Qed.
Lemma wake_out (s : state) : out (wake s) = out s.
Proof. unfold wake. destruct (pc s); reflexivity. Qed.
Lemma wake_log (s : state) : log (wake s) = log s.
Proof. unfold wake. destruct (pc s); reflexivity. Qed.
Lemma wake_disp (s : state) : k_disp (k (wake s)) = k_disp (k s).
Proof. unfold wake. destruct (pc s); reflexivity. Qed.
Lemma wake_child (s : state) : k_child (k (wake s)) = k_child (k s).
Proof. unfold wake. destruct (pc s); reflexivity. Qed.
Lemma wake_child_pid (s : state) : k_child_pid (k (wake s)) = k_child_pid (k s).
Proof. unfold wake. destruct (pc s); reflexivity. Qed.

Lemma kill_child_awaiting (pid sig : Z) (x : kernel) :
  k_child x = Running \/ (exists w, k_child x = Zombie w) ->
  kill_child pid sig x = Running \/ (exists w, kill_child pid sig x = Zombie w).
Proof.
  unfold kill_child. intros [H|[w H]]; rewrite H.
  - destruct (pid =? k_child_pid x); [|left; reflexivity].
    destruct (sig =? SIGKILL); [right; eexists; reflexivity|left; reflexivity].
  - right. exists w. destruct (pid =? k_child_pid x); reflexivity.
Qed.

Lemma kill_child_reaped (pid sig : Z) (x : kernel) :
  k_child x = Reaped -> kill_child pid sig x = Reaped.
Proof.
  unfold kill_child. intros H. rewrite H.
  destruct (pid =? k_child_pid x); reflexivity.
Qed.

Lemma printed_0 (x : globals) (y : locals) : printed 0 x y = EmptyString.
Proof. reflexivity. Qed.

Lemma inv_pc_prefix (s : state) :
  inv_pc s -> exists n, out s = printed n (g s) (l s).
Proof.
  unfold inv_pc, no_fork_yet. intros H.
  destruct (pc s); try (exists 0%nat; rewrite printed_0; tauto); try assumption.
  - exists n. tauto.
  - destruct (code =? 0); [exists 15%nat; tauto|assumption].
Qed.

(** A signal that [cleanup] handles cannot be delivered while the set of
    [block_cleanup_and_chld] is blocked. *)
Lemma blocked_not_deliverable (s : state) (sig : Z) :
  inv_disp s -> blocked (k_mask (k s)) ->
  deliverable s sig = true -> k_disp (k s) sig = SigHandler Hcleanup -> False.
Proof.
  intros Hd Hb Hdel Hk. apply Hd in Hk. apply Hb in Hk.
  unfold deliverable in Hdel. rewrite Hk in Hdel.
  rewrite andb_false_r in Hdel. discriminate.
Qed.

Lemma resolved_positive (s : state) (sig : Z) :
  inv_static s -> deliverable s sig = true -> 0 < resolved sig (g s).
Proof.
  intros [Ht _] Hd. unfold resolved. rewrite Ht.
  destruct (sig =? SIGALRM); [reflexivity|].
  unfold deliverable, valid_signal in Hd. lia.
Qed.

Lemma kill_child_none (pid sig : Z) (x : kernel) :
  k_child x = NoChild -> kill_child pid sig x = NoChild.
Proof.
  unfold kill_child. intros H. rewrite H.
  destruct (pid =? k_child_pid x); reflexivity.
Qed.

Lemma not_in_snoc {A : Type} (x y : A) (xs : list A) :
  ~ In x xs -> x <> y -> ~ In x (xs ++ [y]).
Proof.
  intros H1 H2 H. apply in_app_or in H as [H|[H|[]]]; [tauto|congruence].
Qed.

Lemma in_snoc {A : Type} (x y : A) (xs : list A) :
  In x xs -> In x (xs ++ [y]).
Proof. intros H. apply in_or_app. left. exact H. Qed.

Create HintDb inv.
#[local] Hint Resolve in_snoc kill_child_awaiting kill_child_reaped
  kill_child_none : inv.

Ltac pc_cases s Hp :=
  unfold inv_pc in Hp |- *; cbn [pc goto on_g on_l on_k emit write_out];
  destruct (pc s) eqn:?; cbn in Hp |- *.

Lemma inv_pc_wake (s : state) : inv_pc s -> inv_pc (wake s).
Proof.
  intros Hp. unfold wake. destruct (pc s) eqn:Hpc; try exact Hp.
  unfold inv_pc in *. rewrite Hpc in Hp. cbn. exact Hp.
Qed.

Ltac not_forked :=
  match goal with
  | H : In (SysFork _) (_ ++ [_]) |- False =>
      apply in_app_or in H as [H|[H|[]]]; [eauto|discriminate]
  end.

Lemma inv_pc_killed (pid sig : Z) (s : state) :
  inv_pc s -> inv_pc (killed pid sig s).
Proof.
  intros Hp. unfold killed. pc_cases s Hp;
    unfold no_fork_yet, parent_facts, awaiting in *; cbn;
    try solve [intuition (auto with inv)].
  all: intuition (auto with inv); not_forked.
Qed.

(** Outside the region where its signals are blocked, [cleanup] may note
    the timeout: nothing is printed yet. *)
Lemma inv_pc_note_timeout (sig : Z) (s : state) :
  inv_pc s -> live (pc s) = true -> ~ blocked (k_mask (k s)) ->
  inv_pc (on_g (note_timeout sig) s).
Proof.
  intros Hp Hl Hb. pc_cases s Hp;
    unfold no_fork_yet, parent_facts, awaiting in *; cbn;
    rewrite ?note_timeout_pid; try discriminate; try tauto.
Qed.

Lemma inv_pc_exit (code : Z) (s : state) :
  code <> 0 -> (exists n, out s = printed n (g s) (l s)) ->
  inv_pc (c_exit code s).
Proof.
  intros Hc Hn. unfold inv_pc, c_exit. cbn [pc goto g l out].
  destruct (code =? 0) eqn:E; [lia|exact Hn].
Qed.

Lemma inv_pc_dead (p : label) (s : state) :
  live p = false -> (forall c, p <> Exited c) -> inv_pc s -> inv_pc (goto p s).
Proof.
  intros Hl Hc Hp. apply inv_pc_prefix in Hp. unfold inv_pc. cbn [pc goto g l out].
  destruct p; try discriminate; try exact Hp. exfalso. eapply Hc. reflexivity.
Qed.

Lemma inv_pc_deliver (sig sival_int : Z) (s : state) :
  inv s -> inv_pc (deliver sig sival_int s).
Proof.
  intros (Hs & Hd & Hp).
  destruct (deliver_cases sig sival_int s)
    as [ | Hdel Hk | Hdel Hk | Hdel Hk Hpid | Hdel Hk Hpid | Hdel Hk Hne
       | Hdel Hk He ].
  - exact Hp.
  - apply inv_pc_dead; [reflexivity|discriminate|exact Hp].
  - apply inv_pc_wake. exact Hp.
  - assert (Hn : inv_pc (on_g (note_timeout sig) s)).
    { apply inv_pc_note_timeout; auto.
      - unfold deliverable in Hdel. destruct (live (pc s)); [reflexivity|discriminate].
      - intros Hb. eapply blocked_not_deliverable; eauto. }
    pose proof (resolved_positive s sig Hs Hdel).
    apply inv_pc_exit; [lia|]. apply inv_pc_prefix. exact Hn.
  - apply inv_pc_wake, inv_pc_killed, inv_pc_note_timeout; auto.
    + unfold deliverable in Hdel. destruct (live (pc s)); [reflexivity|discriminate].
    + intros Hb. eapply blocked_not_deliverable; eauto.
  - apply inv_pc_dead; [reflexivity|discriminate|exact Hp].
  - apply inv_pc_wake, inv_pc_killed. exact Hp.
Qed.

Lemma inv_disp_frame (s s' : state) :
  inv_disp s ->
  k_disp (k s') = k_disp (k s) ->
  monitored_pid (g s') = monitored_pid (g s) ->
  k_child_pid (k s') = k_child_pid (k s) ->
  (forall e, In e (log s) -> In e (log s')) ->
  inv_disp s'.
Proof.
  intros Hd H1 H2 H3 H4 sig h Hk. rewrite H1 in Hk. apply Hd in Hk.
  destruct h; auto. unfold parent_facts in *. rewrite H2, H3. intuition.
Qed.

Lemma inv_disp_deliver (sig sival_int : Z) (s : state) :
  inv_disp s -> inv_disp (deliver sig sival_int s).
Proof.
  intros Hd.
  destruct (deliver_cases sig sival_int s); try exact Hd;
    apply (inv_disp_frame s); try exact Hd; unfold killed;
    rewrite ?wake_disp, ?wake_g, ?wake_child_pid, ?wake_log; cbn;
    rewrite ?note_timeout_pid; auto with inv.
Qed.

Lemma inv_static_deliver (sig sival_int : Z) (s : state) :
  inv_static s -> inv_static (deliver sig sival_int s).
Proof.
  unfold inv_static. intros Hs.
  destruct (deliver_cases sig sival_int s); try exact Hs; unfold killed;
    rewrite ?wake_g; cbn; rewrite ?note_timeout_term, ?note_timeout_fg;
    exact Hs.
Qed.

Ltac main_cases s :=
  unfold main_step; destruct (pc s) eqn:Hpc;
  rewrite ?install_cleanup_eq, ?install_sigchld_eq, ?unblock_signal_eq,
    ?block_cleanup_and_chld_eq, ?sys_signal_eq;
  try rewrite sys_sigaction_pair;
  unfold settimeout, classify, sys_waitpid, DPRINTF, c_exit, perror.

Ltac break_all := repeat (break_match; cbn [fst snd]).

Lemma inv_static_main_step (r : os_result) (s : state) :
  inv_static s -> inv_static (main_step r s).
Proof.
  unfold inv_static. intros Hs. main_cases s; break_all; cbn; exact Hs.
Qed.

Lemma inv_disp_set_handler (s s' : state) (sig : Z) (d : disposition) :
  inv_disp s ->
  k_disp (k s') = set_handler sig d (k_disp (k s)) ->
  monitored_pid (g s') = monitored_pid (g s) ->
  k_child_pid (k s') = k_child_pid (k s) ->
  (forall e, In e (log s) -> In e (log s')) ->
  match d with
  | SigHandler Hcleanup => In sig cleanup_signals
  | SigHandler Hchld => sig = SIGCHLD
  | SigHandler Husr1 => sig = SIGUSR1 /\ parent_facts s
  | _ => True
  end ->
  inv_disp s'.
Proof.
  intros Hd H1 H2 H3 H4 Hnew x h Hk. rewrite H1 in Hk.
  assert (Hpf : parent_facts s -> parent_facts s').
  { unfold parent_facts. rewrite H2, H3. intuition. }
  destruct (set_handler_cases sig d (k_disp (k s)) x) as [E|(-> & E & _)];
    rewrite E in Hk.
  - apply Hd in Hk. destruct h; intuition.
  - subst d. destruct h; intuition.
Qed.

Lemma inv_disp_cleanup_disp (s s' : state) :
  inv_disp s ->
  k_disp (k s') = cleanup_disp SIGKILL (k_disp (k s)) ->
  monitored_pid (g s') = monitored_pid (g s) ->
  k_child_pid (k s') = k_child_pid (k s) ->
  (forall e, In e (log s) -> In e (log s')) ->
  inv_disp s'.
Proof.
  intros Hd H1 H2 H3 H4 x h Hk. rewrite H1 in Hk.
  destruct (cleanup_disp_cases (k_disp (k s)) x) as [E|[Hin E]];
    rewrite E in Hk.
  - apply Hd in Hk. destruct h; auto.
    unfold parent_facts in *. rewrite H2, H3. intuition.
  - injection Hk as <-. exact Hin.
Qed.

Lemma inv_disp_main_step (r : os_result) (s : state) :
  inv s -> inv_disp (main_step r s).
Proof.
  intros (Hs & Hd & Hp). main_cases s; break_all.
  all: try (apply (inv_disp_frame s); try exact Hd; cbn;
            auto 10 with inv; fail).
  all: try (eapply (inv_disp_set_handler s); try exact Hd; try reflexivity;
            cbn; auto with inv; fail).
  all: try (destruct Hs as [Ht _]; rewrite Ht;
            eapply (inv_disp_cleanup_disp s); try exact Hd; try reflexivity;
            cbn; auto; fail).
  all: try (eapply (inv_disp_set_handler s); try exact Hd; try reflexivity;
            cbn; auto with inv; split; [reflexivity|];
            unfold inv_pc in Hp; rewrite Hpc in Hp; tauto).
  all: unfold inv_pc in Hp; rewrite Hpc in Hp;
    destruct Hp as (_ & _ & _ & Hno & _);
    intros x h Hk; cbn in Hk; pose proof (Hd x h Hk) as Hh;
    destruct h; auto; exfalso; eapply Hno; eassumption.
Qed.

Lemma main_parse_exit (args : list string) (code : Z) :
  main_parse args = Exit code -> code = 2.
Proof.
  unfold main_parse.
  destruct (negb (Z.of_nat (List.length args) =? 3)); [congruence|].
  rewrite !parse_int_spec.
  destruct (valid_number (c_str (nth 1 args EmptyString))); cbn; [|congruence].
  destruct (valid_number (c_str (nth 2 args EmptyString))); cbn; congruence.
Qed.

Lemma set_handler_not_usr1 (sig : Z) (d : disposition) (disp : Z -> disposition) :
  d <> SigHandler Husr1 ->
  (forall x, disp x <> SigHandler Husr1) ->
  forall x, set_handler sig d disp x <> SigHandler Husr1.
Proof.
  intros Hd Hno x. destruct (set_handler_cases sig d disp x) as [->|(_ & -> & _)]; auto.
Qed.

Lemma cleanup_disp_not_usr1 (sigterm : Z) (disp : Z -> disposition) :
  (forall x, disp x <> SigHandler Husr1) ->
  forall x, cleanup_disp sigterm disp x <> SigHandler Husr1.
Proof.
  intros Hno. unfold cleanup_disp. cbv zeta.
  repeat (apply set_handler_not_usr1; [discriminate|]). exact Hno.
Qed.

Lemma append_assoc (a b c : string) : (a ++ b) ++ c = a ++ (b ++ c).
Proof. induction a as [|ch a IH]; simpl; [reflexivity|]. rewrite IH. reflexivity. Qed.

Lemma append_nil_r (a : string) : a ++ EmptyString = a.
Proof. induction a as [|ch a IH]; simpl; [reflexivity|]. rewrite IH. reflexivity. Qed.

Lemma cat_firstn_S (xs : list string) :
  forall n t,
    nth_error xs n = Some t ->
    fold_right append EmptyString (firstn (S n) xs) =
    fold_right append EmptyString (firstn n xs) ++ t.
Proof.
  induction xs as [|x xs IH]; intros [|n] t H; simpl in H; try discriminate.
  - injection H as <-. simpl. apply append_nil_r.
  - change (firstn (S (S n)) (x :: xs)) with (x :: firstn (S n) xs).
    change (firstn (S n) (x :: xs)) with (x :: firstn n xs).
    cbn [fold_right]. rewrite (IH n t H). symmetry. apply append_assoc.
Qed.

Lemma record_pieces_length (x : globals) (y : locals) :
  List.length (record_pieces x y) = 15%nat.
Proof. reflexivity. Qed.

Lemma printed_S (n : nat) (x : globals) (y : locals) (t : string) :
  nth_error (record_pieces x y) n = Some t ->
  printed (S n) x y = printed n x y ++ t.
Proof. apply cat_firstn_S. Qed.

Ltac absurd_test :=
  match goal with
  | H : (_ =? _) = _ |- _ => vm_compute in H; discriminate
  | H : (_ <? _) = _ |- _ => vm_compute in H; discriminate
  | H : negb (_ =? _) = _ |- _ => vm_compute in H; discriminate
  end.

Ltac exit_prefix :=
  match goal with
  | |- if ?c =? 0 then _ else _ =>
      replace (c =? 0) with false by (vm_compute; reflexivity);
      exists 0%nat; rewrite printed_0; tauto
  end.

Lemma inv_pc_main_step (r : os_result) (s : state) :
  inv s -> inv_pc (main_step r s).
Proof.
  intros (Hs & Hd & Hp). unfold inv_pc in Hp. main_cases s;
    rewrite ?record_pieces_length; break_all.
  all: try absurd_test.
  all: unfold inv_pc; cbn [pc goto]; rewrite ?Hpc.
  all: unfold no_fork_yet, parent_facts, awaiting in *; cbn - [Z.add].
  all: try (intuition (auto with inv); fail).
  all: try exit_prefix.
  all: try (intuition (auto 10 with inv); try not_forked;
            try (eapply set_handler_not_usr1; eauto; discriminate);
            try (eapply cleanup_disp_not_usr1; eauto); fail).
  all: try match goal with
           | H : main_parse _ = Exit _ |- _ =>
               apply main_parse_exit in H; subst; exit_prefix
           end.
  all: try (exists 0%nat; rewrite printed_0; tauto).
  all: repeat match goal with
              | H : context [g (on_g _ _)] |- _ => cbn in H
              | H : context [l (on_l _ _)] |- _ => cbn in H
              end.
  all: try (destruct Hs as [Ht _]; rewrite Ht;
            pose proof (blocked_after_block (k_mask (k s)));
            intuition; fail).
  all: try (intuition (auto with inv; try lia);
            apply in_or_app; right; left; reflexivity).
  all: try (exfalso; destruct Hp as ((? & ? & ?) & ? & ? & [?|[? ?]] & ?);
            (congruence || lia)).
  all: destruct Hp as (Hpf & Hst & Hr & Hb & Hn & Ho).
  - replace (1 =? 0) with false by reflexivity. exists n. exact Ho.
  - replace (0 =? 0) with true by reflexivity. split; [|exact Hst].
    apply Nat.eqb_eq in Heqb0. injection Heqb0 as <-.
    rewrite (printed_S _ _ _ _ Heqo), Ho. reflexivity.
  - apply Nat.eqb_neq in Heqb0.
    rewrite (printed_S _ _ _ _ Heqo), Ho. repeat split; auto; try tauto. lia.
Qed.

Lemma inv_child_terminates (w : Z) (s : state) :
  inv s -> inv (child_terminates w s).
Proof.
  intros (Hs & Hd & Hp). unfold child_terminates.
  destruct (k_child (k s)) eqn:Hc; try exact (conj Hs (conj Hd Hp)).
  split; [exact Hs|split].
  - apply (inv_disp_frame s); auto.
  - pc_cases s Hp; unfold no_fork_yet, parent_facts, awaiting in *; cbn;
      try (intuition (eauto with inv); congruence).
Qed.

(** The invariant holds in every state the process can reach. *)
Lemma inv_step (e : event) (s : state) : inv s -> inv (step e s).
Proof.
  intros H. destruct e as [r|sig v|code|sig core]; cbn [step].
  - split; [|split].
    + apply inv_static_main_step, H.
    + apply inv_disp_main_step, H.
    + apply inv_pc_main_step, H.
  - split; [|split].
    + apply inv_static_deliver, H.
    + apply inv_disp_deliver, H.
    + apply inv_pc_deliver, H.
  - apply inv_child_terminates, H.
  - destruct (valid_signal sig); [apply inv_child_terminates|]; exact H.
Qed.

Lemma inv_run (es : list event) : forall s, inv s -> inv (run es s).
Proof.
  induction es as [|e es IH]; intros s H; simpl; [exact H|].
  apply IH, inv_step, H.
Qed.

Lemma inv_reachable (e : environ) (args : list string) (s : state) :
  reachable e args s -> inv s.
Proof. intros [es ->]. apply inv_run, inv_init. Qed.

Lemma installed_cleanup_disp (disp : Z -> disposition) :
  installed (cleanup_disp SIGKILL disp).
Proof.
  intros sig H. simpl in H.
  repeat (destruct H as [<-|H]; [reflexivity|]). contradiction.
Qed.

Lemma installed_set_handler (sig : Z) (d : disposition) (disp : Z -> disposition) :
  ~ In sig cleanup_signals -> installed disp ->
  installed (set_handler sig d disp).
Proof.
  intros Hn Hi x Hx.
  destruct (set_handler_cases sig d disp x) as [->|(-> & _ & _)]; auto.
  contradiction.
Qed.

Lemma other_signals :
  ~ In SIGTTIN cleanup_signals /\ ~ In SIGTTOU cleanup_signals /\
  ~ In SIGCHLD cleanup_signals /\ ~ In SIGUSR1 cleanup_signals.
Proof.
  repeat split; intros H; simpl in H;
    repeat (destruct H as [H|H]; [discriminate|]); contradiction.
Qed.

Lemma inv_inst_wake (s : state) : inv_inst s -> inv_inst (wake s).
Proof.
  intros H. unfold wake. destruct (pc s) eqn:Hpc; try exact H.
  unfold inv_inst in *. rewrite Hpc in H. exact H.
Qed.

Lemma inv_inst_frame (s s' : state) :
  inv_inst s -> pc s' = pc s -> k_disp (k s') = k_disp (k s) -> inv_inst s'.
Proof. unfold inv_inst. intros H -> ->. exact H. Qed.

Lemma inv_inst_step (e : event) (s : state) :
  inv_static s -> inv_inst s -> inv_inst (step e s).
Proof.
  intros [Ht _] H. destruct e as [r|sig v|code|sig core]; cbn [step].
  - unfold inv_inst in H. main_cases s; rewrite ?Ht; break_all;
      unfold inv_inst; cbn; rewrite ?Hpc; auto;
      try apply installed_cleanup_disp;
      apply installed_set_handler; auto; apply other_signals.
  - destruct (deliver_cases sig v s); try exact H; try exact I;
      apply inv_inst_wake; unfold killed;
      (eapply inv_inst_frame; [exact H|reflexivity|reflexivity]).
  - unfold child_terminates. destruct (k_child (k s)); exact H.
  - unfold child_terminates.
    destruct (valid_signal sig); [destruct (k_child (k s))|]; exact H.
Qed.

Lemma inv_inst_run (es : list event) :
  forall s, inv s -> inv_inst s -> inv_inst (run es s).
Proof.
  induction es as [|e es IH]; intros s Hi H; simpl; [exact H|].
  apply IH; [apply inv_step, Hi|apply inv_inst_step; [apply Hi|exact H]].
Qed.

Lemma inv_inst_reachable (e : environ) (args : list string) (s : state) :
  reachable e args s -> inv_inst s.
Proof. intros [es ->]. apply inv_inst_run; [apply inv_init|exact I]. Qed.

(** ** The deadline timer *)

(** C9 as stated fails: when timer_create succeeds and timer_settime fails
    with ENOSYS ("unsupported"), [settimeout] still prints the warning
    "warning: timer_settime" before it falls back to [alarm]. *)
Lemma settimeout_warns_unsupported_arming :
  let r := arming_unsupported in
  let s := init plain_environ ["wrapper"; "5"; "10"] in
  (ret r = 0 /\ ret2 r <> 0 /\ err2 r = ENOSYS) /\
  log (settimeout true r s) =
  [SysTimerCreate; SysTimerSettime 60; SysPerror "warning: timer_settime";
   SysTimerDelete; SysAlarm 60].
Proof. repeat split. discriminate. Qed.

(** C9, amended: whenever creating or arming the high-resolution timer
    fails, [settimeout] ends by arming [alarm] with [timeout_secs] seconds
    and returns with the program otherwise unchanged; it prints a warning
    exactly when warnings are asked for and either the arming failed
    (whatever the reason) or the creation failed for a reason other than
    ENOSYS. *)
Theorem settimeout_falls_back (warn : bool) (r : os_result) (s : state) :
  ret r <> 0 \/ ret2 r <> 0 ->
  let s' := settimeout warn r s in
  (exists es,
      log s' = (log s ++ es ++ [SysAlarm (timeout_secs (g s))])%list /\
      (existsb warning es = true <->
       warn = true /\ (ret r = 0 \/ err r <> ENOSYS))) /\
  pc s' = pc s /\ g s' = g s /\ l s' = l s /\ k s' = k s /\ out s' = out s.
Proof.
  intros Hfail. unfold settimeout. cbv zeta.
  destruct (ret r =? 0) eqn:Hc.
  - destruct (ret2 r =? 0) eqn:Ha; [lia|].
    destruct warn; cbn.
    + split; [|repeat split].
      exists [SysTimerCreate; SysTimerSettime (timeout_secs (g s));
              SysPerror "warning: timer_settime"; SysTimerDelete].
      split; [rewrite <- !app_assoc; reflexivity|].
      cbn. split; [intros _; split; [reflexivity|left; lia]|reflexivity].
    + split; [|repeat split].
      exists [SysTimerCreate; SysTimerSettime (timeout_secs (g s));
              SysTimerDelete].
      split; [rewrite <- !app_assoc; reflexivity|].
      cbn. split; [discriminate|intros [? _]; discriminate].
  - destruct (warn && negb (err r =? ENOSYS)) eqn:Hw; cbn.
    + split; [|repeat split].
      exists [SysTimerCreate; SysPerror "warning: timer_create"].
      split; [rewrite <- !app_assoc; reflexivity|].
      cbn. apply andb_prop in Hw as [-> Hw].
      split; [intros _; split; [reflexivity|right; lia]|reflexivity].
    + split; [|repeat split].
      exists [SysTimerCreate].
      split; [rewrite <- !app_assoc; reflexivity|].
      cbn. split; [discriminate|]. intros [-> [H|H]]; [lia|].
      cbn in Hw. lia.
Qed.

Lemma settimeout_falls_back_witness :
  let warn := true in
  let r := arming_unsupported in
  let s := init plain_environ ["wrapper"; "5"; "10"] in
  (ret r <> 0 \/ ret2 r <> 0) /\
  let s' := settimeout warn r s in
  (exists es,
      log s' = (log s ++ es ++ [SysAlarm (timeout_secs (g s))])%list /\
      (existsb warning es = true <->
       warn = true /\ (ret r = 0 \/ err r <> ENOSYS))) /\
  pc s' = pc s /\ g s' = g s /\ l s' = l s /\ k s' = k s /\ out s' = out s.
Proof.
  cbv zeta. split; [right; discriminate|].
  apply (settimeout_falls_back true arming_unsupported
           (init plain_environ ["wrapper"; "5"; "10"])).
  right. discriminate.
Defined.

(** ** The handlers *)

Lemma deliver_cleanup_eq (sig sival_int : Z) (s : state) :
  deliverable s sig = true ->
  k_disp (k s) sig = SigHandler Hcleanup ->
  deliver sig sival_int s =
  if monitored_pid (g s) =? 0
  then c_exit (128 + resolved sig (g s)) (on_g (note_timeout sig) s)
  else wake (killed (monitored_pid (g s)) (resolved sig (g s))
               (on_g (note_timeout sig) s)).
Proof.
  intros Hdel Hk. unfold deliver. rewrite Hdel, Hk. cbn [negb run_handler].
  rewrite cleanup_eq. destruct (monitored_pid (g s) =? 0); [reflexivity|].
  rewrite sys_kill_eq. reflexivity.
Qed.

Lemma deliver_usr1_eq (sival_int : Z) (s : state) :
  deliverable s SIGUSR1 = true ->
  k_disp (k s) SIGUSR1 = SigHandler Husr1 ->
  deliver SIGUSR1 sival_int s =
  wake (killed (monitored_pid (g s)) sival_int s).
Proof.
  intros Hdel Hk. unfold deliver. rewrite Hdel, Hk. cbn [negb run_handler].
  unfold handle_usr1. change (SIGUSR1 =? SIGUSR1) with true. cbn [negb].
  rewrite sys_kill_eq. reflexivity.
Qed.

Lemma deliverable_live (s : state) (sig : Z) :
  deliverable s sig = true -> live (pc s) = true.
Proof.
  unfold deliverable. destruct (live (pc s)); [reflexivity|discriminate].
Qed.

Lemma wake_live (s : state) : live (pc s) = true -> live (pc (wake s)) = true.
Proof.
  intros H. unfold wake. destruct (pc s) eqn:E; cbn; rewrite ?E; auto.
Qed.

Lemma set_handler_iff (a : Z) (d : disposition) (f : Z -> disposition) (x : Z) :
  set_handler a d f x = d <-> (x = a /\ catchable a = true) \/ f x = d.
Proof.
  unfold set_handler, update, catchable.
  destruct (valid_signal a && negb (a =? SIGKILL) && negb (a =? SIGSTOP)).
  - destruct (x =? a) eqn:E.
    + split; [intros _; left; split; [lia|reflexivity]|reflexivity].
    + split; [intros H; right; exact H|intros [[H _]|H]; [lia|exact H]].
  - split; [intros H; right; exact H|intros [[_ H]|H]; [discriminate|exact H]].
Qed.

(** The signals [install_cleanup] registers [cleanup] for. *)
Lemma install_cleanup_registers (sigterm : Z) (s : state) (x : Z) :
  k_disp (k (install_cleanup sigterm s)) x = SigHandler Hcleanup <->
  (In x [SIGALRM; SIGINT; SIGQUIT; SIGHUP; SIGTERM; sigterm] /\
   catchable x = true) \/
  k_disp (k s) x = SigHandler Hcleanup.
Proof.
  rewrite install_cleanup_eq. cbn [k on_k k_disp set_disp].
  unfold cleanup_disp. cbv zeta. rewrite !set_handler_iff. cbn [In].
  assert (Hc : forall a, x = a -> catchable a = true -> catchable x = true)
    by (intros a ->; auto).
  intuition (subst; auto).
Qed.

(** C4: [install_cleanup] registers [cleanup] for SIGALRM, SIGINT, SIGQUIT,
    SIGHUP, SIGTERM and the termination signal (where the kernel lets a
    handler be set).  An invocation of this handler does the following: for
    SIGALRM it sets [timed_out] and resolves the signal to [term_signal];
    then, if [monitored_pid] is set, it sends the resolved signal to that
    process (and does nothing else: the process goes on, no disposition
    changes); otherwise the process ends at once with status 128 plus the
    resolved signal. *)
Theorem cleanup_handler_behaviour (sig sival_int : Z) (s : state) :
  deliverable s sig = true ->
  k_disp (k s) sig = SigHandler Hcleanup ->
  let resolved_sig := if sig =? SIGALRM then term_signal (g s) else sig in
  let s' := deliver sig sival_int s in
  timed_out (g s') = (if sig =? SIGALRM then 1 else timed_out (g s)) /\
  (monitored_pid (g s) <> 0 ->
   log s' =
   (log s ++ [SysKill (monitored_pid (g s)) resolved_sig (k_child (k s))])%list /\
   live (pc s') = true /\ k_disp (k s') = k_disp (k s)) /\
  (monitored_pid (g s) = 0 ->
   pc s' = Exited (128 + resolved_sig) /\ log s' = log s) /\
  (forall sigterm s0 x,
      k_disp (k (install_cleanup sigterm s0)) x = SigHandler Hcleanup <->
      (In x [SIGALRM; SIGINT; SIGQUIT; SIGHUP; SIGTERM; sigterm] /\
       catchable x = true) \/
      k_disp (k s0) x = SigHandler Hcleanup).
Proof.
  intros Hdel Hk. cbv zeta.
  rewrite <- and_assoc, <- and_assoc. split;
    [rewrite !and_assoc|exact install_cleanup_registers].
  rewrite (deliver_cleanup_eq _ _ _ Hdel Hk).
  pose proof (deliverable_live _ _ Hdel) as Hlive. unfold resolved.
  destruct (monitored_pid (g s) =? 0) eqn:Hp.
  - cbn. split; [|split].
    + unfold note_timeout. destruct (sig =? SIGALRM); reflexivity.
    + intros H. lia.
    + intros _. split; reflexivity.
  - rewrite wake_g, wake_log, wake_disp. cbn.
    split; [|split].
    + unfold note_timeout. destruct (sig =? SIGALRM); reflexivity.
    + intros _. split; [reflexivity|split; [|reflexivity]].
      apply wake_live. exact Hlive.
    + intros H. lia.
Qed.

Lemma suspended_pc : pc suspended = L331.
Proof. reflexivity. Qed.

Lemma cleanup_handler_behaviour_witness :
  let sig := SIGINT in
  let sival_int := 0 in
  let s := suspended in
  deliverable s sig = true /\
  k_disp (k s) sig = SigHandler Hcleanup /\
  let resolved_sig := if sig =? SIGALRM then term_signal (g s) else sig in
  let s' := deliver sig sival_int s in
  timed_out (g s') = (if sig =? SIGALRM then 1 else timed_out (g s)) /\
  (monitored_pid (g s) <> 0 ->
   log s' =
   (log s ++ [SysKill (monitored_pid (g s)) resolved_sig (k_child (k s))])%list /\
   live (pc s') = true /\ k_disp (k s') = k_disp (k s)) /\
  (monitored_pid (g s) = 0 ->
   pc s' = Exited (128 + resolved_sig) /\ log s' = log s) /\
  (forall sigterm s0 x,
      k_disp (k (install_cleanup sigterm s0)) x = SigHandler Hcleanup <->
      (In x [SIGALRM; SIGINT; SIGQUIT; SIGHUP; SIGTERM; sigterm] /\
       catchable x = true) \/
      k_disp (k s0) x = SigHandler Hcleanup).
Proof.
  cbv zeta. split; [reflexivity|split; [reflexivity|]].
  apply (cleanup_handler_behaviour SIGINT 0 suspended); reflexivity.
Defined.

(** C8: when SIGUSR1 is delivered with an integer attached, [handle_usr1]
    sends exactly that integer as a signal to [monitored_pid], whatever
    [timed_out] is and without touching it; and in every state the process
    can reach in which this handler is installed, [monitored_pid] holds the
    positive number that [fork] returned to the parent. *)
Theorem usr1_forwards_payload (e : environ) (args : list string)
        (sival_int : Z) (s : state) :
  reachable e args s ->
  k_disp (k s) SIGUSR1 = SigHandler Husr1 ->
  (0 < monitored_pid (g s) /\ In (SysFork (monitored_pid (g s))) (log s)) /\
  (deliverable s SIGUSR1 = true ->
   let s' := deliver SIGUSR1 sival_int s in
   log s' =
   (log s ++ [SysKill (monitored_pid (g s)) sival_int (k_child (k s))])%list /\
   g s' = g s).
Proof.
  intros Hr Hk. apply inv_reachable in Hr as (_ & Hd & _).
  apply Hd in Hk as Hu. destruct Hu as (_ & Hpos & _ & Hfork).
  split; [split; assumption|].
  intros Hdel. cbv zeta. rewrite (deliver_usr1_eq _ _ Hdel Hk).
  rewrite wake_log, wake_g. split; reflexivity.
Qed.

Lemma usr1_forwards_payload_witness :
  let e := plain_environ in
  let args := example_args in
  let sival_int := SIGTERM in
  let s := suspended in
  reachable e args s /\
  k_disp (k s) SIGUSR1 = SigHandler Husr1 /\
  (0 < monitored_pid (g s) /\ In (SysFork (monitored_pid (g s))) (log s)) /\
  (deliverable s SIGUSR1 = true ->
   let s' := deliver SIGUSR1 sival_int s in
   log s' =
   (log s ++ [SysKill (monitored_pid (g s)) sival_int (k_child (k s))])%list /\
   g s' = g s).
Proof.
  cbv zeta.
  assert (Hr : reachable plain_environ example_args suspended)
    by (exists until_suspended; reflexivity).
  split; [exact Hr|split; [reflexivity|]].
  apply (usr1_forwards_payload plain_environ example_args SIGTERM suspended Hr).
  reflexivity.
Defined.

(** ** Printing the record *)

Lemma skipn_nth_error {A : Type} (xs : list A) :
  forall n t, nth_error xs n = Some t -> skipn n xs = t :: skipn (S n) xs.
Proof.
  induction xs as [|x xs IH]; intros [|n] t H; simpl in H; try discriminate.
  - injection H as <-. reflexivity.
  - change (skipn (S n) (x :: xs)) with (skipn n xs).
    change (skipn (S (S n)) (x :: xs)) with (skipn (S n) xs).
    apply IH. exact H.
Qed.

Lemma main_step_print (n : nat) (r : os_result) (s : state) (t : string) :
  pc s = L361 n ->
  nth_error (record_pieces (g s) (l s)) n = Some t ->
  succeeds r ->
  main_step r s =
  goto (if Nat.eqb (S n) 15 then Exited 0 else L361 (S n)) (write_out t s).
Proof.
  intros Hpc Ht Hr. unfold main_step. rewrite Hpc, Ht, record_pieces_length.
  unfold DPRINTF. unfold succeeds in Hr.
  replace (ret r <? 0) with false by lia. reflexivity.
Qed.

(** From the call number [n] of [DPRINTF] on, answers without errors print
    the rest of the record and end [main] with status 0. *)
Lemma print_run (rs : list os_result) :
  forall n s,
    pc s = L361 n ->
    (n + List.length rs = 15)%nat ->
    (0 < List.length rs)%nat ->
    Forall succeeds rs ->
    let s' := run (map Tick rs) s in
    pc s' = Exited 0 /\ g s' = g s /\ l s' = l s /\ k s' = k s /\
    log s' = log s /\
    out s' = out s ++ fold_right append EmptyString (skipn n (record_pieces (g s) (l s))).
Proof.
  induction rs as [|r rs IH]; intros n s Hpc Hlen Hpos Hok; [simpl in Hpos; lia|].
  apply Forall_cons_iff in Hok as [Hr Hok]. cbn [map run step List.length] in *.
  assert (Hn : (n < List.length (record_pieces (g s) (l s)))%nat)
    by (rewrite record_pieces_length; lia).
  apply nth_error_Some in Hn.
  destruct (nth_error (record_pieces (g s) (l s)) n) as [t|] eqn:Ht;
    [clear Hn|congruence].
  rewrite (main_step_print n r s t Hpc Ht Hr).
  rewrite (skipn_nth_error _ _ _ Ht). cbn [fold_right].
  destruct rs as [|r' rs'].
  - assert (n = 14%nat) by (simpl in Hlen; lia). subst n.
    rewrite skipn_all2 by (rewrite record_pieces_length; lia).
    cbn. rewrite append_nil_r. repeat split.
  - assert (Hlt : Nat.eqb (S n) 15 = false)
      by (apply Nat.eqb_neq; simpl in Hlen; lia).
    rewrite Hlt.
    specialize (IH (S n) (goto (L361 (S n)) (write_out t s))).
    cbv zeta in IH. cbn [pc goto g l k log out write_out] in IH.
    destruct IH as (H1 & H2 & H3 & H4 & H5 & H6);
      [reflexivity|simpl in *; lia|simpl; lia|exact Hok|].
    repeat split; try assumption.
    rewrite H6. apply append_assoc.
Qed.

(** From [getrusage] on. *)
Lemma report_run (r : os_result) (rs : list os_result) (s : state) :
  pc s = L355 ->
  List.length rs = 15%nat ->
  Forall succeeds (r :: rs) ->
  let s' := run (map Tick (r :: rs)) s in
  pc s' = Exited 0 /\ g s' = g s /\ l s' = set_ru (usage r) (l s) /\
  k s' = k s /\ log s' = log s /\
  out s' = out s ++ record_text (g s) (set_ru (usage r) (l s)).
Proof.
  intros Hpc Hlen Hok. apply Forall_cons_iff in Hok as [Hr Hok].
  cbn [map run step].
  assert (E : main_step r s = goto (L361 0) (on_l (set_ru (usage r)) s)).
  { unfold main_step. rewrite Hpc. unfold succeeds in Hr.
    replace (ret r =? -1) with false by lia. reflexivity. }
  rewrite E.
  apply (print_run rs 0 (goto (L361 0) (on_l (set_ru (usage r)) s)));
    [reflexivity|lia|lia|exact Hok].
Qed.

(** ** Wait statuses *)

(** A property checked on every number of a range. *)
Lemma range_check (f : Z -> bool) (lo n : nat) :
  forallb f (map Z.of_nat (seq lo n)) = true ->
  forall x, Z.of_nat lo <= x < Z.of_nat (lo + n) -> f x = true.
Proof.
  intros H x Hx. rewrite forallb_forall in H. apply H.
  apply in_map_iff. exists (Z.to_nat x). split; [lia|].
  apply in_seq. lia.
Qed.

Lemma exit_status_decoded (code : Z) :
  0 <= code <= 255 ->
  WIFEXITED (W_EXITCODE code) = true /\
  WEXITSTATUS (W_EXITCODE code) = code.
Proof.
  intros H.
  assert (C : (WIFEXITED (W_EXITCODE code)
               && (WEXITSTATUS (W_EXITCODE code) =? code)) = true).
  { apply (range_check
             (fun c => WIFEXITED (W_EXITCODE c)
                       && (WEXITSTATUS (W_EXITCODE c) =? c)) 0 256);
      [vm_compute; reflexivity|lia]. }
  apply andb_prop in C as [C1 C2]. split; [exact C1|lia].
Qed.

Lemma signal_status_decoded (sig : Z) (core : bool) :
  1 <= sig <= 126 ->
  WIFEXITED (W_SIGNALED sig core) = false /\
  WIFSIGNALED (W_SIGNALED sig core) = true /\
  WCOREDUMP (W_SIGNALED sig core) = core /\
  WTERMSIG (W_SIGNALED sig core) = sig.
Proof.
  intros H.
  assert (C : (negb (WIFEXITED (W_SIGNALED sig core))
               && WIFSIGNALED (W_SIGNALED sig core)
               && Bool.eqb (WCOREDUMP (W_SIGNALED sig core)) core
               && (WTERMSIG (W_SIGNALED sig core) =? sig)) = true).
  { destruct core;
      [apply (range_check
                (fun c => negb (WIFEXITED (W_SIGNALED c true))
                          && WIFSIGNALED (W_SIGNALED c true)
                          && Bool.eqb (WCOREDUMP (W_SIGNALED c true)) true
                          && (WTERMSIG (W_SIGNALED c true) =? c)) 1 126)
      |apply (range_check
                (fun c => negb (WIFEXITED (W_SIGNALED c false))
                          && WIFSIGNALED (W_SIGNALED c false)
                          && Bool.eqb (WCOREDUMP (W_SIGNALED c false)) false
                          && (WTERMSIG (W_SIGNALED c false) =? c)) 1 126)];
      (vm_compute; reflexivity) || lia. }
  apply andb_prop in C as [C C4]. apply andb_prop in C as [C C3].
  apply andb_prop in C as [C1 C2].
  repeat split; [destruct (WIFEXITED _); [discriminate|reflexivity]
                |exact C2|apply Bool.eqb_prop; exact C3|lia].
Qed.

Lemma classify_frame (s : state) :
  pc (classify s) = pc s /\ g (classify s) = g s /\ out (classify s) = out s.
Proof.
  unfold classify.
  destruct (wait_result (l s) <? 0); [cbn; auto|].
  destruct (WIFEXITED (status (l s))); [cbn; auto|].
  destruct (WIFSIGNALED (status (l s))); [|cbn; auto].
  cbn. destruct (WCOREDUMP (status (l s))); cbn; auto.
Qed.



(** ** The arguments *)

(** C3, the failing input: the timeout "4294967297" is far outside [1, 60],
    but [parse_int] wraps it to 1, the range check passes, and [main] goes
    on to [fork] instead of returning 2. *)
Theorem overflowing_timeout_is_accepted :
  let args := ["wrapper"; "5"; "4294967297"] in
  let s := run until_fork (init plain_environ args) in
  decimal_value (c_str "4294967297") = 4294967297 /\
  parse_int "4294967297" = Return 1 /\
  main_args args = Return (5, 1) /\
  pc s = L311 /\ timeout_secs (g s) = 1 /\ log s = [SysSetpgid 0 0; SysFork 1234].
Proof. cbv zeta. repeat split. Qed.

(** C10, the failing input: "4294967296" is a string of digits that starts
    with '4', so [parse_int] accepts it, and its value wraps to 0: [main]
    takes descriptor 0 as the output descriptor and goes on with it. *)
Theorem overflowing_descriptor_is_zero :
  let args := ["wrapper"; "4294967296"; "10"] in
  let s := run (ticks 2) (init plain_environ args) in
  valid_number (c_str "4294967296") = true /\
  parse_int "4294967296" = Return 0 /\
  main_args args = Return (0, 10) /\
  pc s = L267 /\ fd (l s) = 0.
Proof. cbv zeta. repeat split. Qed.

(** ** The child side *)

(** C7, the failing input: when [execlp] fails the child returns 1 from
    [main].  The parent then reports ("exited", 1), which is what it reports
    for a runner that ran and exited with status 1; 1 is also the status of
    other failures of the supervisor itself. *)
Theorem exec_failure_exits_1 :
  (forall r s, main_step r (goto L301 s) = c_exit 1 (perror "execlp" (goto L301 s))) /\
  (let s := run exec_fails (init plain_environ example_args) in
   pc s = Exited 1 /\
   log s = [SysSetpgid 0 0; SysFork 0; SysClose 5; SysExec "/ATO/runner";
            SysPerror "execlp"]) /\
  (let s := run child_exits_1 (init plain_environ example_args) in
   pc s = Exited 0 /\ status_type (l s) = "exited" /\ status (l s) = 1).
Proof. cbv zeta. repeat split. Qed.

(** ** The reap loop *)

(** C6, the failing input: SIGUSR1 is not in the set that
    [block_cleanup_and_chld] blocks, and [handle_usr1] stays installed, so
    after [waitpid] has reaped the child a SIGUSR1 still makes the process
    call [kill] on the number of the reaped child. *)
Theorem usr1_signals_reaped_child :
  let s := run usr1_after_reap (init plain_environ example_args) in
  pc s = L334 /\ k_child (k s) = Reaped /\
  sigismember (block_set SIGKILL) SIGUSR1 = false /\
  log s =
  [SysSetpgid 0 0; SysFork 1234; SysTimerCreate; SysTimerSettime 10;
   SysWaitpid 1234 0; SysWaitpid 1234 1234; SysKill 1234 SIGTERM Reaped].
Proof. cbv zeta. repeat split. Qed.

(** ** The output record *)

Lemma count_char_app (c : ascii) (a b : string) :
  count_char c (a ++ b) = (count_char c a + count_char c b)%nat.
Proof. induction a as [|x a IH]; simpl; [reflexivity|]. rewrite IH. lia. Qed.

Lemma lines_app (a b : string) : lines (a ++ b) = (lines a + lines b)%nat.
Proof. apply count_char_app. Qed.

Lemma lines_uint (d : Decimal.uint) : lines (NilEmpty.string_of_uint d) = 0%nat.
Proof. induction d; simpl; auto. Qed.

Lemma lines_fmt_d (n : Z) : lines (fmt_d n) = 0%nat.
Proof.
  unfold fmt_d, NilZero.string_of_int, NilZero.string_of_uint.
  destruct (Z.to_int n) as [d|d]; destruct d; try reflexivity;
    try apply (lines_uint (_ _)).
  all: change (lines (String "-" (NilEmpty.string_of_uint ?d)))
         with (lines (NilEmpty.string_of_uint d)); apply lines_uint.
Qed.

Lemma TIMEVAL_exact (tv : timeval) :
  timeval_ok tv -> TIMEVAL tv = timeval_ns tv.
Proof.
  intros [Hs Hu]. unfold TIMEVAL, timeval_ns.
  rewrite (int64_small (tv_sec tv * 1000000000)) by lia.
  rewrite (int64_small (tv_usec tv * 1000)) by lia.
  apply int64_small. lia.
Qed.

Lemma TIMESPEC_exact (t : timespec) :
  timespec_ok t -> TIMESPEC t = timespec_ns t.
Proof.
  intros [Hs Hn]. unfold TIMESPEC, timespec_ns.
  rewrite (int64_small (ts_sec t * 1000000000)) by lia.
  apply int64_small. lia.
Qed.

Lemma elapsed_exact (t0 t1 : timespec) :
  timespec_ok t0 -> timespec_ok t1 ->
  int64 (TIMESPEC t1 - TIMESPEC t0) = timespec_ns t1 - timespec_ns t0.
Proof.
  intros H0 H1. rewrite (TIMESPEC_exact _ H0), (TIMESPEC_exact _ H1).
  destruct H0, H1. unfold timespec_ns. apply int64_small. lia.
Qed.

Lemma record_text_json (x : globals) (y : locals) :
  record_text x y = json_line (record_fields x y).
Proof.
  unfold record_text, json_line, record_pieces, record_fields, record_close.
  cbn [field_pieces join_fields app fold_right].
  rewrite !append_assoc, append_nil_r. reflexivity.
Qed.

Lemma lines_status_type (t : string) : In t status_types -> lines t = 0%nat.
Proof.
  intros H. simpl in H.
  repeat (destruct H as [<-|H]; [reflexivity|]). contradiction.
Qed.

Lemma lines_record (x : globals) (y : locals) :
  In (status_type y) status_types ->
  lines (json_line (record_fields x y)) = 1%nat.
Proof.
  intros H. unfold json_line, record_fields, field.
  cbn [join_fields]. unfold field.
  rewrite !lines_app, !lines_fmt_d, (lines_status_type _ H).
  destruct (negb (timed_out x =? 0)); reflexivity.
Qed.



(** ** The timeout *)

Lemma inv_timeout_wake (s : state) : inv_timeout s -> inv_timeout (wake s).
Proof.
  intros H. unfold wake. destruct (pc s) eqn:Hpc; try exact H.
  unfold inv_timeout in *. rewrite Hpc in H. exact H.
Qed.

Lemma inv_timeout_frame (s s' : state) :
  inv_timeout s -> pc s' = pc s -> timeout_secs (g s') = timeout_secs (g s) ->
  inv_timeout s'.
Proof. unfold inv_timeout. intros H -> ->. exact H. Qed.

Lemma inv_timeout_step (e : event) (s : state) :
  inv_timeout s -> inv_timeout (step e s).
Proof.
  intros H. destruct e as [r|sig v|code|sig core]; cbn [step].
  - unfold inv_timeout in H. main_cases s; break_all;
      unfold inv_timeout; cbn; rewrite ?Hpc; auto.
    cbn in *. unfold MAX_TIMEOUT_SECS in *. lia.
  - destruct (deliver_cases sig v s); try exact H; try exact I;
      apply inv_timeout_wake; unfold killed;
      (eapply inv_timeout_frame; [exact H|reflexivity|]); cbn;
      try reflexivity.
    destruct (note_timeout_frame sig (g s)) as (_ & E & _). exact E.
  - unfold child_terminates. destruct (k_child (k s)); exact H.
  - unfold child_terminates.
    destruct (valid_signal sig); [destruct (k_child (k s))|]; exact H.
Qed.

Lemma inv_timeout_run (es : list event) :
  forall s, inv_timeout s -> inv_timeout (run es s).
Proof.
  induction es as [|e es IH]; intros s H; simpl; [exact H|].
  apply IH, inv_timeout_step, H.
Qed.

Lemma inv_timeout_reachable (e : environ) (args : list string) (s : state) :
  reachable e args s -> inv_timeout s.
Proof. intros [es ->]. apply inv_timeout_run. exact I. Qed.

Lemma timed_out_inv_wake (s : state) :
  timed_out_inv s -> timed_out_inv (wake s).
Proof.
  intros H. unfold wake. destruct (pc s) eqn:Hpc; try exact H.
  unfold timed_out_inv in *. rewrite Hpc in H. exact H.
Qed.

Lemma kill_child_zombie (pid sig : Z) (x : kernel) (w : Z) :
  k_child x = Zombie w -> kill_child pid sig x = Zombie w.
Proof.
  unfold kill_child. intros H. rewrite H.
  destruct (pid =? k_child_pid x); reflexivity.
Qed.

Lemma timed_out_inv_killed (pid sig : Z) (s : state) :
  timed_out_inv s -> timed_out_inv (killed pid sig s).
Proof.
  unfold timed_out_inv, killed. cbn. intros [Ht H]. split; [exact Ht|].
  destruct (pc s); auto using kill_child_zombie.
Qed.

Lemma timed_out_inv_note (sig : Z) (s : state) :
  timed_out_inv s -> timed_out_inv (on_g (note_timeout sig) s).
Proof.
  unfold timed_out_inv. cbn. intros [Ht H]. split; [|exact H].
  unfold note_timeout. destruct (sig =? SIGALRM); [reflexivity|exact Ht].
Qed.

Lemma classify_sigkill (s : state) :
  0 < wait_result (l s) -> status (l s) = W_SIGNALED SIGKILL false ->
  status_type (l (classify s)) = "killed" /\ status (l (classify s)) = SIGKILL /\
  g (classify s) = g s.
Proof.
  intros Hw Hs. unfold classify.
  replace (wait_result (l s) <? 0) with false by lia. rewrite Hs.
  change (WIFEXITED (W_SIGNALED SIGKILL false)) with false.
  change (WIFSIGNALED (W_SIGNALED SIGKILL false)) with true.
  cbn. rewrite Hs.
  change (WCOREDUMP (W_SIGNALED SIGKILL false)) with false.
  cbn. rewrite Hs. repeat split.
Qed.

Lemma timed_out_inv_step (e : event) (s : state) :
  inv s -> timed_out_inv s -> timed_out_inv (step e s).
Proof.
  intros (Hs & Hd & Hp) HT. destruct e as [r|sig v|code|sig core]; cbn [step].
  - destruct HT as [Ht HT]. unfold inv_pc in Hp.
    destruct (pc s) eqn:Hpc; try contradiction.
    all: try (unfold main_step; rewrite Hpc; split; [exact Ht|rewrite Hpc; exact HT]).
    all: lazymatch goal with
      | _ : pc _ = L330 |- _ =>
          (* the zombie is reaped *)
          destruct Hp as ((Hpos & Hpid & _) & _);
          unfold main_step; rewrite Hpc; unfold sys_waitpid;
          rewrite <- Hpid, Z.eqb_refl, HT; cbn;
          replace (k_child_pid (k s) =? 0) with false by lia;
          split; [exact Ht|reflexivity]
      | _ : pc _ = L336 |- _ =>
          destruct Hp as (_ & _ & _ & _ & _ & Hw);
          destruct (classify_sigkill s Hw HT) as (H1 & H2 & H3);
          unfold main_step; rewrite Hpc; split; cbn;
          [rewrite H3; exact Ht|auto]
      | _ : pc _ = L355 |- _ =>
          unfold main_step; rewrite Hpc; unfold c_exit, perror;
          destruct (ret r =? -1); split; cbn; auto; intros; discriminate
      | _ : pc _ = L361 _ |- _ =>
          unfold main_step; rewrite Hpc; unfold DPRINTF, c_exit, perror;
          rewrite record_pieces_length; break_all; split; cbn;
          rewrite ?Hpc; auto; intros; discriminate
      | _ =>
          unfold main_step; rewrite Hpc;
          rewrite ?unblock_signal_eq, ?block_cleanup_and_chld_eq;
          try rewrite sys_sigaction_pair;
          unfold settimeout, perror; break_all;
          split; cbn; auto
      end.
  - destruct (deliver_cases sig v s) as [ | | | Hdel _ _ | | | ]; try exact HT.
    + split; [apply HT|exact I].
    + apply timed_out_inv_wake, HT.
    + pose proof (resolved_positive s sig Hs Hdel).
      apply timed_out_inv_note with (sig := sig) in HT.
      destruct HT as [Ht _]. split; [exact Ht|]. cbn - [note_timeout Z.add].
      intros; lia.
    + apply timed_out_inv_wake, timed_out_inv_killed, timed_out_inv_note, HT.
    + split; [apply HT|exact I].
    + apply timed_out_inv_wake, timed_out_inv_killed, HT.
  - unfold child_terminates. destruct (k_child (k s)) eqn:Hc; try exact HT.
    destruct HT as [Ht HT]. split; [exact Ht|]. cbn.
    destruct (pc s); auto; congruence.
  - unfold child_terminates.
    destruct (valid_signal sig); [|exact HT].
    destruct (k_child (k s)) eqn:Hc; try exact HT.
    destruct HT as [Ht HT]. split; [exact Ht|]. cbn.
    destruct (pc s); auto; congruence.
Qed.

Lemma timed_out_inv_run (es : list event) :
  forall s, inv s -> timed_out_inv s ->
            inv (run es s) /\ timed_out_inv (run es s).
Proof.
  induction es as [|e es IH]; intros s Hi HT; simpl; [split; assumption|].
  apply IH; [apply inv_step, Hi|apply timed_out_inv_step; assumption].
Qed.

Lemma main_step_next (s : state) :
  inv s -> timed_out_inv s ->
  pc (main_step (answer 0) s) = next_label (pc s).
Proof.
  intros (Hs & Hd & Hp) [Ht HT]. unfold inv_pc in Hp.
  destruct (pc s) eqn:Hpc; try contradiction.
  all: try (unfold main_step; rewrite Hpc; cbn [next_label]; rewrite ?Hpc;
            reflexivity).
  all: lazymatch goal with
    | _ : pc _ = L330 |- _ =>
        destruct Hp as ((Hpos & Hpid & _) & _);
        unfold main_step; rewrite Hpc; unfold sys_waitpid;
        rewrite <- Hpid, Z.eqb_refl, HT; cbn;
        replace (k_child_pid (k s) =? 0) with false by lia; reflexivity
    | _ : pc _ = L361 _ |- _ =>
        destruct Hp as (_ & _ & _ & _ & Hn & _);
        assert (Hlt : (n < List.length (record_pieces (g s) (l s)))%nat)
          by (rewrite record_pieces_length; exact Hn);
        apply nth_error_Some in Hlt;
        destruct (nth_error (record_pieces (g s) (l s)) n) as [t|] eqn:Hnth;
          [|congruence];
        rewrite (main_step_print n (answer 0) s t Hpc Hnth)
          by (unfold succeeds; cbn; lia);
        reflexivity
    | _ =>
        unfold main_step; rewrite Hpc; try rewrite sys_sigaction_pair;
        reflexivity
    end.
Qed.

Lemma run_ticks_next (n : nat) :
  forall s, inv s -> timed_out_inv s ->
            pc (run (ticks n) s) = Nat.iter n next_label (pc s).
Proof.
  induction n as [|n IH]; intros s Hi HT; [reflexivity|].
  change (ticks (S n)) with (Tick (answer 0) :: ticks n). cbn [run step].
  rewrite IH by (apply inv_step with (e := Tick (answer 0)), Hi
                 || apply timed_out_inv_step with (e := Tick (answer 0)); assumption).
  rewrite (main_step_next s Hi HT). symmetry. apply Nat.iter_succ_r.
Qed.

Lemma iter_next_exited (n : nat) : Nat.iter n next_label (Exited 0) = Exited 0.
Proof. induction n as [|n IH]; [reflexivity|]. simpl. rewrite IH. reflexivity. Qed.

Lemma iter_next_finishes (p : label) (n : nat) :
  In p [L311; L318; L323; L328; L330] -> (23 <= n)%nat ->
  Nat.iter n next_label p = Exited 0.
Proof.
  intros Hp Hn. replace n with ((n - 23) + 23)%nat by lia.
  rewrite Nat.iter_add.
  replace (Nat.iter 23 next_label p) with (Exited 0);
    [apply iter_next_exited|].
  simpl in Hp. repeat (destruct Hp as [<-|Hp]; [reflexivity|]). contradiction.
Qed.

Lemma alarm_open_unblock (m : sigset) :
  alarm_open (mask_unblock m (sigaddset sigemptyset SIGALRM)).
Proof.
  unfold alarm_open, sigismember, mask_unblock. rewrite Z.ldiff_spec.
  change (Z.testbit (sigaddset sigemptyset SIGALRM) (SIGALRM - 1)) with true.
  rewrite andb_false_r. apply andb_false_r.
Qed.

Lemma alarm_open_suspend (m : sigset) :
  alarm_open m -> alarm_open (Z.ldiff m unblockable).
Proof.
  unfold alarm_open, sigismember. rewrite Z.ldiff_spec.
  change (valid_signal SIGALRM) with true. cbn [andb].
  intros ->. reflexivity.
Qed.

Lemma inv_alarm_wake (s : state) : inv_alarm s -> inv_alarm (wake s).
Proof.
  intros H. unfold wake. destruct (pc s) eqn:Hpc; try exact H.
  unfold inv_alarm in *. rewrite Hpc in H. apply H.
Qed.

Lemma inv_alarm_frame (s s' : state) :
  inv_alarm s -> pc s' = pc s -> k_mask (k s') = k_mask (k s) ->
  cleanup_set (l s') = cleanup_set (l s) -> inv_alarm s'.
Proof. unfold inv_alarm. intros H -> -> ->. exact H. Qed.

Lemma inv_alarm_step (e : event) (s : state) :
  inv_alarm s -> inv_alarm (step e s).
Proof.
  intros H. destruct e as [r|sig v|code|sig core]; cbn [step].
  - unfold inv_alarm in H. main_cases s; break_all;
      unfold inv_alarm; cbn; rewrite ?Hpc; auto;
      try apply alarm_open_unblock.
    all: split; [exact (alarm_open_suspend _ H)|exact H].
  - destruct (deliver_cases sig v s); try exact H; try exact I;
      apply inv_alarm_wake; unfold killed;
      (eapply inv_alarm_frame; [exact H|reflexivity|reflexivity|reflexivity]).
  - unfold child_terminates. destruct (k_child (k s)); exact H.
  - unfold child_terminates.
    destruct (valid_signal sig); [destruct (k_child (k s))|]; exact H.
Qed.

Lemma inv_alarm_run (es : list event) :
  forall s, inv_alarm s -> inv_alarm (run es s).
Proof.
  induction es as [|e es IH]; intros s H; simpl; [exact H|].
  apply IH, inv_alarm_step, H.
Qed.

(** The alarm is not lost: whenever the parent waits in [sigsuspend],
    SIGALRM can be delivered, and [cleanup] is its handler. *)
Lemma alarm_deliverable_in_sigsuspend (e : environ) (args : list string)
      (s : state) :
  reachable e args s -> pc s = L331 ->
  deliverable s SIGALRM = true /\
  k_disp (k s) SIGALRM = SigHandler Hcleanup.
Proof.
  intros Hr Hpc. pose proof (inv_inst_reachable _ _ _ Hr) as Hi.
  destruct Hr as [es ->].
  pose proof (inv_alarm_run es (init e args) I) as Ha.
  unfold inv_alarm in Ha. unfold inv_inst in Hi. rewrite Hpc in Ha, Hi.
  destruct Ha as [Ha _]. split.
  - unfold deliverable. rewrite Hpc. unfold alarm_open in Ha. rewrite Ha.
    reflexivity.
  - apply Hi. simpl. auto.
Qed.

(** A running child and a deliverable SIGALRM: the parent is between [fork]
    and the loop, or inside [sigsuspend]. *)
Lemma running_deliverable_pc (s : state) :
  inv s -> k_child (k s) = Running -> deliverable s SIGALRM = true ->
  In (pc s) [L311; L318; L323; L328; L331].
Proof.
  intros (Hs & Hd & Hp) Hc Hdel.
  pose proof (deliverable_live _ _ Hdel) as Hl.
  unfold inv_pc, no_fork_yet in Hp.
  destruct (pc s) eqn:Hpc; try discriminate; simpl; auto 6;
    try (exfalso; intuition congruence).
  exfalso. destruct Hp as (_ & _ & _ & _ & Hb).
  specialize (Hb SIGALRM (or_introl eq_refl)).
  unfold deliverable in Hdel. rewrite Hb in Hdel.
  rewrite andb_false_r in Hdel. discriminate.
Qed.



(** ** What does hold of the arguments and of the loop *)

(** As long as the number of the timeout fits an [int], a wrong count of
    arguments, an argument that is not a valid number and a timeout outside
    [1, 60] all make [main] return 2. *)
Lemma main_args_rejects (args : list string) :
  (List.length args <> 3%nat -> main_args args = Exit 2) /\
  (valid_number (c_str (nth 1 args EmptyString)) = false -> main_args args = Exit 2) /\
  (valid_number (c_str (nth 2 args EmptyString)) = false -> main_args args = Exit 2) /\
  (decimal_value (c_str (nth 2 args EmptyString)) <= INT_MAX ->
   ~ 1 <= decimal_value (c_str (nth 2 args EmptyString)) <= MAX_TIMEOUT_SECS ->
   main_args args = Exit 2).
Proof.
  unfold main_args, main_parse.
  destruct (Z.of_nat (List.length args) =? 3) eqn:Hc; cbn [negb bind].
  - rewrite !parse_int_spec.
    destruct (valid_number (c_str (nth 1 args EmptyString))) eqn:H1; cbn [bind];
      [|repeat split; reflexivity].
    destruct (valid_number (c_str (nth 2 args EmptyString))) eqn:H2; cbn [bind];
      [|repeat split; reflexivity].
    split; [lia|split; [discriminate|split; [discriminate|]]].
    intros Hmax Hrange.
    destruct (parse_int_exact _ H2 Hmax) as [E _].
    rewrite parse_int_spec, H2 in E. injection E as ->.
    replace ((decimal_value (c_str (nth 2 args EmptyString)) <? 1)
             || (decimal_value (c_str (nth 2 args EmptyString)) >? MAX_TIMEOUT_SECS))
      with true by lia.
    reflexivity.
  - repeat split; reflexivity.
Qed.

(** [main] then ends before anything else happens: no child, no output. *)
Lemma main_step_rejects (r : os_result) (s : state) :
  pc s = L250 -> main_args (argv (l s)) = Exit 2 ->
  let s' := main_step r s in
  pc s' = Exited 2 /\ out s' = out s /\ log s' = log s /\
  k_child (k s') = k_child (k s).
Proof.
  intros Hpc Ha. cbv zeta. unfold main_step. rewrite Hpc.
  unfold main_args in Ha.
  destruct (main_parse (argv (l s))) as [[d t]|c] eqn:E; cbn [bind] in Ha.
  - cbn. destruct ((t <? 1) || (t >? MAX_TIMEOUT_SECS)); [|discriminate].
    cbn. repeat split.
  - injection Ha as ->. cbn. repeat split.
Qed.

(** A descriptor that is not open ends [main] with the error of [fcntl],
    EBADF, before anything else happens. *)
Lemma main_step_closed_descriptor (r : os_result) (s : state) :
  pc s = L260 -> k_open (k s) (fd (l s)) = false ->
  let s' := main_step r s in
  pc s' = Exited EBADF /\ out s' = out s /\
  log s' = (log s ++ [SysPerror "wrapper"])%list /\
  k_child (k s') = k_child (k s).
Proof.
  intros Hpc Ho. cbv zeta. unfold main_step. rewrite Hpc, Ho.
  change (negb (EBADF =? 0)) with true. cbn. repeat split.
Qed.

(** Once the child is reaped no signal can run [cleanup] any more. *)
Lemma cleanup_blocked_after_reap (e : environ) (args : list string)
      (s : state) (sig : Z) :
  reachable e args s -> k_child (k s) = Reaped ->
  k_disp (k s) sig = SigHandler Hcleanup -> deliverable s sig = false.
Proof.
  intros Hr Hc Hk. apply inv_reachable in Hr as (_ & Hd & Hp).
  destruct (deliverable s sig) eqn:Hdel; [exfalso|reflexivity].
  pose proof (deliverable_live _ _ Hdel) as Hl.
  assert (Hb : blocked (k_mask (k s))).
  { unfold inv_pc, no_fork_yet, awaiting in Hp.
    destruct (pc s); try discriminate Hl;
      first [solve [intuition]|exfalso; decompose [and or ex] Hp; congruence]. }
  eapply blocked_not_deliverable; eassumption.
Qed.

(** No handler reaps: if the child is reaped after a delivery, it was
    before. *)
Lemma handlers_do_not_reap (sig sival_int : Z) (s : state) :
  k_child (k (deliver sig sival_int s)) = Reaped -> k_child (k s) = Reaped.
Proof.
  assert (K : forall pid sg x, kill_child pid sg x = Reaped -> k_child x = Reaped).
  { intros pid sg x. unfold kill_child.
    destruct (pid =? k_child_pid x); [|auto].
    destruct (k_child x); try destruct (sg =? SIGKILL); auto; discriminate. }
  destruct (deliver_cases sig sival_int s); auto;
    rewrite wake_child; unfold killed; cbn; auto; apply K.
Qed.

(** * Further properties of the code *)

(** ** [parse_int] on every string *)

Lemma int32_congr (x y : Z) :
  x mod 2 ^ 32 = y mod 2 ^ 32 -> int32 x = int32 y.
Proof.
  intros H. unfold int32, wrap. f_equal.
  rewrite (Z.add_mod x), (Z.add_mod y), H by lia. reflexivity.
Qed.

Lemma int32_mod (x : Z) : int32 x mod 2 ^ 32 = x mod 2 ^ 32.
Proof.
  unfold int32, wrap. rewrite Zminus_mod_idemp_l. f_equal. lia.
Qed.

Lemma wrapped_value_int32 (cs : list Z) :
  wrapped_value cs 0 = int32 (decimal_value cs).
Proof.
  induction cs as [|c cs IH] using rev_ind; [reflexivity|].
  rewrite wrapped_value_snoc, decimal_value_snoc, IH.
  apply int32_congr.
  rewrite Z.add_mod, int32_mod by lia.
  rewrite Z.mul_mod, int32_mod by lia.
  rewrite <- Z.mul_mod, <- Z.add_mod by lia. reflexivity.
Qed.

(** X1: [parse_int] returns on exactly the strings that (up to the first
    NUL) are not empty, hold ASCII digits only and start with a digit from 1
    to 9; on every other string, the empty one included, it ends the process
    with status 2 and with no other status. *)
Theorem parse_int_accepts_valid_numbers (s : string) :
  match parse_int s with
  | Return _ => valid_number (c_str s) = true
  | Exit code => code = 2 /\ valid_number (c_str s) = false
  end.
Proof.
  rewrite parse_int_spec. destruct (valid_number (c_str s)); auto.
Qed.

(** X2: what [parse_int] returns on a string it accepts is the number the
    digits denote, reduced to the 32 bits of an [int]: there is no check for
    overflow, every multiplication and addition of the loop wraps. *)
Theorem parse_int_wraps (s : string) :
  parse_int s =
  if valid_number (c_str s)
  then Return (int32 (decimal_value (c_str s))) else Exit 2.
Proof.
  rewrite parse_int_spec, wrapped_value_int32. reflexivity.
Qed.

Lemma c_str_string_of_uint (d : Decimal.uint) :
  c_str (NilEmpty.string_of_uint d) = digits d.
Proof.
  induction d; simpl; try rewrite IHd; reflexivity.
Qed.

Lemma digits_are_digits (d : Decimal.uint) : forallb is_digit (digits d) = true.
Proof. induction d; simpl; try rewrite IHd; reflexivity. Qed.

Lemma digits_of_uint_acc (d : Decimal.uint) :
  forall acc,
    fold_left (fun acc c => acc * 10 + (c - char_0)) (digits d) (Z.pos acc) =
    Z.pos (Pos.of_uint_acc d acc).
Proof.
  induction d; intros acc; cbn [digits fold_left Pos.of_uint_acc];
    try reflexivity;
    match goal with
    | |- fold_left _ _ ?a = Z.pos (Pos.of_uint_acc _ ?b) =>
        replace a with (Z.pos b) by (unfold char_0; lia)
    end;
    apply IHd.
Qed.

Lemma digits_of_uint (d : Decimal.uint) :
  decimal_value (digits d) = Z.of_N (Pos.of_uint d).
Proof.
  unfold decimal_value.
  induction d; cbn [digits fold_left Pos.of_uint]; try reflexivity;
    try exact IHd;
    match goal with
    | |- fold_left _ _ ?a = Z.of_N (N.pos (Pos.of_uint_acc _ ?b)) =>
        change a with (Z.pos b)
    end;
    apply digits_of_uint_acc.
Qed.

Lemma unorm_zero_head (d d' : Decimal.uint) :
  Decimal.unorm d = Decimal.D0 d' -> d' = Decimal.Nil.
Proof.
  induction d; simpl; try discriminate; auto.
  - intros H. injection H as <-. reflexivity.
Qed.

(** The numeral of a positive number does not start with a zero. *)
Lemma digits_to_uint_valid (p : positive) :
  valid_number (digits (Pos.to_uint p)) = true.
Proof.
  pose proof (DecimalPos.Unsigned.to_of (Pos.to_uint p)) as H.
  rewrite DecimalPos.Unsigned.of_to in H. cbn [N.to_uint] in H.
  pose proof (DecimalPos.Unsigned.to_uint_nonzero p) as Hz.
  pose proof (digits_are_digits (Pos.to_uint p)) as Hd.
  destruct (Pos.to_uint p) as [|d|d|d|d|d|d|d|d|d|d] eqn:E;
    try (cbn [digits valid_number] in *; rewrite Hd; reflexivity).
  - exfalso. discriminate H.
  - exfalso. symmetry in H. apply unorm_zero_head in H. subst d.
    apply Hz. reflexivity.
Qed.

(** X3: [parse_int] reads back the decimal numeral of every number from 1
    to INT_MAX: a descriptor or a timeout written in decimal is read as that
    number. *)
Theorem parse_int_reads_decimal (n : Z) :
  1 <= n <= INT_MAX -> parse_int (fmt_d n) = Return n.
Proof.
  intros Hn. destruct n as [|p|p]; try lia.
  unfold fmt_d. cbn [Z.to_int NilZero.string_of_int].
  unfold NilZero.string_of_uint.
  pose proof (DecimalPos.Unsigned.to_uint_nonnil p) as Hnil.
  destruct (Pos.to_uint p) eqn:E; try contradiction; rewrite <- E.
  all: assert (Hv : decimal_value (digits (Pos.to_uint p)) = Z.pos p)
    by (rewrite digits_of_uint, DecimalPos.Unsigned.of_to; reflexivity).
  all: pose proof (digits_to_uint_valid p) as Hval.
  all: rewrite <- c_str_string_of_uint in Hv, Hval.
  all: destruct (parse_int_exact _ Hval) as [-> _]; [lia|congruence].
Qed.

Lemma parse_int_reads_decimal_witness :
  1 <= 60 <= INT_MAX /\ parse_int (fmt_d 60) = Return 60.
Proof.
  assert (H : 1 <= 60 <= INT_MAX) by (unfold INT_MAX; lia).
  exact (conj H (parse_int_reads_decimal 60 H)).
Defined.


(** ** Runs *)

Lemma run_app (es es' : list event) :
  forall s, run (es ++ es') s = run es' (run es s).
Proof. induction es as [|e es IH]; intros s; simpl; auto. Qed.

Lemma reachable_step (e : environ) (args : list string) (ev : event)
      (s : state) :
  reachable e args s -> reachable e args (step ev s).
Proof.
  intros [es ->]. exists (es ++ [ev])%list. rewrite run_app. reflexivity.
Qed.

(** A property of the initial state that every step keeps holds of all the
    states the process reaches. *)
Lemma reachable_ind (e : environ) (args : list string) (P : state -> Prop) :
  P (init e args) ->
  (forall ev s, reachable e args s -> P s -> P (step ev s)) ->
  forall s, reachable e args s -> P s.
Proof.
  intros H0 Hstep s [es ->].
  induction es as [|ev es IH] using rev_ind; [exact H0|].
  rewrite run_app. simpl. apply Hstep; [exists es; reflexivity|exact IH].
Qed.

(** Nothing moves a process that has ended, whatever becomes of its
    child. *)
Lemma step_dead (ev : event) (s : state) :
  live (pc s) = false ->
  pc (step ev s) = pc s /\ g (step ev s) = g s /\ l (step ev s) = l s /\
  out (step ev s) = out s /\ log (step ev s) = log s.
Proof.
  intros H. destruct ev as [r|sig v|code|sig core]; cbn [step].
  - unfold main_step. revert H. destruct (pc s) eqn:E; intros H;
      try discriminate; repeat split; exact E.
  - unfold deliver, deliverable. rewrite H. cbn [andb negb]. repeat split.
  - unfold child_terminates. destruct (k_child (k s)); repeat split.
  - unfold child_terminates.
    destruct (valid_signal sig); [destruct (k_child (k s))|]; repeat split.
Qed.

Lemma run_dead (es : list event) :
  forall s, live (pc s) = false -> pc (run es s) = pc s.
Proof.
  induction es as [|ev es IH]; intros s H; simpl; [reflexivity|].
  destruct (step_dead ev s H) as [E _]. rewrite IH; rewrite E; auto.
Qed.

Lemma main_step_dead (r : os_result) (s : state) :
  live (pc s) = false -> main_step r s = s.
Proof.
  intros H. unfold main_step. revert H.
  destruct (pc s); intros H; try discriminate; reflexivity.
Qed.

(** ** The arguments *)

Lemma main_args_spec (args : list string) :
  main_args args =
  if accepted args
  then Return (int32 (decimal_value (c_str (nth 1 args EmptyString))),
               int32 (decimal_value (c_str (nth 2 args EmptyString))))
  else Exit 2.
Proof.
  unfold main_args, main_parse, accepted.
  destruct (Nat.eqb_spec (List.length args) 3) as [E|E].
  - rewrite E. change (Z.of_nat 3 =? 3) with true. cbn [negb andb].
    rewrite !parse_int_spec, !wrapped_value_int32.
    destruct (valid_number (c_str (nth 1 args EmptyString))); [|reflexivity].
    destruct (valid_number (c_str (nth 2 args EmptyString))); [|reflexivity].
    cbn [bind andb].
    set (t := int32 (decimal_value (c_str (nth 2 args EmptyString)))).
    destruct (1 <=? t) eqn:H1; destruct (t <=? MAX_TIMEOUT_SECS) eqn:H2;
      cbn [andb].
    + replace ((t <? 1) || (t >? MAX_TIMEOUT_SECS)) with false by lia.
      reflexivity.
    + replace ((t <? 1) || (t >? MAX_TIMEOUT_SECS)) with true by lia.
      reflexivity.
    + replace ((t <? 1) || (t >? MAX_TIMEOUT_SECS)) with true by lia.
      reflexivity.
    + replace ((t <? 1) || (t >? MAX_TIMEOUT_SECS)) with true by lia.
      reflexivity.
  - replace (Z.of_nat (List.length args) =? 3) with false by lia.
    reflexivity.
Qed.

(** The first statement of [main], by what [main_args] says. *)
Lemma main_step_args (r : os_result) (s : state) :
  pc s = L250 ->
  main_step r s =
  match main_args (argv (l s)) with
  | Exit _ =>
      match main_parse (argv (l s)) with
      | Exit _ => c_exit 2 s
      | Return (d, t) =>
          c_exit 2 (on_g (set_timeout_secs t) (on_l (set_fd d) s))
      end
  | Return (d, t) => goto L260 (on_g (set_timeout_secs t) (on_l (set_fd d) s))
  end.
Proof.
  intros Hpc. unfold main_step, main_args. rewrite Hpc.
  destruct (main_parse (argv (l s))) as [[d t]|code] eqn:E; cbn [bind].
  - cbn. destruct ((t <? 1) || (t >? MAX_TIMEOUT_SECS)); reflexivity.
  - rewrite (main_parse_exit _ _ E). reflexivity.
Qed.

Lemma no_handlers_init (e : environ) (args : list string) :
  no_handlers (k_disp (k (init e args))).
Proof.
  intros sig h. simpl.
  destruct (inherited_ignore e sig && negb (sig =? SIGKILL)
            && negb (sig =? SIGSTOP)); discriminate.
Qed.

(** Without a handler a signal is ignored or ends the process. *)
Lemma deliver_no_handlers (sig v : Z) (s : state) :
  no_handlers (k_disp (k s)) ->
  deliver sig v s = s \/ deliver sig v s = goto (Killed sig) s.
Proof.
  intros H. unfold deliver.
  destruct (negb (deliverable s sig)); [left; reflexivity|].
  destruct (k_disp (k s) sig) eqn:E.
  - destruct (default_terminates sig); auto.
  - auto.
  - exfalso. exact (H _ _ E).
Qed.

(** X4: when [main] does not accept its arguments (their count is not
    three, one of the two is not a valid number, or the timeout that
    [parse_int] returns is not between 1 and 60), its first statement ends
    it with status 2; and in no state of such a run has anything been
    written, has a system call the model records been made, or is there a
    child. *)
Theorem rejected_arguments_end_main (e : environ) (args : list string) :
  accepted args = false ->
  (forall r es, pc (run (Tick r :: es) (init e args)) = Exited 2) /\
  (forall s, reachable e args s ->
             log s = [] /\ out s = EmptyString /\ k_child (k s) = NoChild).
Proof.
  intros Ha.
  assert (Hm : main_args args = Exit 2) by (rewrite main_args_spec, Ha; reflexivity).
  split.
  - intros r es. cbn [run step]. rewrite run_dead.
    + rewrite main_step_args by reflexivity. cbn [init argv l]. rewrite Hm.
      destruct (main_parse args) as [[d t]|c]; reflexivity.
    + rewrite main_step_args by reflexivity. cbn [init argv l]. rewrite Hm.
      destruct (main_parse args) as [[d t]|c]; reflexivity.
  - intros s Hr.
    enough (H : ((pc s = L250 /\ argv (l s) = args) \/ live (pc s) = false) /\
                no_handlers (k_disp (k s)) /\
                log s = [] /\ out s = EmptyString /\ k_child (k s) = NoChild)
      by tauto.
    revert s Hr. apply reachable_ind.
    + split; [left; split; reflexivity|].
      split; [apply no_handlers_init|repeat split].
    + intros ev s _ (Hpc & Hn & Hlog & Hout & Hc).
      destruct ev as [r|sig v|code|sig core]; cbn [step].
      * destruct Hpc as [[Hpc Hargs]|Hdead].
        -- rewrite main_step_args, Hargs, Hm by exact Hpc.
           destruct (main_parse args) as [[d t]|c]; cbn;
             (split; [right; reflexivity|auto]).
        -- rewrite main_step_dead by exact Hdead. auto 6.
      * destruct (deliver_no_handlers sig v s Hn) as [->| ->]; [auto 6|].
        cbn. split; [right; reflexivity|auto].
      * unfold child_terminates. rewrite Hc. auto 6.
      * unfold child_terminates. rewrite Hc.
        destruct (valid_signal sig); auto 6.
Qed.

Lemma rejected_arguments_end_main_witness :
  accepted ["wrapper"; "5"; "61"] = false /\
  pc (run [Tick (answer 0); Deliver SIGTERM 0]
        (init plain_environ ["wrapper"; "5"; "61"])) = Exited 2.
Proof.
  assert (H : accepted ["wrapper"; "5"; "61"] = false) by reflexivity.
  exact (conj H
           (proj1 (rejected_arguments_end_main plain_environ _ H)
              (answer 0) [Deliver SIGTERM 0])).
Defined.




(** ** The statuses the process ends with *)

Lemma wake_exited (s : state) (c : Z) : pc (wake s) = Exited c -> pc s = Exited c.
Proof. unfold wake. destruct (pc s) eqn:E; cbn; rewrite ?E; auto; discriminate. Qed.

Lemma cleanup_status (s : state) (sig : Z) :
  inv_static s -> In sig cleanup_signals ->
  In (128 + resolved sig (g s)) cleanup_statuses.
Proof.
  intros [Ht _] H. unfold resolved. rewrite Ht. simpl in H.
  repeat (destruct H as [<-|H]; [vm_compute; tauto|]). contradiction.
Qed.




(** ** The wake-up of [sigsuspend] *)

Lemma chld_open_unblock (m : sigset) :
  chld_open (mask_unblock m (sigaddset sigemptyset SIGCHLD)).
Proof.
  unfold chld_open, sigismember, mask_unblock. rewrite Z.ldiff_spec.
  change (Z.testbit (sigaddset sigemptyset SIGCHLD) (SIGCHLD - 1)) with true.
  rewrite andb_false_r. apply andb_false_r.
Qed.

Lemma chld_open_unblock_alarm (m : sigset) :
  chld_open m -> chld_open (mask_unblock m (sigaddset sigemptyset SIGALRM)).
Proof.
  unfold chld_open, sigismember, mask_unblock. rewrite Z.ldiff_spec.
  change (valid_signal SIGCHLD) with true. cbn [andb].
  intros ->. reflexivity.
Qed.

Lemma chld_open_suspend (m : sigset) :
  chld_open m -> chld_open (Z.ldiff m unblockable).
Proof.
  unfold chld_open, sigismember. rewrite Z.ldiff_spec.
  change (valid_signal SIGCHLD) with true. cbn [andb].
  intros ->. reflexivity.
Qed.

Lemma chld_blocked_after_block (m : sigset) :
  sigismember (mask_block m (block_set SIGKILL)) SIGCHLD = true.
Proof.
  unfold sigismember, mask_block. rewrite Z.ldiff_spec, Z.lor_spec.
  change (Z.testbit (block_set SIGKILL) (SIGCHLD - 1)) with true.
  rewrite orb_true_r. reflexivity.
Qed.

Lemma inv_chld_wake (s : state) : inv_chld s -> inv_chld (wake s).
Proof.
  intros H. unfold wake. destruct (pc s) eqn:Hpc; try exact H.
  unfold inv_chld in *. rewrite Hpc in H. cbn. tauto.
Qed.

Lemma inv_chld_frame (s s' : state) :
  inv_chld s -> pc s' = pc s -> k_disp (k s') = k_disp (k s) ->
  k_mask (k s') = k_mask (k s) -> k_saved (k s') = k_saved (k s) ->
  cleanup_set (l s') = cleanup_set (l s) -> inv_chld s'.
Proof. unfold inv_chld. intros H -> -> -> -> ->. exact H. Qed.

Lemma inv_chld_step (e : event) (s : state) :
  inv_static s -> inv_chld s -> inv_chld (step e s).
Proof.
  intros [Hterm _] H. destruct e as [r|sig v|code|sig core]; cbn [step].
  - unfold inv_chld in H. main_cases s; rewrite ?Hterm; break_all;
      unfold inv_chld; cbn; rewrite ?Hpc; auto;
      repeat match goal with
        | |- _ /\ _ => split
        | |- chld_open (mask_unblock _ (sigaddset sigemptyset SIGCHLD)) =>
            apply chld_open_unblock
        | |- chld_open (mask_unblock _ (sigaddset sigemptyset SIGALRM)) =>
            apply chld_open_unblock_alarm
        | |- chld_open (Z.ldiff _ _) => apply chld_open_suspend
        | |- sigismember (mask_block _ (block_set SIGKILL)) SIGCHLD = true =>
            apply chld_blocked_after_block
        end;
      try tauto.
  - destruct (deliver_cases sig v s); try exact H; try exact I;
      apply inv_chld_wake; unfold killed;
      (eapply inv_chld_frame; [exact H|reflexivity..]).
  - unfold child_terminates. destruct (k_child (k s)); exact H.
  - unfold child_terminates.
    destruct (valid_signal sig); [destruct (k_child (k s))|]; exact H.
Qed.

Lemma inv_chld_reachable (e : environ) (args : list string) (s : state) :
  reachable e args s -> inv_chld s.
Proof.
  revert s. apply reachable_ind; [exact I|].
  intros ev s Hr H. apply inv_chld_step; [|exact H].
  apply inv_reachable in Hr. apply Hr.
Qed.

(** X7: no wake-up is lost.  Between [waitpid] and [sigsuspend] SIGCHLD
    and SIGALRM are blocked, so that one that arrives there does not run its
    handler yet; inside [sigsuspend] both can be delivered, to the handlers
    [chld] and [cleanup]; and the delivery of SIGCHLD does nothing but make
    [sigsuspend] return with the blocking mask restored, so that the loop
    calls [waitpid] again. *)
Theorem no_wakeup_is_lost (e : environ) (args : list string) (s : state) :
  reachable e args s ->
  (pc s = L330 ->
   forall sig v, In sig [SIGCHLD; SIGALRM] -> deliver sig v s = s) /\
  (pc s = L331 ->
   deliverable s SIGCHLD = true /\ deliverable s SIGALRM = true /\
   k_disp (k s) SIGCHLD = SigHandler Hchld /\
   k_disp (k s) SIGALRM = SigHandler Hcleanup /\
   sigismember (k_saved (k s)) SIGCHLD = true /\
   sigismember (k_saved (k s)) SIGALRM = true /\
   forall v, deliver SIGCHLD v s =
             goto L330 (on_k (fun x => set_mask (k_saved x) x) s)).
Proof.
  intros Hr.
  pose proof (inv_chld_reachable _ _ _ Hr) as Hc.
  pose proof (inv_reachable _ _ _ Hr) as (_ & _ & Hp).
  unfold inv_chld in Hc. unfold inv_pc in Hp. split; intros Hpc.
  - rewrite Hpc in Hc, Hp. destruct Hc as (_ & Hm & _).
    destruct Hp as (_ & _ & _ & _ & Hb).
    intros sig v Hsig. unfold deliver, deliverable.
    assert (E : sigismember (k_mask (k s)) sig = true).
    { destruct Hsig as [<-|[<-|[]]]; [exact Hm|]. apply Hb. simpl. auto. }
    rewrite E, andb_false_r. reflexivity.
  - destruct (alarm_deliverable_in_sigsuspend _ _ _ Hr Hpc) as [Ha Hk].
    rewrite Hpc in Hc, Hp. destruct Hc as (Hh & Hopen & _ & Hsaved).
    destruct Hp as (_ & _ & _ & _ & Hb).
    assert (Hd : deliverable s SIGCHLD = true).
    { unfold deliverable. rewrite Hpc. unfold chld_open in Hopen.
      rewrite Hopen. reflexivity. }
    repeat (split; [assumption|]).
    split; [apply Hb; simpl; auto|].
    intros v. unfold deliver. rewrite Hd, Hh. cbn [negb run_handler].
    unfold chld. rewrite Hpc. reflexivity.
Qed.

Lemma no_wakeup_is_lost_witness :
  reachable plain_environ example_args suspended /\
  pc suspended = L331 /\
  pc (deliver SIGCHLD 0 suspended) = L330.
Proof.
  assert (H1 : reachable plain_environ example_args suspended)
    by (exists until_suspended; reflexivity).
  assert (H2 : pc suspended = L331) by reflexivity.
  destruct (no_wakeup_is_lost _ _ _ H1) as [_ H].
  destruct (H H2) as (_ & _ & _ & _ & _ & _ & E).
  exact (conj H1 (conj H2 (f_equal pc (E 0)))).
Defined.


(** ** The child is reaped once *)

Arguments reaps : simpl never.
Arguments is_reaped : simpl never.

Lemma reaps_snoc (lg : list effect) (x : effect) :
  reaps (lg ++ [x]) = (reaps lg + (if is_reap x then 1 else 0))%nat.
Proof.
  unfold reaps. rewrite filter_app, length_app. cbn [filter].
  destruct (is_reap x); reflexivity.
Qed.

Lemma is_reaped_kill_child (pid sig : Z) (x : kernel) :
  is_reaped (kill_child pid sig x) = is_reaped (k_child x).
Proof.
  unfold kill_child. destruct (pid =? k_child_pid x); [|reflexivity].
  destruct (k_child x); try reflexivity.
  destruct (sig =? SIGKILL); reflexivity.
Qed.

Lemma inv_reap_wake (s : state) : inv_reap s -> inv_reap (wake s).
Proof.
  unfold inv_reap. rewrite wake_log, wake_child, wake_out. auto.
Qed.

Lemma inv_reap_killed (pid sig : Z) (s : state) :
  inv_reap s -> inv_reap (killed pid sig s).
Proof.
  unfold inv_reap, killed. cbn. rewrite reaps_snoc, is_reaped_kill_child.
  cbn [is_reap]. rewrite Nat.add_0_r. intros [H1 [H2|H2]]; split; auto.
  right. apply kill_child_reaped. exact H2.
Qed.

Lemma inv_reap_frame (s s' : state) :
  inv_reap s -> log s' = log s -> k_child (k s') = k_child (k s) ->
  out s' = out s -> inv_reap s'.
Proof. unfold inv_reap. intros H -> -> ->. exact H. Qed.

Lemma inv_reap_step (e : event) (s : state) :
  inv s -> inv_reap s -> inv_reap (step e s).
Proof.
  intros (Hs & Hd & Hp) H. destruct e as [r|sig v|code|sig core]; cbn [step].
  - unfold inv_reap in H. unfold inv_pc in Hp.
    main_cases s; rewrite ?record_pieces_length; break_all;
      unfold inv_reap; cbn; rewrite ?reaps_snoc; cbn [is_reap];
      rewrite ?Nat.add_0_r; try exact H.
    all: try match goal with
           | Hc : k_child (k _) = _ |- _ => rewrite ?Hc; try exact H
           end.
    all: unfold no_fork_yet, parent_facts in Hp; destruct H as [H1 H2];
      decompose [and] Hp; clear Hp;
      try match goal with
        | Hc : k_child (k _) = _ |- _ => rewrite Hc in H1; rewrite ?Hc
        end;
      try match goal with |- context [0 <? ?p] => replace (0 <? p) with true by lia end;
      split; [exact H1 || (rewrite H1; reflexivity)|tauto].
  - destruct (deliver_cases sig v s); try exact H;
      try (apply inv_reap_wake); try (apply inv_reap_killed);
      try (eapply inv_reap_frame; [exact H|reflexivity..]).
  - unfold child_terminates.
    destruct (k_child (k s)) eqn:Hc; try exact H.
    unfold inv_reap in *. cbn. rewrite Hc in H.
    destruct H as [H1 [H2|H2]]; [split; [exact H1|left; exact H2]|discriminate].
  - unfold child_terminates.
    destruct (valid_signal sig); [|exact H].
    destruct (k_child (k s)) eqn:Hc; try exact H.
    unfold inv_reap in *. cbn. rewrite Hc in H.
    destruct H as [H1 [H2|H2]]; [split; [exact H1|left; exact H2]|discriminate].
Qed.

Lemma inv_reap_reachable (e : environ) (args : list string) (s : state) :
  reachable e args s -> inv_reap s.
Proof.
  revert s. apply reachable_ind.
  - split; [reflexivity|left; reflexivity].
  - intros ev s Hr H. apply inv_reap_step; [|exact H].
    apply inv_reachable in Hr. exact Hr.
Qed.




(** ** The record reports how the child ended *)

Lemma classify_reported (s : state) :
  0 < wait_result (l s) -> status_type (l s) = "unknown" ->
  (status_type (l (classify s)), status (l (classify s))) =
  reported (status (l s)).
Proof.
  intros Hw Hu. unfold classify, reported.
  replace (wait_result (l s) <? 0) with false by lia.
  destruct (WIFEXITED (status (l s))); [reflexivity|].
  destruct (WIFSIGNALED (status (l s))); [|cbn; rewrite Hu; reflexivity].
  cbn. destruct (WCOREDUMP (status (l s))); reflexivity.
Qed.

Lemma reported_exit (code : Z) :
  reported (W_EXITCODE code) = ("exited", Z.land code 255).
Proof.
  assert (H : 0 <= Z.land code 255 <= 255).
  { split; [apply Z.land_nonneg; right; lia|].
    assert (Z.land code 255 < 2 ^ 8); [|lia].
    change 255 with (Z.ones 8). rewrite Z.land_ones by lia.
    apply Z.mod_pos_bound. lia. }
  assert (E : W_EXITCODE code = W_EXITCODE (Z.land code 255)).
  { unfold W_EXITCODE. rewrite <- Z.land_assoc. reflexivity. }
  destruct (exit_status_decoded _ H) as [H1 H2].
  unfold reported. rewrite E, H1, H2. reflexivity.
Qed.

Lemma reported_signal (sig : Z) (core : bool) :
  valid_signal sig = true ->
  reported (W_SIGNALED sig core) =
  (if core then "core_dump" else "killed", sig).
Proof.
  intros H.
  assert (Hs : 1 <= sig <= 126) by (unfold valid_signal, NSIG in H; lia).
  destruct (signal_status_decoded sig core Hs) as (H1 & H2 & H3 & H4).
  unfold reported. rewrite H1, H2, H3, H4. reflexivity.
Qed.

Lemma status_inv_wake (w : Z) (s : state) :
  status_inv w s -> status_inv w (wake s).
Proof.
  intros H. unfold wake. destruct (pc s) eqn:Hpc; try exact H.
  unfold status_inv in *. rewrite Hpc in H. exact H.
Qed.

Lemma status_inv_killed (w pid sig : Z) (s : state) :
  status_inv w s -> status_inv w (killed pid sig s).
Proof.
  unfold status_inv, killed. cbn. intros H.
  destruct (pc s); auto using kill_child_zombie.
Qed.

Lemma status_inv_note (w sig : Z) (s : state) :
  status_inv w s -> status_inv w (on_g (note_timeout sig) s).
Proof. intros H. exact H. Qed.

Lemma status_inv_step (w : Z) (e : event) (s : state) :
  inv s -> status_inv w s -> status_inv w (step e s).
Proof.
  intros (Hs & Hd & Hp) HT. destruct e as [r|sig v|code|sig core]; cbn [step].
  - unfold inv_pc in Hp. unfold status_inv in HT.
    destruct (pc s) eqn:Hpc; try contradiction.
    all: try (unfold main_step; rewrite Hpc; unfold status_inv;
              rewrite Hpc; exact HT).
    all: lazymatch goal with
      | _ : pc _ = L330 |- _ =>
          destruct Hp as ((Hpos & Hpid & _) & _);
          unfold main_step; rewrite Hpc; unfold sys_waitpid;
          rewrite <- Hpid, Z.eqb_refl, HT; cbn;
          replace (k_child_pid (k s) =? 0) with false by lia;
          reflexivity
      | _ : pc _ = L336 |- _ =>
          destruct Hp as (_ & _ & Hu & _ & _ & Hw);
          pose proof (classify_reported s Hw Hu) as Hc;
          unfold main_step; rewrite Hpc; unfold status_inv; cbn;
          rewrite Hc, HT; reflexivity
      | _ : pc _ = L355 |- _ =>
          unfold main_step; rewrite Hpc; unfold c_exit, perror;
          destruct (ret r =? -1); unfold status_inv; cbn; auto;
          intros; discriminate
      | _ : pc _ = L361 _ |- _ =>
          unfold main_step; rewrite Hpc; unfold DPRINTF, c_exit, perror;
          rewrite record_pieces_length; break_all; unfold status_inv; cbn;
          rewrite ?Hpc; auto; intros; discriminate
      | _ =>
          unfold main_step; rewrite Hpc;
          rewrite ?unblock_signal_eq, ?block_cleanup_and_chld_eq;
          try rewrite sys_sigaction_pair;
          unfold settimeout, perror; break_all;
          unfold status_inv; cbn; auto
      end.
  - destruct (deliver_cases sig v s) as [ | | | Hdel _ _ | | | ]; try exact HT.
    + exact I.
    + apply status_inv_wake, HT.
    + pose proof (resolved_positive s sig Hs Hdel).
      unfold status_inv. cbn - [note_timeout Z.add]. intros; lia.
    + apply status_inv_wake, status_inv_killed, status_inv_note, HT.
    + exact I.
    + apply status_inv_wake, status_inv_killed, HT.
  - unfold child_terminates. destruct (k_child (k s)) eqn:Hc; try exact HT.
    unfold status_inv in *. cbn.
    destruct (pc s); auto; congruence.
  - unfold child_terminates.
    destruct (valid_signal sig); [|exact HT].
    destruct (k_child (k s)) eqn:Hc; try exact HT.
    unfold status_inv in *. cbn.
    destruct (pc s); auto; congruence.
Qed.

Lemma status_inv_run (w : Z) (es : list event) :
  forall s, inv s -> status_inv w s ->
            inv (run es s) /\ status_inv w (run es s).
Proof.
  induction es as [|e es IH]; intros s Hi HT; simpl; [split; assumption|].
  apply IH; [apply inv_step, Hi|apply status_inv_step; assumption].
Qed.

Lemma status_inv_next (w : Z) (s : state) :
  inv s -> status_inv w s ->
  pc (main_step (answer 0) s) = next_label (pc s).
Proof.
  intros (Hs & Hd & Hp) HT. unfold inv_pc in Hp. unfold status_inv in HT.
  destruct (pc s) eqn:Hpc; try contradiction.
  all: try (unfold main_step; rewrite Hpc; cbn [next_label]; rewrite ?Hpc;
            reflexivity).
  all: lazymatch goal with
    | _ : pc _ = L330 |- _ =>
        destruct Hp as ((Hpos & Hpid & _) & _);
        unfold main_step; rewrite Hpc; unfold sys_waitpid;
        rewrite <- Hpid, Z.eqb_refl, HT; cbn;
        replace (k_child_pid (k s) =? 0) with false by lia; reflexivity
    | _ : pc _ = L361 _ |- _ =>
        destruct Hp as (_ & _ & _ & _ & Hn & _);
        assert (Hlt : (n < List.length (record_pieces (g s) (l s)))%nat)
          by (rewrite record_pieces_length; exact Hn);
        apply nth_error_Some in Hlt;
        destruct (nth_error (record_pieces (g s) (l s)) n) as [t|] eqn:Hnth;
          [|congruence];
        rewrite (main_step_print n (answer 0) s t Hpc Hnth)
          by (unfold succeeds; cbn; lia);
        reflexivity
    | _ =>
        unfold main_step; rewrite Hpc; try rewrite sys_sigaction_pair;
        reflexivity
    end.
Qed.

Lemma status_inv_ticks (w : Z) (n : nat) :
  forall s, inv s -> status_inv w s ->
            pc (run (ticks n) s) = Nat.iter n next_label (pc s).
Proof.
  induction n as [|n IH]; intros s Hi HT; [reflexivity|].
  change (ticks (S n)) with (Tick (answer 0) :: ticks n). cbn [run step].
  rewrite IH by (apply inv_step with (e := Tick (answer 0)), Hi
                 || apply status_inv_step with (e := Tick (answer 0));
                    assumption).
  rewrite (status_inv_next w s Hi HT). symmetry. apply Nat.iter_succ_r.
Qed.

Lemma printed_15_not_empty (x : globals) (y : locals) :
  printed 15 x y <> EmptyString.
Proof.
  change (printed 15 x y) with (record_text x y). rewrite record_text_json.
  unfold json_line. discriminate.
Qed.

(** When the child of a reachable state terminates, the supervisor is
    between [fork] and [sigsuspend], or has ended already without a
    record. *)
Lemma status_inv_start (w : Z) (s : state) :
  inv s -> inv_reap s -> k_child (k s) = Running ->
  status_inv w (child_terminates w s) /\
  (live (pc s) = true -> In (pc s) [L311; L318; L323; L328; L330; L331]).
Proof.
  intros (_ & _ & Hp) [_ Ho] Hc. unfold child_terminates. rewrite Hc.
  unfold status_inv. cbn. unfold inv_pc, no_fork_yet in Hp.
  destruct (pc s) eqn:Hpc; cbn; auto 8;
    try (exfalso; decompose [and] Hp; congruence).
  all: split; [|discriminate]; try exact I.
  intros ->.
  change (0 =? 0) with true in Hp. cbv iota in Hp. destruct Hp as [Hp _].
  exfalso. destruct Ho as [Ho|Ho]; [|congruence].
  rewrite Ho in Hp. symmetry in Hp. exact (printed_15_not_empty _ _ Hp).
Qed.

(** SIGCHLD makes [sigsuspend] return, and moves nothing else. *)
Lemma deliver_chld_pc (v : Z) (s : state) :
  inv_chld s -> In (pc s) [L311; L318; L323; L328; L330; L331] ->
  In (pc (deliver SIGCHLD v s)) [L311; L318; L323; L328; L330].
Proof.
  intros Hc Hpc. unfold inv_chld in Hc. unfold deliver.
  destruct (deliverable s SIGCHLD) eqn:Hd; cbn [negb].
  - assert (Hh : k_disp (k s) SIGCHLD = SigHandler Hchld).
    { cbn [In] in Hpc. decompose [or] Hpc; try contradiction;
        match goal with H : _ = pc _ |- _ => rewrite <- H in Hc end;
        apply Hc. }
    rewrite Hh. cbn [run_handler]. unfold chld.
    cbn [In] in Hpc. decompose [or] Hpc; try contradiction;
      match goal with H : _ = pc _ |- _ => rewrite <- H end; simpl; tauto.
  - unfold deliverable in Hd.
    cbn [In] in Hpc. decompose [or] Hpc; try contradiction;
      match goal with H : _ = pc _ |- _ => rewrite <- H in * end;
      simpl; try tauto.
    exfalso. destruct Hc as (_ & Ho & _). unfold chld_open in Ho.
    rewrite Ho in Hd. discriminate.
Qed.

Lemma inv_chld_child_terminates (w : Z) (s : state) :
  inv_chld s -> inv_chld (child_terminates w s).
Proof.
  intros H. unfold child_terminates. destruct (k_child (k s)); exact H.
Qed.




(** ** Where [timed_out] comes from *)

Lemma main_step_timed_out (r : os_result) (s : state) :
  timed_out (g (main_step r s)) = timed_out (g s).
Proof.
  main_cases s; rewrite ?record_pieces_length; break_all; reflexivity.
Qed.

Lemma main_step_log (r : os_result) (s : state) (x : effect) :
  In x (log s) -> In x (log (main_step r s)).
Proof.
  intros H. main_cases s; rewrite ?record_pieces_length; break_all; cbn;
    repeat apply in_snoc; exact H.
Qed.

Lemma main_step_pid (r : os_result) (s : state) :
  inv s -> monitored_pid (g s) <> 0 ->
  monitored_pid (g (main_step r s)) = monitored_pid (g s).
Proof.
  intros (_ & _ & Hp) Hpid. unfold inv_pc, no_fork_yet in Hp.
  main_cases s; rewrite ?record_pieces_length; break_all; cbn;
    try reflexivity; tauto.
Qed.

(** A process that is running has no child to signal, or knows it by a
    positive number. *)
Lemma monitored_pid_sign (s : state) :
  inv s -> live (pc s) = true ->
  monitored_pid (g s) = 0 \/ 0 < monitored_pid (g s).
Proof.
  intros (_ & _ & Hp) Hl. unfold inv_pc, no_fork_yet, parent_facts in Hp.
  destruct (pc s); try discriminate; tauto.
Qed.

Lemma step_timed_out (ev : event) (s : state) :
  timed_out (g (step ev s)) = timed_out (g s) \/
  (timed_out (g (step ev s)) = 1 /\ exists v, ev = Deliver SIGALRM v).
Proof.
  destruct ev as [r|sig v|code|sig core]; cbn [step].
  - left. apply main_step_timed_out.
  - assert (N : timed_out (note_timeout sig (g s)) = timed_out (g s) \/
                (timed_out (note_timeout sig (g s)) = 1 /\
                 exists v0, Deliver sig v = Deliver SIGALRM v0)).
    { unfold note_timeout. destruct (sig =? SIGALRM) eqn:E; [right|left; reflexivity].
      split; [reflexivity|]. exists v. f_equal. lia. }
    destruct (deliver_cases sig v s); unfold killed; rewrite ?wake_g; cbn;
      auto.
  - left. unfold child_terminates. destruct (k_child (k s)); reflexivity.
  - left. unfold child_terminates.
    destruct (valid_signal sig); [destruct (k_child (k s))|]; reflexivity.
Qed.

Lemma run_timed_out (es : list event) :
  forall s,
    timed_out (g (run es s)) = timed_out (g s) \/
    (timed_out (g (run es s)) = 1 /\ exists v, In (Deliver SIGALRM v) es).
Proof.
  induction es as [|ev es IH]; intros s; cbn [run]; [left; reflexivity|].
  destruct (IH (step ev s)) as [E|[E [v Hv]]].
  - rewrite E. destruct (step_timed_out ev s) as [E'|[E' [v ->]]]; [auto|].
    right. split; [exact E'|]. exists v. left. reflexivity.
  - right. split; [exact E|]. exists v. right. exact Hv.
Qed.

Lemma inv_timed_out_step (ev : event) (s : state) :
  inv s -> inv_timed_out s -> inv_timed_out (step ev s).
Proof.
  intros Hi H.
  destruct (live (pc s)) eqn:Hlive.
  2:{ destruct (step_dead ev s Hlive) as (E1 & E2 & _ & _ & E5).
      unfold inv_timed_out. rewrite E1, E2, E5. exact H. }
  assert (H' : timed_out (g s) = 0 \/
               (timed_out (g s) = 1 /\ 0 < monitored_pid (g s) /\
                exists target,
                  In (SysKill (monitored_pid (g s)) SIGKILL target) (log s))).
  { destruct H as [H|(H1 & [H2|H2])]; [auto| |auto].
    rewrite H2 in Hlive. discriminate. }
  clear H. unfold inv_timed_out.
  destruct ev as [r|sig v|code|sig core]; cbn [step].
  - rewrite main_step_timed_out.
    destruct H' as [H|(H1 & H2 & t & H3)]; [auto|]. right.
    split; [exact H1|]. right.
    rewrite main_step_pid by (exact Hi || lia).
    split; [exact H2|]. exists t. apply main_step_log. exact H3.
  - destruct Hi as (Hs & Hd & Hp).
    destruct (deliver_cases sig v s)
      as [ | Hdel Hk | Hdel Hk | Hdel Hk Hpid | Hdel Hk Hpid | Hdel Hk Hne
         | Hdel Hk He ];
      unfold killed; rewrite ?wake_g, ?wake_log; cbn [g log pc goto on_g on_k emit c_exit];
      rewrite ?note_timeout_pid.
    + destruct H' as [H|(H1 & H2)]; auto.
    + destruct H' as [H|(H1 & H2)]; auto.
    + destruct H' as [H|(H1 & H2)]; auto.
    + destruct H' as [H|(H1 & H2 & _)]; [|lia].
      unfold note_timeout, resolved. destruct (sig =? SIGALRM); [|auto].
      right. split; [reflexivity|]. left. destruct Hs as [-> _]. reflexivity.
    + assert (Hpos : 0 < monitored_pid (g s)).
      { destruct (monitored_pid_sign s (conj Hs (conj Hd Hp)) Hlive); lia. }
      unfold note_timeout, resolved. destruct (sig =? SIGALRM).
      * right. split; [reflexivity|]. right. split; [exact Hpos|].
        exists (k_child (k s)). apply in_or_app. right. left.
        destruct Hs as [-> _]. reflexivity.
      * destruct H' as [H|(H1 & H2 & t & H3)]; [auto|].
        right. split; [exact H1|]. right. split; [exact H2|].
        exists t. apply in_snoc. exact H3.
    + destruct H' as [H|(H1 & H2)]; auto.
    + destruct H' as [H|(H1 & H2 & t & H3)]; [auto|].
      right. split; [exact H1|]. right. split; [exact H2|].
      exists t. apply in_snoc. exact H3.
  - unfold child_terminates. destruct (k_child (k s)); cbn;
      (destruct H' as [H|H]; [left; exact H|right; split; [apply H|right; apply H]]).
  - unfold child_terminates.
    destruct (valid_signal sig); [destruct (k_child (k s))|]; cbn;
      (destruct H' as [H|H]; [left; exact H|right; split; [apply H|right; apply H]]).
Qed.

Lemma inv_timed_out_reachable (e : environ) (args : list string) (s : state) :
  reachable e args s -> inv_timed_out s.
Proof.
  revert s. apply reachable_ind.
  - left. reflexivity.
  - intros ev s Hr H. apply inv_timed_out_step; [|exact H].
    apply inv_reachable in Hr. exact Hr.
Qed.



(** ** The child before [execlp] *)

Lemma inv_child_side_wake (s : state) :
  inv_child_side s -> inv_child_side (wake s).
Proof.
  intros H. unfold wake. destruct (pc s) eqn:Hpc; try exact H. exact I.
Qed.

Lemma inv_child_side_frame (s s' : state) :
  inv_child_side s -> pc s' = pc s -> live (pc s) = true ->
  k_disp (k s') = k_disp (k s) -> k_open (k s') = k_open (k s) ->
  fd (l s') = fd (l s) -> inv_child_side s'.
Proof.
  unfold inv_child_side. intros H -> Hl -> -> ->.
  destruct (pc s); try exact H. discriminate.
Qed.

Lemma deliver_dead (sig v : Z) (s : state) :
  live (pc s) = false -> deliver sig v s = s.
Proof.
  intros H. unfold deliver, deliverable. rewrite H. reflexivity.
Qed.

Lemma inv_child_side_step (ev : event) (s : state) :
  inv s -> inv_child_side s -> inv_child_side (step ev s).
Proof.
  intros (Hs & Hd & Hp) H.
  destruct ev as [r|sig v|code|sig core]; cbn [step].
  - unfold inv_child_side in H. unfold inv_pc in Hp.
    main_cases s; rewrite ?record_pieces_length; break_all;
      unfold inv_child_side; cbn; rewrite ?Hpc; auto.
    + unfold update. rewrite Z.eqb_refl. tauto.
    + repeat (split; [tauto|]). apply in_or_app. right. left. reflexivity.
  - destruct (live (pc s)) eqn:Hlive; [|rewrite deliver_dead; assumption].
    destruct (deliver_cases sig v s); try exact H; try exact I;
      try apply inv_child_side_wake; unfold killed;
      (eapply inv_child_side_frame; [exact H|reflexivity|assumption|reflexivity..]).
  - unfold child_terminates. destruct (k_child (k s)); exact H.
  - unfold child_terminates.
    destruct (valid_signal sig); [destruct (k_child (k s))|]; exact H.
Qed.

Lemma inv_child_side_reachable (e : environ) (args : list string)
      (s : state) :
  reachable e args s -> inv_child_side s.
Proof.
  revert s. apply reachable_ind; [exact I|].
  intros ev s Hr H. apply inv_child_side_step; [|exact H].
  apply inv_reachable in Hr. exact Hr.
Qed.

(** X11: when the child becomes /ATO/runner, SIGTTIN and SIGTTOU have
    their default action again (whatever the supervisor inherited and set
    for itself), the descriptor of the record is closed in the child, and
    the child has written nothing to it. *)
Theorem runner_starts_clean (e : environ) (args : list string) (s : state) :
  reachable e args s -> pc s = Execed ->
  k_disp (k s) SIGTTIN = SIG_DFL /\ k_disp (k s) SIGTTOU = SIG_DFL /\
  k_open (k s) (fd (l s)) = false /\
  out s = EmptyString /\ monitored_pid (g s) = 0 /\
  In (SysExec "/ATO/runner") (log s).
Proof.
  intros Hr Hpc. apply inv_child_side_reachable in Hr.
  unfold inv_child_side in Hr. rewrite Hpc in Hr. exact Hr.
Qed.

Lemma runner_starts_clean_witness :
  let s := run (ticks 13) (init plain_environ example_args) in
  reachable plain_environ example_args s /\ pc s = Execed /\
  k_open (k s) (fd (l s)) = false.
Proof.
  cbv zeta.
  assert (H1 : reachable plain_environ example_args
                 (run (ticks 13) (init plain_environ example_args)))
    by (exists (ticks 13); reflexivity).
  assert (H2 : pc (run (ticks 13) (init plain_environ example_args)) = Execed)
    by reflexivity.
  destruct (runner_starts_clean _ _ _ H1 H2) as (_ & _ & H & _).
  exact (conj H1 (conj H2 H)).
Defined.


(** ** The signals the process sends *)

Lemma parent_of_positive_pid (s : state) :
  inv s -> live (pc s) = true -> 0 < monitored_pid (g s) -> parent_facts s.
Proof.
  intros (_ & _ & Hp) Hl Hpos. unfold inv_pc, no_fork_yet in Hp.
  destruct (pc s); try discriminate; try tauto; lia.
Qed.

Lemma inv_kill_step (ev : event) (s : state) :
  inv s -> inv_kill s -> inv_kill (step ev s).
Proof.
  intros Hi H.
  destruct (live (pc s)) eqn:Hlive.
  2:{ destruct (step_dead ev s Hlive) as (_ & E2 & _ & _ & E5).
      unfold inv_kill. rewrite E2, E5. exact H. }
  destruct ev as [r|sig v|code|sig core]; cbn [step].
  - destruct Hi as (Hs & Hd & Hp). unfold inv_pc, no_fork_yet in Hp.
    unfold inv_kill in *.
    main_cases s; rewrite ?record_pieces_length; break_all; cbn;
      intros pid sg t Hin;
      repeat (apply in_app_or in Hin as [Hin|[Hin|[]]]; [|discriminate Hin]);
      try (destruct (H _ _ _ Hin) as (H1 & H2 & H3);
           repeat split; auto; repeat apply in_snoc; exact H3).
    all: destruct (H _ _ _ Hin) as (H1 & H2 & H3); exfalso; lia.
  - assert (K : forall sg,
               monitored_pid (g s) <> 0 -> inv_kill (killed (monitored_pid (g s)) sg s)).
    { intros sg Hne pid sg' t Hin. unfold killed in Hin. cbn in Hin.
      assert (Hpos : 0 < monitored_pid (g s))
        by (destruct (monitored_pid_sign s Hi Hlive); lia).
      destruct (parent_of_positive_pid s Hi Hlive Hpos) as (_ & _ & Hf).
      unfold killed. cbn.
      apply in_app_or in Hin as [Hin|[Hin|[]]].
      - destruct (H _ _ _ Hin) as (H1 & H2 & H3).
        repeat split; auto. apply in_snoc. exact H3.
      - injection Hin as <- _ _. repeat split; auto. apply in_snoc. exact Hf. }
    destruct (deliver_cases sig v s)
      as [ | Hdel Hk | Hdel Hk | Hdel Hk Hpid | Hdel Hk Hpid | Hdel Hk Hne
         | Hdel Hk He ]; try exact H.
    + unfold inv_kill. rewrite wake_log, wake_g. exact H.
    + unfold inv_kill. cbn. rewrite note_timeout_pid. exact H.
    + unfold inv_kill. rewrite wake_log, wake_g.
      specialize (K (resolved sig (g s)) Hpid).
      unfold inv_kill, killed in *. cbn in *. rewrite note_timeout_pid.
      exact K.
    + unfold inv_kill. rewrite wake_log, wake_g. apply K.
      destruct Hi as (_ & Hd & _). apply Hd in Hk.
      destruct Hk as (_ & Hpos & _). lia.
  - unfold child_terminates. destruct (k_child (k s)); exact H.
  - unfold child_terminates.
    destruct (valid_signal sig); [destruct (k_child (k s))|]; exact H.
Qed.

Lemma inv_kill_reachable (e : environ) (args : list string) (s : state) :
  reachable e args s -> inv_kill s.
Proof.
  revert s. apply reachable_ind.
  - intros pid sig t [].
  - intros ev s Hr H. apply inv_kill_step; [|exact H].
    apply inv_reachable in Hr. exact Hr.
Qed.



(** ** The deadline *)

Arguments settimeout_calls : simpl never.

Lemma settimeout_calls_snoc (lg : list effect) (x : effect) :
  settimeout_calls (lg ++ [x]) =
  (settimeout_calls lg + (if is_timer_create x then 1 else 0))%nat.
Proof.
  unfold settimeout_calls. rewrite filter_app, length_app. cbn [filter].
  destruct (is_timer_create x); reflexivity.
Qed.

Lemma inv_deadline_frame (s s' : state) :
  inv_deadline s -> log s' = log s ->
  monitored_pid (g s') = monitored_pid (g s) ->
  timeout_secs (g s') = timeout_secs (g s) ->
  (before_settimeout (pc s') = true -> before_settimeout (pc s) = true) ->
  inv_deadline s'.
Proof.
  unfold inv_deadline. intros (H1 & H2 & H3 & H4) -> -> -> Hpc.
  repeat split; auto; apply H4; assumption.
Qed.

(** One more effect that is not of [settimeout]. *)
Lemma inv_deadline_emit (s s' : state) (x : effect) :
  inv_deadline s -> log s' = (log s ++ [x])%list ->
  is_timer_create x = false -> deadline x = None ->
  monitored_pid (g s') = monitored_pid (g s) ->
  timeout_secs (g s') = timeout_secs (g s) ->
  (before_settimeout (pc s') = true -> before_settimeout (pc s) = true) ->
  inv_deadline s'.
Proof.
  unfold inv_deadline. intros (H1 & H2 & H3 & H4) -> Hx Hd -> -> Hpc.
  rewrite settimeout_calls_snoc, Hx, Nat.add_0_r.
  split; [exact H1|]. split; [auto|]. split.
  - intros H0 y Hy. apply in_app_or in Hy as [Hy|[<-|[]]]; auto.
  - intros E. destruct (H4 E) as (A & B & C & D).
    split; [exact A|]. split; [apply in_snoc; exact B|]. split; [exact C|].
    intros y n Hy Hn. apply in_app_or in Hy as [Hy|[<-|[]]]; [eauto|].
    congruence.
Qed.


Ltac in_log H :=
  repeat (apply in_app_or in H as [H|[H|[]]]).

Lemma inv_deadline_wake (s : state) : inv_deadline s -> inv_deadline (wake s).
Proof.
  intros H.
  apply (inv_deadline_frame s);
    [exact H|apply wake_log|rewrite wake_g; reflexivity
    |rewrite wake_g; reflexivity|].
  unfold wake. destruct (pc s) eqn:E; cbn; rewrite ?E; auto.
Qed.

Lemma inv_deadline_killed (pid sig : Z) (s : state) :
  inv_deadline s -> inv_deadline (killed pid sig s).
Proof.
  intros H.
  apply (inv_deadline_emit s _ (SysKill pid sig (k_child (k s))));
    [exact H|reflexivity|reflexivity|reflexivity|reflexivity|reflexivity
    |auto].
Qed.

Lemma inv_deadline_note (sig : Z) (s : state) :
  inv_deadline s -> inv_deadline (on_g (note_timeout sig) s).
Proof.
  intros H.
  apply (inv_deadline_frame s);
    [exact H|reflexivity|apply note_timeout_pid| |auto].
  destruct (note_timeout_frame sig (g s)) as (_ & E & _). exact E.
Qed.

Lemma inv_deadline_dead (p : label) (s : state) :
  before_settimeout p = false -> inv_deadline s -> inv_deadline (goto p s).
Proof.
  intros Hp H.
  apply (inv_deadline_frame s);
    [exact H|reflexivity|reflexivity|reflexivity|cbn; congruence].
Qed.

Lemma inv_deadline_step (ev : event) (s : state) :
  inv s -> inv_timeout s -> inv_deadline s -> inv_deadline (step ev s).
Proof.
  intros Hi Ht H.
  destruct ev as [r|sig v|code|sig core]; cbn [step].
  - destruct Hi as (Hs & Hd & Hp). destruct H as (H1 & H2 & H3 & H4).
    unfold inv_pc, no_fork_yet, parent_facts in Hp. unfold inv_timeout in Ht.
    main_cases s; rewrite ?record_pieces_length; break_all;
      unfold inv_deadline; cbn;
      rewrite ?settimeout_calls_snoc; cbn [is_timer_create];
      rewrite ?Nat.add_0_r, ?Hpc.
    all: try (repeat split; assumption).
    all: try (assert (E0 : settimeout_calls (log s) = 0%nat)
                by (apply H2; reflexivity)).
    all: try solve
      [ split; [exact H1|];
        split; [first [intros _; exact E0|intros; discriminate]|];
        split;
        [ intros _ x0 Hx; in_log Hx; try (apply H3; assumption);
          subst; reflexivity
        | intros E1; rewrite E0 in E1; discriminate ] ].
    all: try solve
      [ split; [exact H1|];
        split; [intros; discriminate|];
        split;
        [ intros E x0 Hx; in_log Hx; try (apply H3; assumption);
          subst; reflexivity
        | intros E; destruct (H4 E) as (A & B & C & D);
          split; [exact A|]; split; [repeat apply in_snoc; exact B|];
          split; [exact C|];
          intros x0 m0 Hx Hm; in_log Hx; try (eapply D; eassumption);
          subst; discriminate ] ].
    (* the call of settimeout *)
    all: rewrite E0; cbn [Nat.add];
      destruct Hp as ((A & _ & B) & _);
      split; [lia|]; split; [intros; discriminate|];
      split; [intros; discriminate|]; intros _;
      split; [exact A|]; split; [repeat apply in_snoc; exact B|];
      split; [exact Ht|];
      intros x0 m0 Hx Hm; in_log Hx;
      try (rewrite (H3 E0 x0 Hx) in Hm; discriminate);
      subst x0; cbn in Hm; try discriminate; injection Hm as <-; reflexivity.
  - destruct (deliver_cases sig v s); try exact H.
    + apply inv_deadline_dead; [reflexivity|exact H].
    + apply inv_deadline_wake, H.
    + apply (inv_deadline_dead (Exited _)); [reflexivity|].
      apply inv_deadline_note, H.
    + apply inv_deadline_wake, inv_deadline_killed, inv_deadline_note, H.
    + apply inv_deadline_dead; [reflexivity|exact H].
    + apply inv_deadline_wake, inv_deadline_killed, H.
  - unfold child_terminates. destruct (k_child (k s)); exact H.
  - unfold child_terminates.
    destruct (valid_signal sig); [destruct (k_child (k s))|]; exact H.
Qed.

Lemma inv_deadline_reachable (e : environ) (args : list string) (s : state) :
  reachable e args s -> inv_deadline s.
Proof.
  revert s. apply reachable_ind.
  - unfold inv_deadline. cbn. change (settimeout_calls []) with 0%nat.
    split; [lia|]. split; [reflexivity|]. split; [intros _ x []|].
    intros E. discriminate E.
  - intros ev s Hr H. apply inv_deadline_step; [| |exact H].
    + apply inv_reachable in Hr. exact Hr.
    + apply inv_timeout_reachable in Hr. exact Hr.
Qed.

(** X13: the deadline is set once.  [settimeout] is called at most once in
    a run and only by the parent, after [fork] has returned the number of
    the child; and all that it ever asks of the kernel, be it through
    [timer_settime] or through the fallback [alarm], is the timeout of the
    command line, which is between 1 and 60 seconds. *)
Theorem deadline_is_set_once (e : environ) (args : list string) (s : state) :
  reachable e args s ->
  (settimeout_calls (log s) <= 1)%nat /\
  forall x n,
    In x (log s) -> deadline x = Some n ->
    n = timeout_secs (g s) /\ 1 <= n <= MAX_TIMEOUT_SECS /\
    0 < monitored_pid (g s) /\ In (SysFork (monitored_pid (g s))) (log s).
Proof.
  intros Hr. apply inv_deadline_reachable in Hr as (H1 & _ & H3 & H4).
  split; [exact H1|]. intros x n Hx Hn.
  assert (E : settimeout_calls (log s) = 0%nat \/
              settimeout_calls (log s) = 1%nat) by lia.
  destruct E as [E|E].
  - rewrite (H3 E x Hx) in Hn. discriminate.
  - destruct (H4 E) as (A & B & C & D).
    rewrite (D x n Hx Hn). auto.
Qed.

Lemma deadline_is_set_once_witness :
  reachable plain_environ example_args suspended /\
  In (SysTimerSettime 10) (log suspended) /\
  10 = timeout_secs (g suspended).
Proof.
  assert (H1 : reachable plain_environ example_args suspended)
    by (exists until_suspended; reflexivity).
  assert (H2 : In (SysTimerSettime 10) (log suspended))
    by (vm_compute; tauto).
  destruct (deadline_is_set_once _ _ _ H1) as [_ H].
  exact (conj H1 (conj H2 (proj1 (H _ 10 H2 eq_refl)))).
Defined.


(** ** The signal sets the program builds *)

Lemma sigismember_empty (x : Z) : sigismember sigemptyset x = false.
Proof.
  unfold sigismember, sigemptyset. rewrite Z.bits_0. apply andb_false_r.
Qed.

Lemma sigismember_sigaddset (set : sigset) (a x : Z) :
  sigismember (sigaddset set a) x =
  sigismember set x || (valid_signal x && (x =? a)).
Proof.
  unfold sigismember, sigaddset.
  destruct (valid_signal x) eqn:Hx; cbn [andb]; [|reflexivity].
  destruct (valid_signal a) eqn:Ha.
  - rewrite Z.lor_spec. f_equal. unfold sigbit.
    unfold valid_signal in Hx, Ha.
    rewrite Z.shiftl_1_l, Z.pow2_bits_eqb by lia.
    destruct (x =? a) eqn:E; lia.
  - destruct (x =? a) eqn:E; [|rewrite orb_false_r; reflexivity].
    assert (x = a) by lia. subst. congruence.
Qed.

Lemma sigismember_block_set (sigterm x : Z) :
  sigismember (block_set sigterm) x =
  valid_signal x && existsb (Z.eqb x) (block_list sigterm).
Proof.
  unfold block_set, block_list. cbv zeta.
  rewrite !sigismember_sigaddset, sigismember_empty. cbn [existsb orb].
  destruct (valid_signal x); cbn [andb orb]; [|reflexivity].
  rewrite orb_false_r, <- !orb_assoc. reflexivity.
Qed.

Lemma sigismember_unblockable (x : Z) :
  sigismember unblockable x = (x =? SIGKILL) || (x =? SIGSTOP).
Proof.
  change unblockable
    with (sigaddset (sigaddset sigemptyset SIGKILL) SIGSTOP).
  rewrite !sigismember_sigaddset, sigismember_empty. cbn [orb].
  destruct (valid_signal x) eqn:Hx; cbn [andb]; [reflexivity|].
  unfold valid_signal, NSIG, SIGKILL, SIGSTOP in *. lia.
Qed.

Lemma sigismember_ldiff (m set : sigset) (x : Z) :
  sigismember (Z.ldiff m set) x = sigismember m x && negb (sigismember set x).
Proof.
  unfold sigismember. rewrite Z.ldiff_spec.
  destruct (valid_signal x); cbn [andb]; reflexivity.
Qed.

Lemma sigismember_lor (m set : sigset) (x : Z) :
  sigismember (Z.lor m set) x = sigismember m x || sigismember set x.
Proof.
  unfold sigismember. rewrite Z.lor_spec.
  destruct (valid_signal x); cbn [andb]; reflexivity.
Qed.




(** ** The supervisor and the signals it gets *)

Lemma inv_tty_wake (s : state) : inv_tty s -> inv_tty (wake s).
Proof.
  intros H. unfold wake. destruct (pc s) eqn:Hpc; try exact H.
  unfold inv_tty in *. rewrite Hpc in H. exact H.
Qed.

Lemma inv_tty_frame (s s' : state) :
  inv_tty s -> pc s' = pc s -> k_disp (k s') = k_disp (k s) -> inv_tty s'.
Proof. unfold inv_tty. intros H -> ->. exact H. Qed.

Lemma inv_tty_step (ev : event) (s : state) :
  inv_tty s -> inv_tty (step ev s).
Proof.
  intros H. destruct ev as [r|sig v|code|sig core]; cbn [step].
  - unfold inv_tty in H.
    main_cases s; rewrite ?record_pieces_length; break_all;
      unfold inv_tty; cbn; rewrite ?Hpc; auto; tauto.
  - destruct (deliver_cases sig v s); try exact H; try exact I;
      apply inv_tty_wake; unfold killed;
      (eapply inv_tty_frame; [exact H|reflexivity..]).
  - unfold child_terminates. destruct (k_child (k s)); exact H.
  - unfold child_terminates.
    destruct (valid_signal sig); [destruct (k_child (k s))|]; exact H.
Qed.

Lemma inv_tty_reachable (e : environ) (args : list string) (s : state) :
  reachable e args s -> inv_tty s.
Proof.
  revert s. apply reachable_ind; [exact I|].
  intros ev s _ H. apply inv_tty_step, H.
Qed.

(** A supervisor that runs and has a child is past [fork], in the
    parent. *)
Lemma parent_of_child (s : state) :
  inv s -> live (pc s) = true -> k_child (k s) <> NoChild ->
  parent_facts s /\
  In (pc s) [L311; L318; L323; L328; L330; L331; L334; L336; L355] \/
  parent_facts s /\ exists n, pc s = L361 n.
Proof.
  intros (_ & _ & Hp) Hl Hc. unfold inv_pc, no_fork_yet in Hp.
  destruct (pc s) eqn:Hpc; try discriminate;
    try (exfalso; apply Hc; tauto);
    try (left; split; [tauto|simpl; tauto]).
  right. split; [tauto|]. exists n. reflexivity.
Qed.



(** X17: once the child has been reaped, [cleanup] does not run any more:
    a signal that it handles stays pending, whatever its number, and the
    state of the process does not change.  So [cleanup] never signals a
    process number that the kernel may have given to somebody else. *)
Theorem cleanup_does_not_run_after_reap (e : environ) (args : list string)
        (s : state) (sig v : Z) :
  reachable e args s -> k_child (k s) = Reaped ->
  k_disp (k s) sig = SigHandler Hcleanup ->
  deliver sig v s = s.
Proof.
  intros Hr Hc Hk.
  pose proof (cleanup_blocked_after_reap _ _ _ _ Hr Hc Hk) as Hd.
  unfold deliver. rewrite Hd. reflexivity.
Qed.

Lemma cleanup_does_not_run_after_reap_witness :
  reachable plain_environ example_args reaped_exit3 /\
  k_child (k reaped_exit3) = Reaped /\
  k_disp (k reaped_exit3) SIGTERM = SigHandler Hcleanup /\
  deliver SIGTERM 0 reaped_exit3 = reaped_exit3.
Proof.
  assert (H1 : reachable plain_environ example_args reaped_exit3)
    by (eexists; reflexivity).
  assert (H2 : k_child (k reaped_exit3) = Reaped) by reflexivity.
  assert (H3 : k_disp (k reaped_exit3) SIGTERM = SigHandler Hcleanup)
    by reflexivity.
  exact (conj H1 (conj H2 (conj H3
           (cleanup_does_not_run_after_reap _ _ _ SIGTERM 0 H1 H2 H3)))).
Defined.


(** ** The newline of the record *)

Lemma lines_pieces (x : globals) (y : locals) :
  In (status_type y) status_types ->
  map lines (record_pieces x y) = (repeat 0 14 ++ [1])%nat%list.
Proof.
  intros Hst. unfold record_pieces, record_fields.
  cbn [field_pieces app map]. unfold field, record_close.
  rewrite ?lines_app, ?lines_fmt_d, ?(lines_status_type _ Hst).
  destruct (negb (timed_out x =? 0)); reflexivity.
Qed.

Lemma lines_piece (x : globals) (y : locals) (n : nat) (t : string) :
  In (status_type y) status_types ->
  nth_error (record_pieces x y) n = Some t ->
  lines t = if Nat.eqb n 14 then 1%nat else 0%nat.
Proof.
  intros Hst H. apply (map_nth_error lines) in H.
  rewrite (lines_pieces x y Hst) in H.
  do 15 (destruct n as [|n];
         [cbn in H; injection H as H; rewrite <- H; reflexivity|]).
  cbn in H. destruct n; discriminate H.
Qed.

(** A statement of [main] writes nothing, or it is a call of [DPRINTF] that
    succeeds and writes its piece of the record. *)
Lemma main_step_out (r : os_result) (s : state) :
  live (pc s) = true ->
  (out (main_step r s) = out s /\ returned_0 (pc (main_step r s)) = false) \/
  (exists n t,
      pc s = L361 n /\ nth_error (record_pieces (g s) (l s)) n = Some t /\
      out (main_step r s) = out s ++ t /\
      pc (main_step r s) = if Nat.eqb (S n) 15 then Exited 0 else L361 (S n)).
Proof.
  intros Hlive.
  main_cases s; rewrite ?record_pieces_length; break_all;
    try absurd_test; try discriminate Hlive; cbn; rewrite ?Hpc;
    try (left; split; reflexivity).
  - left. split; [reflexivity|].
    match goal with
    | H : main_parse _ = Exit _ |- _ => apply main_parse_exit in H; subst
    end.
    reflexivity.
  - right. exists n, s0. split; [reflexivity|]. split; [exact Heqo|].
    split; [reflexivity|]. cbn in Heqb0 |- *. rewrite Heqb0. reflexivity.
  - right. exists n, s0. split; [reflexivity|]. split; [exact Heqo|].
    split; [reflexivity|]. cbn in Heqb0 |- *. rewrite Heqb0. reflexivity.
Qed.

Arguments lines : simpl never.

Lemma live_not_returned (p : label) : live p = true -> returned_0 p = false.
Proof. destruct p; try reflexivity; discriminate. Qed.

Lemma inv_line_step (ev : event) (s : state) :
  inv s ->
  lines (out s) = (if returned_0 (pc s) then 1 else 0)%nat ->
  lines (out (step ev s)) = (if returned_0 (pc (step ev s)) then 1 else 0)%nat.
Proof.
  intros Hi H.
  destruct (live (pc s)) eqn:Hlive.
  2:{ destruct (step_dead ev s Hlive) as (-> & _ & _ & -> & _). exact H. }
  assert (H0 : lines (out s) = 0%nat).
  { rewrite H. revert Hlive. destruct (pc s); try reflexivity; discriminate. }
  clear H. destruct ev as [r|sig v|code|sig core]; cbn [step].
  - destruct (main_step_out r s Hlive) as [[-> ->]|(n & t & Hpc & Ht & -> & ->)];
      [exact H0|].
    destruct Hi as (_ & _ & Hp). unfold inv_pc in Hp. rewrite Hpc in Hp.
    destruct Hp as (_ & Hst & _).
    rewrite lines_app, H0, (lines_piece _ _ _ _ Hst Ht).
    change (Nat.eqb (S n) 15) with (Nat.eqb n 14).
    destruct (Nat.eqb n 14); reflexivity.
  - destruct Hi as (Hs & _ & _).
    destruct (deliver_cases sig v s) as [ | | | Hdel _ _ | | | ].
    + rewrite H0, live_not_returned by exact Hlive. reflexivity.
    + exact H0.
    + rewrite wake_out, H0, live_not_returned by (apply wake_live, Hlive).
      reflexivity.
    + pose proof (resolved_positive s sig Hs Hdel) as Hpos.
      unfold c_exit. cbn [out pc goto on_g returned_0]. rewrite H0.
      replace (128 + resolved sig (g s) =? 0) with false by lia. reflexivity.
    + rewrite wake_out, live_not_returned by (apply wake_live, Hlive).
      exact H0.
    + exact H0.
    + rewrite wake_out, live_not_returned by (apply wake_live, Hlive).
      exact H0.
  - unfold child_terminates.
    destruct (k_child (k s)); cbn; rewrite H0; revert Hlive;
      destruct (pc s); try reflexivity; discriminate.
  - unfold child_terminates.
    destruct (valid_signal sig); [destruct (k_child (k s))|]; cbn; rewrite H0;
      revert Hlive; destruct (pc s); try reflexivity; discriminate.
Qed.




(** ** What [main] says before it fails *)

Lemma wake_L250 (s : state) : pc (wake s) = L250 -> pc s = L250.
Proof. unfold wake. destruct (pc s) eqn:E; cbn; rewrite ?E; auto; discriminate. Qed.

Lemma inv_diagnostic_step (ev : event) (s : state) :
  inv s -> inv_diagnostic s -> inv_diagnostic (step ev s).
Proof.
  intros Hi [HA HB].
  destruct (live (pc s)) eqn:Hlive.
  2:{ destruct (step_dead ev s Hlive) as (E1 & _ & _ & _ & E5).
      unfold inv_diagnostic. rewrite E1, E5. split; assumption. }
  destruct ev as [r|sig v|code|sig core]; cbn [step].
  - unfold inv_diagnostic.
    main_cases s; rewrite ?record_pieces_length; break_all;
      try absurd_test; try discriminate Hlive; cbn; rewrite ?Hpc;
      (split; [intros Hx; try discriminate Hx
              |intros c Hc; try discriminate Hc; injection Hc as <-]);
      try (left; reflexivity);
      try (right; right; left; split; [reflexivity|apply HA; reflexivity]);
      try (right; right; right; eexists; eexists;
           split; [reflexivity|simpl; tauto]).
    match goal with
    | H : main_parse _ = Exit _ |- _ => apply main_parse_exit in H; subst
    end.
    right; right; left; split; [reflexivity|apply HA; reflexivity].
  - destruct Hi as (Hs & Hd & Hp). unfold inv_pc, no_fork_yet in Hp.
    destruct (deliver_cases sig v s)
      as [ | Hdel Hk | Hdel Hk | Hdel Hk Hpid | Hdel Hk Hpid | Hdel Hk Hne
         | Hdel Hk He ].
    + split; assumption.
    + split; intros; discriminate.
    + split.
      * intros H. apply wake_L250 in H. rewrite wake_log. auto.
      * intros c H. apply wake_exited in H. rewrite H in Hlive. discriminate.
    + split; [intros; discriminate|].
      intros c H. injection H as <-. right. left.
      apply cleanup_status; [exact Hs|exact (Hd _ _ Hk)].
    + split.
      * intros H. apply wake_L250 in H. cbn in H. rewrite H in Hp.
        exfalso. tauto.
      * intros c H. apply wake_exited in H. cbn in H.
        rewrite H in Hlive. discriminate.
    + split; intros; discriminate.
    + split.
      * intros H. apply wake_L250 in H. cbn in H. rewrite H in Hp.
        exfalso. destruct Hp as (_ & _ & _ & Hu & _). exact (Hu _ Hk).
      * intros c H. apply wake_exited in H. cbn in H.
        rewrite H in Hlive. discriminate.
  - unfold child_terminates. destruct (k_child (k s)); split; assumption.
  - unfold child_terminates.
    destruct (valid_signal sig); [destruct (k_child (k s))|];
      split; assumption.
Qed.

Lemma inv_diagnostic_reachable (e : environ) (args : list string)
      (s : state) :
  reachable e args s -> inv_diagnostic s.
Proof.
  revert s. apply reachable_ind.
  - split; [reflexivity|]. intros c H. discriminate H.
  - intros ev s Hr H. apply inv_diagnostic_step; [|exact H].
    apply inv_reachable in Hr. exact Hr.
Qed.




(** ** The process group *)

Lemma precedes_snoc (a b x : effect) (lg : list effect) :
  precedes a b lg -> precedes a b (lg ++ [x]).
Proof.
  intros (l1 & l2 & -> & H). exists l1, (l2 ++ [x])%list. split.
  - rewrite <- app_assoc. reflexivity.
  - apply in_snoc. exact H.
Qed.

Lemma precedes_last (a b : effect) (lg : list effect) :
  In a lg -> precedes a b (lg ++ [b]).
Proof.
  intros H. apply in_split in H as (l1 & l2 & ->).
  exists l1, (l2 ++ [b])%list. split.
  - rewrite <- app_assoc. reflexivity.
  - apply in_or_app. right. left. reflexivity.
Qed.

Lemma in_own_group_snoc (lg : list effect) (x : effect) :
  in_own_group lg -> (forall r, x <> SysFork r) -> in_own_group (lg ++ [x]).
Proof.
  intros H Hx r Hr. apply in_app_or in Hr as [Hr|[Hr|[]]].
  - apply precedes_snoc, H, Hr.
  - exfalso. exact (Hx _ Hr).
Qed.

Lemma in_own_group_fork (lg : list effect) (r : Z) :
  In (SysSetpgid 0 0) lg -> (forall r', ~ In (SysFork r') lg) ->
  in_own_group (lg ++ [SysFork r]).
Proof.
  intros H Hn r' Hr. apply in_app_or in Hr as [Hr|[Hr|[]]].
  - exfalso. exact (Hn _ Hr).
  - injection Hr as <-. apply precedes_last, H.
Qed.

Lemma inv_group_weaken (s : state) : inv_group s -> in_own_group (log s).
Proof.
  unfold inv_group.
  destruct (pc s); intros H; try exact H; intros r Hr; exfalso;
    try exact (H _ Hr); exact (proj2 H _ Hr).
Qed.

Lemma no_fork_snoc (lg : list effect) (x : effect) :
  (forall r, ~ In (SysFork r) lg) -> (forall r, x <> SysFork r) ->
  forall r, ~ In (SysFork r) (lg ++ [x]).
Proof.
  intros H Hx r Hr. apply in_app_or in Hr as [Hr|[Hr|[]]];
    [exact (H _ Hr)|exact (Hx _ Hr)].
Qed.

Lemma inv_group_wake (s : state) : inv_group s -> inv_group (wake s).
Proof.
  intros H. unfold wake. destruct (pc s) eqn:Hpc; try exact H.
  unfold inv_group in *. rewrite Hpc in H. exact H.
Qed.

Lemma inv_group_killed (pid sig : Z) (s : state) :
  inv_group s -> inv_group (killed pid sig s).
Proof.
  unfold inv_group, killed. cbn. intros H.
  destruct (pc s);
    try (apply in_own_group_snoc; [exact H|discriminate]);
    try (apply no_fork_snoc; [exact H|discriminate]);
    (split; [apply in_snoc, H|apply no_fork_snoc; [apply H|discriminate]]).
Qed.

Lemma inv_group_step (ev : event) (s : state) :
  inv_static s -> inv_group s -> inv_group (step ev s).
Proof.
  intros [_ Hfg] H.
  pose proof (inv_group_weaken s H) as Hw.
  destruct ev as [r|sig v|code|sig core]; cbn [step].
  - unfold inv_group in H.
    main_cases s; rewrite ?record_pieces_length, ?Hfg; break_all;
      try absurd_test; unfold inv_group; cbn; rewrite ?Hpc;
      try exact H; try exact Hw.
    all: try match goal with
      | Hb : negb (foreground _) = false |- _ =>
          cbn in Hb; rewrite Hfg in Hb; discriminate Hb
      end.
    all: repeat first
      [ exact H | exact Hw | apply H
      | apply in_own_group_snoc; [|discriminate]
      | apply in_own_group_fork
      | apply no_fork_snoc; [|discriminate]
      | apply in_or_app; right; left; reflexivity
      | apply in_snoc
      | split ].
  - destruct (deliver_cases sig v s); try exact H; try exact Hw.
    + apply inv_group_wake, H.
    + apply inv_group_wake, inv_group_killed, H.
    + apply inv_group_wake, inv_group_killed, H.
  - unfold child_terminates. destruct (k_child (k s)); exact H.
  - unfold child_terminates.
    destruct (valid_signal sig); [destruct (k_child (k s))|]; exact H.
Qed.

Lemma inv_group_reachable (e : environ) (args : list string) (s : state) :
  reachable e args s -> inv_group s.
Proof.
  revert s. apply reachable_ind.
  - intros r [].
  - intros ev s Hr H. apply inv_group_step; [|exact H].
    apply inv_reachable in Hr. apply Hr.
Qed.

(** X20: the process is in a group of its own before it has a child: every
    [fork] of a run comes after the [setpgid (0, 0)] of line 274, which is
    always made because [foreground] stays false. *)
Theorem own_group_before_fork (e : environ) (args : list string) (s : state)
        (r : Z) :
  reachable e args s -> In (SysFork r) (log s) ->
  precedes (SysSetpgid 0 0) (SysFork r) (log s) /\ foreground (g s) = false.
Proof.
  intros Hr Hf. split.
  - apply inv_group_reachable in Hr. apply inv_group_weaken in Hr.
    apply Hr, Hf.
  - apply inv_reachable in Hr. apply Hr.
Qed.

Lemma own_group_before_fork_witness :
  reachable plain_environ example_args suspended /\
  In (SysFork 1234) (log suspended) /\
  precedes (SysSetpgid 0 0) (SysFork 1234) (log suspended).
Proof.
  assert (H1 : reachable plain_environ example_args suspended)
    by (exists until_suspended; reflexivity).
  assert (H2 : In (SysFork 1234) (log suspended)) by (vm_compute; tauto).
  exact (conj H1 (conj H2 (proj1 (own_group_before_fork _ _ _ _ H1 H2)))).
Defined.


(** ** From the start to [sigsuspend] *)

Lemma before_fork_step (d t : Z) (p p' : label) (lg extra : list effect)
      (s : state) :
  before_fork d t p lg s -> In (p, p', extra) path_before_fork ->
  before_fork d t p' (lg ++ extra) (main_step (answer 0) s).
Proof.
  intros (Hpc & Hfd & Ht & Hfg & Hterm & Ho & Hout & Hlog) Hin.
  unfold before_fork. unfold main_step. rewrite Hpc.
  simpl in Hin.
  repeat (destruct Hin as [Hin|Hin];
          [injection Hin as <- <- <-;
           rewrite ?install_cleanup_eq, ?install_sigchld_eq, ?sys_signal_eq;
           cbn; rewrite ?Hfd, ?Ho, ?Hfg; cbn;
           rewrite ?Hlog, ?app_nil_r; repeat split; assumption|]).
  contradiction.
Qed.

Lemma fork_step (d t pid : Z) (lg : list effect) (s : state) :
  before_fork d t L290 lg s -> 0 < pid ->
  after_fork d t pid L311 (lg ++ [SysFork pid]) (main_step (answer pid) s).
Proof.
  intros (Hpc & Hfd & Ht & Hfg & Hterm & Ho & Hout & Hlog) Hpid.
  unfold after_fork. unfold main_step. rewrite Hpc. cbn.
  replace (pid <? -1) with false by lia. cbn.
  replace (pid =? -1) with false by lia.
  replace (pid =? 0) with false by lia. cbn.
  rewrite Hlog. repeat split; assumption.
Qed.

Lemma after_fork_step (d t pid : Z) (p p' : label) (lg extra : list effect)
      (s : state) :
  after_fork d t pid p lg s -> In (p, p', extra) (path_after_fork t pid) ->
  after_fork d t pid p' (lg ++ extra) (main_step (answer 0) s).
Proof.
  intros (Hpc & Hfd & Ht & Hterm & Hm & Hc & Hcp & Hout & Hlog) Hin.
  unfold after_fork. unfold main_step. rewrite Hpc.
  simpl in Hin.
  repeat (destruct Hin as [Hin|Hin];
          [injection Hin as <- <- <-;
           rewrite ?unblock_signal_eq, ?block_cleanup_and_chld_eq;
           try rewrite sys_sigaction_pair;
           unfold settimeout, sys_waitpid;
           cbn; rewrite ?Hm, ?Hcp, ?Z.eqb_refl, ?Hc; cbn;
           try change (0 =? 0) with true; cbn;
           rewrite ?Hlog, ?Ht, ?app_nil_r, <- ?app_assoc;
           repeat split; assumption|]).
  contradiction.
Qed.

(** X21: the way to [sigsuspend].  With arguments that [main] accepts, an
    open descriptor and a kernel that answers every call with success,
    fourteen statements take the supervisor into [sigsuspend]: it has the
    descriptor and the timeout of the command line, the child that [fork]
    returned is running, nothing is written yet, and what it did is, in this
    order, [setpgid], [fork], [timer_create], [timer_settime] with the
    timeout, and one [waitpid] that found the child running. *)
Theorem startup_reaches_sigsuspend (e : environ) (args : list string)
        (d t pid : Z) :
  main_args args = Return (d, t) -> open_fds e d = true -> 0 < pid ->
  let s := run (ticks 8 ++ [Tick (answer pid)] ++ ticks 5) (init e args) in
  pc s = L331 /\ fd (l s) = d /\ timeout_secs (g s) = t /\
  monitored_pid (g s) = pid /\ k_child (k s) = Running /\
  out s = EmptyString /\
  log s = [SysSetpgid 0 0; SysFork pid; SysTimerCreate; SysTimerSettime t;
           SysWaitpid pid 0].
Proof.
  intros Hm Ho Hpid. cbv zeta. unfold ticks. cbn [repeat app run step].
  assert (F : before_fork d t L260 [] (main_step (answer 0) (init e args))).
  { rewrite main_step_args by reflexivity. cbn [init argv l]. rewrite Hm.
    repeat split. exact Ho. }
  do 7 (eapply before_fork_step in F; [|simpl; auto 10; fail]).
  apply fork_step with (pid := pid) in F; [|exact Hpid].
  do 5 (eapply after_fork_step in F; [|simpl; auto 10; fail]).
  destruct F as (H1 & H2 & H3 & _ & H4 & H5 & _ & H6 & H7).
  repeat (split; [assumption|]). exact H7.
Qed.

Lemma startup_reaches_sigsuspend_witness :
  main_args example_args = Return (5, 10) /\
  open_fds plain_environ 5 = true /\
  pc (run until_suspended (init plain_environ example_args)) = L331.
Proof.
  assert (H1 : main_args example_args = Return (5, 10)) by reflexivity.
  assert (H2 : open_fds plain_environ 5 = true) by reflexivity.
  assert (H3 : 0 < 1234) by reflexivity.
  exact (conj H1 (conj H2
           (proj1 (startup_reaches_sigsuspend plain_environ example_args
                     5 10 1234 H1 H2 H3)))).
Defined.


(** ** [send_sig] and [handle_usr1] *)



(** X23: the assertion of [handle_usr1] holds.  In every state the process
    reaches, [handle_usr1] is the handler of no signal but SIGUSR1, so that
    it never aborts the process: all it does is the [kill] of
    [monitored_pid] with the number that came with the signal. *)
Theorem usr1_assertion_holds (e : environ) (args : list string) (s : state)
        (sig v : Z) :
  reachable e args s -> k_disp (k s) sig = SigHandler Husr1 ->
  sig = SIGUSR1 /\
  run_handler Husr1 sig v s = sys_kill (monitored_pid (g s)) v s /\
  (live (pc s) = true -> live (pc (deliver sig v s)) = true).
Proof.
  intros Hr Hk. apply inv_reachable in Hr as (_ & Hd & _).
  destruct (Hd _ _ Hk) as [-> _]. split; [reflexivity|]. split.
  - reflexivity.
  - intros Hl. destruct (deliverable s SIGUSR1) eqn:Hdel.
    + rewrite (deliver_usr1_eq _ _ Hdel Hk). apply wake_live. exact Hl.
    + unfold deliver. rewrite Hdel. exact Hl.
Qed.

Lemma usr1_assertion_holds_witness :
  reachable plain_environ example_args suspended /\
  k_disp (k suspended) SIGUSR1 = SigHandler Husr1 /\
  run_handler Husr1 SIGUSR1 SIGTERM suspended =
  sys_kill (monitored_pid (g suspended)) SIGTERM suspended.
Proof.
  assert (H1 : reachable plain_environ example_args suspended)
    by (exists until_suspended; reflexivity).
  assert (H2 : k_disp (k suspended) SIGUSR1 = SigHandler Husr1)
    by reflexivity.
  destruct (usr1_assertion_holds _ _ _ SIGUSR1 SIGTERM H1 H2) as (_ & H & _).
  exact (conj H1 (conj H2 H)).
Defined.
